(** * Photography assistant: the photo-analysis pipeline

    A shallow embedding of the two computational parts of the repository:

    - [backend/main.go]: the [/analyze] handler ([analyzeImageHandler]) and
      the Bedrock pipeline ([analyzeImageWithBedrock]): data-URL prefix
      stripping, base64 validation, extraction of the JSON payload from
      the model's reply, decoding into [AnalysisResponse] and the clamping
      of the score;
    - [web/src/components/opencv-utils.ts]: [calculateTargetSize], the
      aspect-ratio preserving computation of the resize target.

    Go strings are byte sequences: they are modelled by [string] (a list of
    8-bit [ascii] characters); Go [int] is the 64-bit signed integer and is
    modelled by [Z] with an explicit range check where a value is produced
    from text. *)

From Stdlib Require Import ZArith QArith Qabs Qpower Bool List Ascii String Lia Lqa.
From Stdlib Require Decimal DecimalFacts DecimalZ SpecFloat.
Import ListNotations.

Local Open Scope string_scope.
Local Open Scope Z_scope.

(** ** Results of fallible Go functions: [(value, error)] pairs *)

Inductive result (E A : Type) : Type :=
| Ok (a : A)
| Err (e : E).
Arguments Ok {E A} a.
Arguments Err {E A} e.

Definition bind {E A B} (r : result E A) (k : A -> result E B) : result E B :=
  match r with
  | Ok a => k a
  | Err e => Err e
  end.

Definition option_bind {A B} (o : option A) (k : A -> option B) : option B :=
  match o with
  | Some a => k a
  | None => None
  end.

(** ** The functions of Go's [strings] package used by the backend.

    The backend only ever searches for or splits on a one-byte separator
    (["{"], ["}"] and [","]), so the separator is an [ascii]. *)

Module strings.

(** [strings.Index(s, sep)]: index of the first [sep] in [s], or -1. *)
Fixpoint Index (s : string) (sep : ascii) : Z :=
  match s with
  | EmptyString => -1
  | String a r =>
      if Ascii.eqb a sep then 0
      else let i := Index r sep in
           if i =? -1 then -1 else i + 1
  end.

(** [strings.LastIndex(s, sep)]: index of the last [sep] in [s], or -1. *)
Fixpoint LastIndex (s : string) (sep : ascii) : Z :=
  match s with
  | EmptyString => -1
  | String a r =>
      let i := LastIndex r sep in
      if i =? -1 then (if Ascii.eqb a sep then 0 else -1) else i + 1
  end.

(** [strings.Contains(s, sep)] is [Index(s, sep) >= 0]. *)
Definition Contains (s : string) (sep : ascii) : bool :=
  0 <=? Index s sep.

(** [strings.Split(s, sep)]: the substrings between the separators; a
    string without separator gives the one-element list [[s]]. *)
Fixpoint Split (s : string) (sep : ascii) : list string :=
  match s with
  | EmptyString => [EmptyString]
  | String a r =>
      if Ascii.eqb a sep then EmptyString :: Split r sep
      else match Split r sep with
           | h :: t => String a h :: t
           | [] => [String a EmptyString]
           end
  end.

(** The slice expression [s[lo:hi]].  Go panics unless
    [0 <= lo <= hi <= len(s)]; the panic is [None]. *)
Definition slice (s : string) (lo hi : Z) : option string :=
  if (0 <=? lo) && (lo <=? hi) && (hi <=? Z.of_nat (String.length s))
  then Some (substring (Z.to_nat lo) (Z.to_nat (hi - lo)) s)
  else None.

End strings.

(** ** Extraction of the JSON text from the model's reply
    ([analyzeImageWithBedrock], "Find JSON in the response") *)

Inductive pipeline_error : Type :=
| ErrDecodeImage      (* "failed to decode image data" *)
| ErrConverse         (* "failed to call bedrock converse" *)
| ErrNoOutput         (* "no output in bedrock response" *)
| ErrNoText           (* "no text content in bedrock response" *)
| ErrNoJSON           (* "no valid JSON found in response" *)
| ErrParseJSON        (* "failed to parse analysis JSON" *)
| ErrPanic.           (* a run-time panic (slice bounds out of range) *)

Definition extractJSON (responseText : string) : result pipeline_error string :=
  let jsonStart := strings.Index responseText "{" in
  let jsonEnd := strings.LastIndex responseText "}" + 1 in
  if (jsonStart =? -1) || (jsonEnd <=? jsonStart) then Err ErrNoJSON
  else match strings.slice responseText jsonStart jsonEnd with
       | Some jsonText => Ok jsonText
       | None => Err ErrPanic
       end.

(** Positions in a string, for stating what extraction returns. *)

Definition first_at (c : ascii) (s : string) (i : nat) : Prop :=
  get i s = Some c /\ forall j, (j < i)%nat -> get j s <> Some c.

Definition last_at (c : ascii) (s : string) (i : nat) : Prop :=
  get i s = Some c /\ forall j, (i < j)%nat -> get j s <> Some c.

Definition absent (c : ascii) (s : string) : Prop :=
  forall i, get i s <> Some c.

(** ** [encoding/base64]: [base64.StdEncoding.DecodeString]

    The standard alphabet with mandatory ['='] padding, non-strict: the
    decoder skips carriage returns and line feeds wherever they occur and
    does not check the unused low bits of a padded quantum. *)

Module base64.

(** [enc.decodeMap]: the 6-bit value of an alphabet character ([None] is
    the table's 0xff). *)
Definition decodeMap (c : ascii) : option Z :=
  let n := Z.of_N (N_of_ascii c) in
  if (65 <=? n) && (n <=? 90) then Some (n - 65)
  else if (97 <=? n) && (n <=? 122) then Some (n - 71)
  else if (48 <=? n) && (n <=? 57) then Some (n + 4)
  else if n =? 43 then Some 62
  else if n =? 47 then Some 63
  else None.

Definition isNewline (c : ascii) : bool :=
  Ascii.eqb c "010" || Ascii.eqb c "013".

Definition padChar : ascii := "=".

(** The conversion [byte(x)] of an unsigned value: its low eight bits. *)
Definition byte_of_Z (x : Z) : Byte.byte :=
  byte_of_ascii (ascii_of_N (Z.to_N (Z.land x 255))).

(** "Convert 4x 6bit source bytes into 3 bytes": the first [dlen - 1] bytes
    of the 24-bit value of a quantum holding [dlen] characters. *)
Definition assemble (dbuf : list Z) (dlen : nat) : list Byte.byte :=
  let d := fun i => nth i dbuf 0 in
  let val := Z.lor (Z.lor (Z.lor (Z.shiftl (d 0%nat) 18) (Z.shiftl (d 1%nat) 12))
                          (Z.shiftl (d 2%nat) 6)) (d 3%nat) in
  firstn (dlen - 1)
    [byte_of_Z (Z.shiftr val 16); byte_of_Z (Z.shiftr val 8); byte_of_Z val].

(** "skip over newlines" *)
Fixpoint skipNewlines (src : string) : string :=
  match src with
  | EmptyString => EmptyString
  | String c r => if isNewline c then skipNewlines r else src
  end.

(** The decoding loop; [dbuf] holds the characters of the current quantum
    read so far (fewer than four).  [None] is a [CorruptInputError]. *)
Fixpoint decode (src : string) (dbuf : list Z) : option (list Byte.byte) :=
  match src with
  | EmptyString =>
      match dbuf with
      | [] => Some []
      | _ => None                      (* input ends inside a quantum *)
      end
  | String c r =>
      match decodeMap c with
      | Some out =>
          let dbuf' := (dbuf ++ [out])%list in
          if (List.length dbuf' =? 4)%nat
          then option_map (List.app (assemble dbuf' 4)) (decode r [])
          else decode r dbuf'
      | None =>
          if isNewline c then decode r dbuf
          else if negb (Ascii.eqb c padChar) then None
          else
            match List.length dbuf with
            | 0%nat | 1%nat => None      (* incorrect padding *)
            | 2%nat =>                   (* "==" is expected *)
                match skipNewlines r with
                | EmptyString => None    (* not enough padding *)
                | String c2 r2 =>
                    if negb (Ascii.eqb c2 padChar) then None
                    else match skipNewlines r2 with
                         | EmptyString => Some (assemble dbuf 2)
                         | String _ _ => None      (* trailing garbage *)
                         end
                end
            | _ =>
                match skipNewlines r with
                | EmptyString => Some (assemble dbuf 3)
                | String _ _ => None               (* trailing garbage *)
                end
            end
      end
  end.

Definition DecodeString (s : string) : option (list Byte.byte) :=
  decode s [].

End base64.

(** ** [encoding/json]: JSON values and their decoding into Go structs

    A JSON text that passed the syntax check is a [json] value.  An object
    keeps its members in the order of the text, duplicates included: the
    decoder stores them one after the other.  A number is the literal as
    written (sign and integer digits, fraction digits, exponent): whether
    it fits a Go [int] depends on the spelling, not only on the value. *)

Local Unset Elimination Schemes.
Inductive json : Type :=
| JNull
| JBool (b : bool)
| JNumber (d : Decimal.decimal)
| JString (s : string)
| JArray (elems : list json)
| JObject (members : list (string * json)).
Local Set Elimination Schemes.

Module jsondec.

(** The value of a number literal. *)
Definition pow10 (e : Z) : Q :=
  match e with
  | Z0 => 1%Q
  | Zpos p => inject_Z (10 ^ Zpos p)
  | Zneg p => Qmake 1 (10 ^ p)
  end.

Definition numberValue (d : Decimal.decimal) : Q :=
  match d with
  | Decimal.Decimal i f =>
      (inject_Z (Z.of_int (Decimal.app_int i f))
       * pow10 (- Z.of_nat (Decimal.nb_digits f)))%Q
  | Decimal.DecimalExp i f e =>
      (inject_Z (Z.of_int (Decimal.app_int i f))
       * pow10 (Z.of_int e - Z.of_nat (Decimal.nb_digits f)))%Q
  end.

(** [strconv.ParseInt(lit, 10, 64)] on a number literal: only a literal
    without fraction and exponent is an integer, and it has to fit in 64
    bits. *)
Definition hasDigits (i : Decimal.int) : bool :=
  match i with
  | Decimal.Pos Decimal.Nil | Decimal.Neg Decimal.Nil => false
  | _ => true
  end.

Definition ParseInt64 (d : Decimal.decimal) : option Z :=
  match d with
  | Decimal.Decimal i Decimal.Nil =>
      let n := Z.of_int i in
      if hasDigits i && (- 2 ^ 63 <=? n) && (n <=? 2 ^ 63 - 1) then Some n
      else None
  | _ => None
  end.

(** Field lookup is case-insensitive ([bytes.EqualFold] on the key).  For
    an ASCII field name this is: upper-case the ASCII letters of the key,
    and read U+017F (long s, bytes C5 BF) as S and U+212A (Kelvin sign,
    bytes E2 84 AA) as K, the two non-ASCII characters that fold to an
    ASCII letter. *)
Definition upper (c : ascii) : ascii :=
  let n := N_of_ascii c in
  if ((97 <=? n) && (n <=? 122))%N then ascii_of_N (n - 32) else c.

Fixpoint foldName (s : string) : string :=
  match s with
  | EmptyString => EmptyString
  | String "197" (String "191" r) => String "S" (foldName r)
  | String "226" (String "132" (String "170" r)) => String "K" (foldName r)
  | String c r => String (upper c) (foldName r)
  end.

Definition matchesField (name key : string) : bool :=
  String.eqb (foldName key) (foldName name).

(** A Go slice: [None] is the nil slice; otherwise the backing array, of
    which the first [len] elements are the slice.  The decoder reuses the
    backing array (and the old elements) of a slice it decodes into. *)
Record sliceval (A : Type) : Type := { backing : list A; len : nat }.
Arguments backing {A} s.
Arguments len {A} s.

Definition slice (A : Type) : Type := option (sliceval A).

Definition elements {A} (s : slice A) : list A :=
  match s with
  | None => []
  | Some v => firstn (len v) (backing v)
  end.

(** Storing a JSON value into a field ([None] is an [UnmarshalTypeError]);
    [null] leaves an [int] or a [string] as it is and makes a slice nil. *)
Definition storeInt (old : Z) (v : json) : option Z :=
  match v with
  | JNull => Some old
  | JNumber d => ParseInt64 d
  | _ => None
  end.

Definition storeString (old : string) (v : json) : option string :=
  match v with
  | JNull => Some old
  | JString s => Some s
  | _ => None
  end.

Fixpoint storeElements (old : list string) (elems : list json)
  : option (list string) :=
  match elems with
  | [] => Some old
  | e :: es =>
      match storeString (hd EmptyString old) e, storeElements (tl old) es with
      | Some x, Some xs => Some (x :: xs)
      | _, _ => None
      end
  end.

Definition storeStrings (old : slice string) (v : json) : option (slice string) :=
  match v with
  | JNull => Some None
  | JArray [] => Some (Some {| backing := []; len := 0 |})
  | JArray elems =>
      match storeElements (match old with None => [] | Some o => backing o end)
                          elems with
      | Some b => Some (Some {| backing := b; len := List.length elems |})
      | None => None
      end
  | _ => None
  end.

End jsondec.

(** ** [backend/main.go] *)

(** "Request structure matching frontend" *)
Record AnalysisRequest : Type := { Image : string }.

(** "Response structure matching frontend expectations" *)
Record AnalysisResponse : Type := {
  Score : Z;
  Composition : string;
  Lighting : string;
  Subject : string;
  Strengths : jsondec.slice string;
  Suggestions : jsondec.slice string
}.

(** The zero values [var analysisReq AnalysisRequest] and
    [var analysis AnalysisResponse]. *)
Definition zeroRequest : AnalysisRequest := {| Image := EmptyString |}.

Definition zeroAnalysis : AnalysisResponse :=
  {| Score := 0; Composition := EmptyString; Lighting := EmptyString;
     Subject := EmptyString; Strengths := None; Suggestions := None |}.

(** Decoding one object member into the struct: the field is found from
    its [json:"..."] tag, a member that matches no field is skipped. *)
Definition storeRequestMember (r : AnalysisRequest) (m : string * json)
  : option AnalysisRequest :=
  let (key, v) := m in
  if jsondec.matchesField "image" key then
    option_map (fun x => {| Image := x |}) (jsondec.storeString (Image r) v)
  else Some r.

Definition storeAnalysisMember (a : AnalysisResponse) (m : string * json)
  : option AnalysisResponse :=
  let (key, v) := m in
  if jsondec.matchesField "score" key then
    option_map
      (fun x => {| Score := x; Composition := Composition a;
                   Lighting := Lighting a; Subject := Subject a;
                   Strengths := Strengths a; Suggestions := Suggestions a |})
      (jsondec.storeInt (Score a) v)
  else if jsondec.matchesField "composition" key then
    option_map
      (fun x => {| Score := Score a; Composition := x;
                   Lighting := Lighting a; Subject := Subject a;
                   Strengths := Strengths a; Suggestions := Suggestions a |})
      (jsondec.storeString (Composition a) v)
  else if jsondec.matchesField "lighting" key then
    option_map
      (fun x => {| Score := Score a; Composition := Composition a;
                   Lighting := x; Subject := Subject a;
                   Strengths := Strengths a; Suggestions := Suggestions a |})
      (jsondec.storeString (Lighting a) v)
  else if jsondec.matchesField "subject" key then
    option_map
      (fun x => {| Score := Score a; Composition := Composition a;
                   Lighting := Lighting a; Subject := x;
                   Strengths := Strengths a; Suggestions := Suggestions a |})
      (jsondec.storeString (Subject a) v)
  else if jsondec.matchesField "strengths" key then
    option_map
      (fun x => {| Score := Score a; Composition := Composition a;
                   Lighting := Lighting a; Subject := Subject a;
                   Strengths := x; Suggestions := Suggestions a |})
      (jsondec.storeStrings (Strengths a) v)
  else if jsondec.matchesField "suggestions" key then
    option_map
      (fun x => {| Score := Score a; Composition := Composition a;
                   Lighting := Lighting a; Subject := Subject a;
                   Strengths := Strengths a; Suggestions := x |})
      (jsondec.storeStrings (Suggestions a) v)
  else Some a.

(** Decoding a JSON value into a struct: the members of an object are
    stored in order, [null] leaves the struct as it is, any other value is
    an [UnmarshalTypeError]. *)
Fixpoint storeMembers {T} (store : T -> string * json -> option T)
  (t : T) (members : list (string * json)) : option T :=
  match members with
  | [] => Some t
  | m :: ms =>
      match store t m with
      | Some t' => storeMembers store t' ms
      | None => None
      end
  end.

Definition decodeStruct {T} (store : T -> string * json -> option T)
  (zero : T) (v : json) : option T :=
  match v with
  | JObject members => storeMembers store zero members
  | JNull => Some zero
  | _ => None
  end.

Definition decodeRequest : json -> option AnalysisRequest :=
  decodeStruct storeRequestMember zeroRequest.

Definition decodeAnalysis : json -> option AnalysisResponse :=
  decodeStruct storeAnalysisMember zeroAnalysis.

(** "Validate score range" *)
Definition validateScore (analysis : AnalysisResponse) : AnalysisResponse :=
  let score :=
    if Score analysis <? 1 then 1
    else if Score analysis >? 10 then 10
    else Score analysis in
  {| Score := score; Composition := Composition analysis;
     Lighting := Lighting analysis; Subject := Subject analysis;
     Strengths := Strengths analysis; Suggestions := Suggestions analysis |}.

(** The part of [analyzeImageWithBedrock] that follows the syntax check of
    the extracted JSON text: decoding into the struct and the validation
    of the score. *)
Definition analysisOfPayload (payload : json)
  : result pipeline_error AnalysisResponse :=
  match decodeAnalysis payload with
  | Some analysis => Ok (validateScore analysis)
  | None => Err ErrParseJSON
  end.

(** The reply of the Bedrock Converse API, as far as the backend looks at
    it: an error, or an output that is absent ([nil]), a message with its
    content blocks, or some other kind of output. *)
Inductive ContentBlock : Type :=
| ContentBlockMemberText (Value : string)
| ContentBlockMemberOther.

Inductive ConverseOutput : Type :=
| ConverseOutputMemberMessage (Content : list ContentBlock)
| ConverseOutputOther.

Definition ConverseResult : Type := result unit (option ConverseOutput).

(** "Extract response text" *)
Definition responseTextOf (output : ConverseOutput) : string :=
  match output with
  | ConverseOutputMemberMessage (ContentBlockMemberText Value :: _) => Value
  | _ => EmptyString
  end.

(** Client-visible outcome of the handler. *)
Inductive responseBody : Type :=
| ErrorBody (error : string)
| AnalysisBody (analysis : AnalysisResponse).

Record response : Type := { status : Z; body : responseBody }.

Definition StatusOK : Z := 200.
Definition StatusBadRequest : Z := 400.
Definition StatusInternalServerError : Z := 500.

(** Vocabulary for statements about payloads. *)

Definition isScoreKey (key : string) : bool := jsondec.matchesField "score" key.

Definition isFieldKey (key : string) : bool :=
  jsondec.matchesField "score" key || jsondec.matchesField "composition" key
  || jsondec.matchesField "lighting" key || jsondec.matchesField "subject" key
  || jsondec.matchesField "strengths" key
  || jsondec.matchesField "suggestions" key.

(** The payload has no score member. *)
Definition scoreMissing (payload : json) : Prop :=
  match payload with
  | JObject members => forall k v, In (k, v) members -> isScoreKey k = false
  | _ => False
  end.

(** The payload has a score member whose value is not a number. *)
Definition scoreNonNumeric (payload : json) : Prop :=
  match payload with
  | JObject members =>
      exists k v, In (k, v) members /\ isScoreKey k = true /\
                  forall d, v <> JNumber d
  | _ => False
  end.

(** The values an [int] field rejects: anything but [null] and an integer
    literal in the 64-bit range. *)
Definition rejectedAsInt (v : json) : bool :=
  match v with
  | JNull => false
  | JNumber d => match jsondec.ParseInt64 d with Some _ => false | None => true end
  | _ => true
  end.

(** The integer literal of [z] as a JSON number. *)
Definition intLiteral (z : Z) : json :=
  JNumber (Decimal.Decimal (Z.to_int z) Decimal.Nil).

(** The clamping of the score, as a function of the decoded integer. *)
Definition clamp (score : Z) : Z :=
  if score <? 1 then 1 else if score >? 10 then 10 else score.

(** What the specification says of the prefix: the payload is everything
    after the first separator, or the whole string when there is none. *)
Fixpoint afterFirst (sep : ascii) (s : string) : option string :=
  match s with
  | EmptyString => None
  | String a r => if Ascii.eqb a sep then Some r else afterFirst sep r
  end.

Definition payloadAfterFirstSeparator (image : string) : string :=
  match afterFirst "," image with
  | Some payload => payload
  | None => image
  end.

(** Sample texts. *)
Definition quote : string := String "034" EmptyString.

Definition sampleReply : string :=
  "Here you go: {" ++ quote ++ "score" ++ quote ++ ":12} Thanks!".

Definition samplePayloadText : string :=
  "{" ++ quote ++ "score" ++ quote ++ ":12}".

Section Backend.

(** The syntax layer of [encoding/json], which is not part of the
    repository: the value of a text that is one well-formed JSON value
    ([json.Unmarshal]), and the first value of a request body as gin's JSON
    binding reads it ([c.ShouldBindJSON]). *)
Variable parseJSON : string -> option json.
Variable readBody : string -> option json.

(** The inference service: the reply to a Converse call carrying the given
    image bytes (prompt, model and inference parameters are constants). *)
Variable Converse : list Byte.byte -> ConverseResult.

(** [json.Unmarshal([]byte(jsonText), &analysis)] followed by the score
    validation. *)
Definition analysisOfJSONText (jsonText : string)
  : result pipeline_error AnalysisResponse :=
  match parseJSON jsonText with
  | Some payload => analysisOfPayload payload
  | None => Err ErrParseJSON
  end.

(** "Find JSON in the response" and "Parse the analysis JSON". *)
Definition analysisOfText (responseText : string)
  : result pipeline_error AnalysisResponse :=
  bind (extractJSON responseText) analysisOfJSONText.

(** [analyzeImageWithBedrock] from "Extract response text" on. *)
Definition analysisOfReply (reply : ConverseResult)
  : result pipeline_error AnalysisResponse :=
  match reply with
  | Err _ => Err ErrConverse
  | Ok None => Err ErrNoOutput
  | Ok (Some output) =>
      let responseText := responseTextOf output in
      if String.eqb responseText EmptyString then Err ErrNoText
      else analysisOfText responseText
  end.

(** [analyzeImageWithBedrock]: the result, and the Converse calls made (the
    image bytes of each). *)
Definition analyzeImageWithBedrock (imageData : string)
  : result pipeline_error AnalysisResponse * list (list Byte.byte) :=
  match base64.DecodeString imageData with
  | None => (Err ErrDecodeImage, [])
  | Some imageBytes => (analysisOfReply (Converse imageBytes), [imageBytes])
  end.

(** "Clean base64 data (remove data:image/jpeg;base64, prefix if present)" *)
Definition cleanImageData (image : string) : string :=
  if strings.Contains image "," then
    let parts := strings.Split image "," in
    if (1 <? Z.of_nat (List.length parts)) then nth 1 parts EmptyString
    else image
  else image.

(** [analyzeImageHandler]: the response, and the Converse calls made. *)
Definition analyzeImageHandler (requestBody : string)
  : response * list (list Byte.byte) :=
  match option_bind (readBody requestBody) decodeRequest with
  | None =>
      ({| status := StatusBadRequest;
          body := ErrorBody "Invalid request format" |}, [])
  | Some analysisReq =>
      if String.eqb (Image analysisReq) EmptyString then
        ({| status := StatusBadRequest;
            body := ErrorBody "Image data is required" |}, [])
      else
        let imageData := cleanImageData (Image analysisReq) in
        match base64.DecodeString imageData with
        | None =>
            ({| status := StatusBadRequest;
                body := ErrorBody "Invalid image data" |}, [])
        | Some _ =>
            match analyzeImageWithBedrock imageData with
            | (Err _, calls) =>
                ({| status := StatusInternalServerError;
                    body := ErrorBody "Failed to analyze image" |}, calls)
            | (Ok analysis, calls) =>
                ({| status := StatusOK; body := AnalysisBody analysis |}, calls)
            end
        end
  end.

End Backend.

(** ** [web/src/components/opencv-utils.ts]

    A JavaScript number is an IEEE 754 binary64 value: a [spec_float],
    with the operations of the binary64 format (53 bits of precision,
    round to nearest, ties to even). *)

Module JS.

Definition number : Type := SpecFloat.spec_float.

Definition prec : Z := 53.
Definition emax : Z := 1024.

(** The Number value of an integer literal. *)
Definition ofZ (n : Z) : number :=
  SpecFloat.binary_normalize prec emax n 0 false.

(** [x / y], [x * y] and [x > y]. *)
Definition div (x y : number) : number := SpecFloat.SFdiv prec emax x y.
Definition mul (x y : number) : number := SpecFloat.SFmul prec emax x y.
Definition gt (x y : number) : bool := SpecFloat.SFltb y x.

(** [Math.min(x, y)]: NaN if either is NaN, the smaller otherwise, with
    -0 smaller than +0. *)
Definition Math_min (x y : number) : number :=
  match x, y with
  | SpecFloat.S754_nan, _ | _, SpecFloat.S754_nan => SpecFloat.S754_nan
  | SpecFloat.S754_zero sx, SpecFloat.S754_zero sy =>
      SpecFloat.S754_zero (sx || sy)
  | _, _ => if SpecFloat.SFltb y x then y else x
  end.

(** [Math.round(x)]: the integer closest to [x], the larger one on a tie;
    a result of zero keeps the sign of [x]; non-finite and integral values
    are returned as they are. *)
Definition Math_round (x : number) : number :=
  match x with
  | SpecFloat.S754_finite s m e =>
      if 0 <=? e then x
      else
        let k := (2 * (if s then Z.neg m else Z.pos m) + 2 ^ (- e))
                 / 2 ^ (1 - e) in
        if k =? 0 then SpecFloat.S754_zero s else ofZ k
  | _ => x
  end.

(** The integer a number stands for, if it does. *)
Definition toZ (x : number) : option Z :=
  match x with
  | SpecFloat.S754_zero _ => Some 0
  | SpecFloat.S754_finite s m e =>
      if 0 <=? e then Some ((if s then Z.neg m else Z.pos m) * 2 ^ e)
      else if (Z.pos m) mod 2 ^ (- e) =? 0
           then Some ((if s then Z.neg m else Z.pos m) / 2 ^ (- e))
           else None
  | _ => None
  end.

(** The rational value of a finite number. *)
Definition value (x : number) : Q :=
  match x with
  | SpecFloat.S754_finite s m e =>
      (inject_Z (if s then Z.neg m else Z.pos m) * 2 ^ e)%Q
  | _ => 0%Q
  end.

End JS.

(** "Processing presets for different quality/cost tradeoffs" *)
Inductive ProcessingMode : Type :=
| HIGH_QUALITY
| BALANCED
| COST_OPTIMIZED.

Record ProcessingConfig : Type := {
  maxWidth : JS.number;
  maxHeight : JS.number;
  quality : JS.number
}.

Definition PROCESSING_CONFIGS (mode : ProcessingMode) : ProcessingConfig :=
  match mode with
  | HIGH_QUALITY =>
      {| maxWidth := JS.ofZ 800; maxHeight := JS.ofZ 600;
         quality := JS.div (JS.ofZ 9) (JS.ofZ 10) |}
  | BALANCED =>
      {| maxWidth := JS.ofZ 512; maxHeight := JS.ofZ 384;
         quality := JS.div (JS.ofZ 75) (JS.ofZ 100) |}
  | COST_OPTIMIZED =>
      {| maxWidth := JS.ofZ 240; maxHeight := JS.ofZ 180;
         quality := JS.div (JS.ofZ 6) (JS.ofZ 10) |}
  end.

Record Size : Type := { width : JS.number; height : JS.number }.

(** "Calculate target dimensions while maintaining aspect ratio" *)
Definition calculateTargetSize
  (originalWidth originalHeight maxWidth maxHeight : JS.number) : Size :=
  let aspectRatio := JS.div originalWidth originalHeight in
  let (width, height) :=
    if JS.gt aspectRatio (JS.ofZ 1) then
      (* Landscape: fit to width first *)
      let width := JS.Math_min maxWidth originalWidth in
      let height := JS.div width aspectRatio in
      if JS.gt height maxHeight then
        let height := maxHeight in
        let width := JS.mul height aspectRatio in
        (width, height)
      else (width, height)
    else
      (* Portrait: fit to height first *)
      let height := JS.Math_min maxHeight originalHeight in
      let width := JS.mul height aspectRatio in
      if JS.gt width maxWidth then
        let width := maxWidth in
        let height := JS.div width aspectRatio in
        (width, height)
      else (width, height) in
  {| width := JS.Math_round width; height := JS.Math_round height |}.

(** The target size for an image of the given dimensions under a preset,
    as [resizeWithOpenCV] computes it from [src.cols] and [src.rows]. *)
Definition targetSize (mode : ProcessingMode) (cols rows : Z) : Size :=
  let config := PROCESSING_CONFIGS mode in
  calculateTargetSize (JS.ofZ cols) (JS.ofZ rows)
    (maxWidth config) (maxHeight config).

(** ** Vocabulary for statements about numbers *)

Import SpecFloat.

(** A positive normal number: 53 significant bits, exponent in range. *)
Definition fin53 (x : JS.number) : Prop :=
  match x with
  | S754_finite false m e => Z.pos (digits2_pos m) = 53 /\ -1074 <= e <= 971
  | _ => False
  end.

(** The unit round-off of binary64. *)
Definition u53 : Q := 1 # 9007199254740992.

(** The rational [x] lies in [[m, m+1)], at the place the round and
    sticky bits of the record say: on [m], below the middle, on the
    middle, above the middle. *)
Definition located (x : Q) (mrs : shr_record) : Prop :=
  0 <= shr_m mrs /\
  match shr_r mrs, shr_s mrs with
  | false, false => (x == inject_Z (shr_m mrs))%Q
  | false, true => (inject_Z (shr_m mrs) < x < inject_Z (shr_m mrs) + (1#2))%Q
  | true, false => (x == inject_Z (shr_m mrs) + (1#2))%Q
  | true, true => (inject_Z (shr_m mrs) + (1#2) < x < inject_Z (shr_m mrs) + 1)%Q
  end.

(** The target size [s] computed for a [cols] x [rows] image under the
    bounds [mw] x [mh]: both dimensions are integers within the bounds,
    each within one pixel of a pair [(w, h)] that has exactly the aspect
    ratio of the image; and the image is returned at its own size when it
    is within the bounds already. *)
Definition fits (cols rows mw mh : Z) (s : Size) : Prop :=
  exists W H : Z,
    JS.toZ (width s) = Some W /\ JS.toZ (height s) = Some H /\
    0 <= W <= mw /\ 0 <= H <= mh /\
    (exists w h : Q,
        (w * inject_Z rows == h * inject_Z cols)%Q /\
        (- (1) <= inject_Z W - w <= 1)%Q /\ (- (1) <= inject_Z H - h <= 1)%Q) /\
    (cols <= mw -> rows <= mh -> W = cols /\ H = rows).

(** ** Further vocabulary for the decoding of a payload *)

(** The values a [string] field rejects, and those a [[]string] field
    rejects: anything but [null] and a string, anything but [null] and an
    array of strings and [null]s. *)
Definition rejectedAsString (v : json) : bool :=
  match v with
  | JNull | JString _ => false
  | _ => true
  end.

Definition rejectedAsStrings (v : json) : bool :=
  match v with
  | JNull => false
  | JArray elems => existsb rejectedAsString elems
  | _ => true
  end.

(** The member is rejected by the field of [AnalysisResponse] it names. *)
Definition rejectedByField (m : string * json) : bool :=
  let (key, v) := m in
  if jsondec.matchesField "score" key then rejectedAsInt v
  else if jsondec.matchesField "composition" key then rejectedAsString v
  else if jsondec.matchesField "lighting" key then rejectedAsString v
  else if jsondec.matchesField "subject" key then rejectedAsString v
  else if jsondec.matchesField "strengths" key then rejectedAsStrings v
  else if jsondec.matchesField "suggestions" key then rejectedAsStrings v
  else false.

(** No member of the payload names the field. *)
Definition fieldMissing (name : string) (members : list (string * json)) : Prop :=
  forall k v, In (k, v) members -> jsondec.matchesField name k = false.

(** ** [web/src/components/CameraApp.tsx]: the image sent to the backend

    [const base64Image = resizedImageData.split(',')[1]] in [analyzePhoto]:
    the second element of the split of the data URL ([undefined], here
    [None], when there is none).  On the separator [","] the JavaScript
    [split] and Go's [strings.Split] cut a string at the same places. *)
Definition base64Image (resizedImageData : string) : option string :=
  nth_error (strings.Split resizedImageData ",") 1.

(** The fixed messages of the handler's error answers. *)
Definition handlerMessages : list string :=
  ["Invalid request format"; "Image data is required"; "Invalid image data";
   "Failed to analyze image"].

(** ** Vocabulary for the target size

    The best fit of a [cols] x [rows] image into the bounds [mw] x [mh]:
    the pair [(ws, hs)] of the aspect ratio of the image that exceeds
    neither the bounds nor the image and is as large as that allows (it
    meets the bound on the width, the bound on the height, or the image
    itself). *)
Definition bestFit (cols rows mw mh : Z) (ws hs : Q) : Prop :=
  (ws * inject_Z rows == hs * inject_Z cols)%Q /\
  (0 < ws)%Q /\ (0 < hs)%Q /\
  (ws <= inject_Z mw)%Q /\ (ws <= inject_Z cols)%Q /\
  (hs <= inject_Z mh)%Q /\ (hs <= inject_Z rows)%Q /\
  ((ws == inject_Z mw)%Q \/ (hs == inject_Z mh)%Q \/
   ((ws == inject_Z cols)%Q /\ (hs == inject_Z rows)%Q)).

(** An integer that is a rounding of [v]: within half a pixel, up to the
    error of the floating-point computation (less than 2^-16). *)
Definition roundingOf (K : Z) (v : Q) : Prop :=
  (- (32769 # 65536) <= inject_Z K - v <= 32769 # 65536)%Q.

(** ** [opencv-utils.ts]: [resizeWithOpenCV] and [resizeImageForAnalysis]

    An OpenCV matrix lives on the heap of the WebAssembly module until its
    [delete()] is called; the heap is the list of the live matrices. A
    call either returns or throws. *)

Inductive thrown : Type :=
| Error (message : string)      (* [new Error(message)] *)
| Foreign (code : Z).           (* an exception of the browser or of OpenCV *)

Inductive outcome (A : Type) : Type :=
| Returned (a : A)
| Threw (e : thrown).
Arguments Returned {A} a.
Arguments Threw {A} e.

Record Mat : Type := { ptr : nat; cols : Z; rows : Z }.

Record heap : Type := { nextPtr : nat; live : list nat }.

(** The variables [let src, dst;] of [resizeWithOpenCV]: [None] is
    [undefined]. *)
Record locals : Type := { src : option Mat; dst : option Mat }.

Definition M (A : Type) : Type := heap * locals -> outcome A * (heap * locals).

Definition ret {A} (a : A) : M A := fun s => (Returned a, s).

Definition throw {A} (e : thrown) : M A := fun s => (Threw e, s).

Definition seq {A B} (m : M A) (k : A -> M B) : M B :=
  fun s =>
    match m s with
    | (Returned a, s') => k a s'
    | (Threw e, s') => (Threw e, s')
    end.

(** [try { body } finally { cleanup }]: the cleanup runs in both cases,
    and an exception of the cleanup replaces the outcome of the body. *)
Definition tryFinally {A} (body : M A) (cleanup : M unit) : M A :=
  fun s =>
    match body s with
    | (o, s') =>
        match cleanup s' with
        | (Returned _, s'') => (o, s'')
        | (Threw e, s'') => (Threw e, s'')
        end
    end.

(** A call of the browser or of OpenCV that does not touch the heap. *)
Definition external {A} (o : outcome A) : M A := fun s => (o, s).

(** A matrix comes to life: [cv.imread], [new cv.Mat()]. *)
Definition allocate (c r : Z) : M Mat :=
  fun s =>
    let (h, l) := s in
    let m := {| ptr := nextPtr h; cols := c; rows := r |} in
    (Returned m, ({| nextPtr := S (nextPtr h); live := nextPtr h :: live h |}, l)).

(** [m.delete()]: frees the matrix; on a matrix that is not live (never
    allocated, or deleted already) the binding throws. *)
Definition delete (m : Mat) : M unit :=
  fun s =>
    let (h, l) := s in
    if existsb (Nat.eqb (ptr m)) (live h) then
      (Returned tt,
       ({| nextPtr := nextPtr h;
           live := filter (fun p => negb (Nat.eqb (ptr m) p)) (live h) |}, l))
    else (Threw (Error "Mat instance already deleted"), s).

Definition setSrc (m : Mat) : M unit :=
  fun s => let (h, l) := s in (Returned tt, (h, {| src := Some m; dst := dst l |})).

Definition setDst (m : Mat) : M unit :=
  fun s => let (h, l) := s in (Returned tt, (h, {| src := src l; dst := Some m |})).

Definition getSrc : M (option Mat) := fun s => (Returned (src (snd s)), s).

Definition getDst : M (option Mat) := fun s => (Returned (dst (snd s)), s).

Section OpenCV.

(** What the browser and OpenCV do is not part of the repository: drawing
    the image on a canvas, reading the canvas as a matrix (its [cols] and
    [rows]), constructing an empty matrix, resizing, and showing the
    resized matrix on a canvas and encoding it as a JPEG data URL. *)
Variables HTMLImageElement HTMLCanvasElement : Type.
Variable drawImage : HTMLImageElement -> outcome HTMLCanvasElement.
Variable imread : HTMLCanvasElement -> outcome (Z * Z).
Variable newMat : outcome unit.
Variable resize : Mat -> Size -> outcome unit.
Variable toDataURL : Mat -> Size -> JS.number -> outcome string.

(** The [try] block of [resizeWithOpenCV]. *)
Definition resizeWithOpenCV_try (img : HTMLImageElement)
  (maxWidth maxHeight quality : JS.number) : M string :=
  seq (external (drawImage img)) (fun canvas =>
  seq (external (imread canvas)) (fun dims =>
  seq (allocate (fst dims) (snd dims)) (fun m =>
  seq (setSrc m) (fun _ =>
  let targetSize :=
    calculateTargetSize (JS.ofZ (cols m)) (JS.ofZ (rows m)) maxWidth maxHeight in
  seq (external newMat) (fun _ =>
  seq (allocate 0 0) (fun d =>
  seq (setDst d) (fun _ =>
  seq (external (resize m targetSize)) (fun _ =>
  external (toDataURL m targetSize quality))))))))).

(** The [finally] block: "Clean up memory". *)
Definition resizeWithOpenCV_finally : M unit :=
  seq getSrc (fun s =>
  seq (match s with Some m => delete m | None => ret tt end) (fun _ =>
  seq getDst (fun d =>
  match d with Some m => delete m | None => ret tt end))).

(** [resizeWithOpenCV], on the heap: its variables start undefined and
    are gone when it is left. *)
Definition resizeWithOpenCV (img : HTMLImageElement)
  (maxWidth maxHeight quality : JS.number) (h : heap) : outcome string * heap :=
  match tryFinally (resizeWithOpenCV_try img maxWidth maxHeight quality)
                   resizeWithOpenCV_finally
                   (h, {| src := None; dst := None |}) with
  | (o, (h', _)) => (o, h')
  end.

(** [waitForOpenCVReady]: the promise of the module rejects, or resolves
    to a module that is usable or not. *)
Variable cvReadyPromise : outcome bool.

Definition waitForOpenCVReady : outcome unit :=
  match cvReadyPromise with
  | Threw e => Threw e
  | Returned false => Threw (Error "OpenCV is not ready")
  | Returned true => Returned tt
  end.

(** Loading the data URL into an [img] element: [onload] or [onerror]. *)
Variable loadImage : string -> option HTMLImageElement.

Definition resizeImageForAnalysis (imageData : string) (mode : ProcessingMode)
  (h : heap) : outcome string * heap :=
  let config := PROCESSING_CONFIGS mode in
  match waitForOpenCVReady with
  | Threw e => (Threw e, h)
  | Returned _ =>
      match loadImage imageData with
      | None => (Threw (Error "Failed to load image"), h)
      | Some img =>
          match resizeWithOpenCV img (maxWidth config) (maxHeight config)
                  (quality config) h with
          | (Returned result, h') => (Returned result, h')
          | (Threw _, h') =>
              (Threw (Error "OpenCV resizing failed, please check console for details"),
               h')
          end
      end
  end.

End OpenCV.

Arguments resizeWithOpenCV_try {HTMLImageElement HTMLCanvasElement}.
Arguments resizeWithOpenCV {HTMLImageElement HTMLCanvasElement}.
Arguments resizeImageForAnalysis {HTMLImageElement HTMLCanvasElement}.

(** Every live matrix was allocated: its pointer is below the next one. *)
Definition wellFormed (h : heap) : Prop :=
  forall p, In p (live h) -> (p < nextPtr h)%nat.

(** ** [CameraApp.tsx] and [AnalysisModal.tsx]: the analysis on the screen

    The answer of the backend as [analyzePhoto] has it.  [c.JSON] writes
    the response struct with [encoding/json]: the score as its decimal
    literal, a nil slice as [null], any other slice as an array of its
    elements; [response.json()] reads them back as a number, as [null]
    and as an array.  [None] is [null]. *)
Record Feedback : Type := {
  composition : string;
  lighting : string;
  subject : string;
  suggestions : option (list string)
}.

Record AnalysisResult : Type := {
  overallScore : JS.number;
  feedback : Feedback;
  strengths : option (list string);
  timestamp : string
}.

Definition readStrings (s : jsondec.slice string) : option (list string) :=
  match s with
  | None => None
  | Some _ => Some (jsondec.elements s)
  end.

(** "Transform the backend response to match our AnalysisResult
    interface" *)
Definition toAnalysisResult (result : AnalysisResponse) (now : string)
  : AnalysisResult :=
  {| overallScore := JS.ofZ (Score result);
     feedback :=
       {| composition := Composition result;
          lighting := Lighting result;
          subject := Subject result;
          suggestions := readStrings (Suggestions result) |};
     strengths := readStrings (Strengths result);
     timestamp := now |}.

(** [x >= y] on numbers, and the literal [6.5]. *)
Definition number_ge (x y : JS.number) : bool := SpecFloat.SFleb y x.

Definition number_6_5 : JS.number :=
  SpecFloat.binary_normalize JS.prec JS.emax 13 (-1) false.

(** What [AnalysisModal] shows. *)
Inductive ScoreDescription : Type :=
| ExcellentShot          (* "Excellent shot!" *)
| GoodPhoto              (* "Good photo with room for improvement" *)
| MakeBetter.            (* "Let's make this photo even better!" *)

Inductive ActionButtons : Type :=
| TakePhotoReanalyze     (* "Take Photo", "Re-analyze" *)
| AdjustShotTakeAnyway.  (* "Adjust Shot", "Take Anyway" *)

Definition scoreDescription (analysisResult : AnalysisResult) : ScoreDescription :=
  if number_ge (overallScore analysisResult) (JS.ofZ 8) then ExcellentShot
  else if number_ge (overallScore analysisResult) number_6_5 then GoodPhoto
  else MakeBetter.

Definition actionButtons (analysisResult : AnalysisResult) : ActionButtons :=
  if number_ge (overallScore analysisResult) (JS.ofZ 7) then TakePhotoReanalyze
  else AdjustShotTakeAnyway.

Record ModalView : Type := {
  description : ScoreDescription;
  feedbackTexts : string * string * string;
  strengthTags : option (list string);   (* [None]: the section is left out *)
  suggestionItems : list string;
  actions : ActionButtons
}.

(** Rendering reads [strengths.length] and calls [suggestions.map]: on
    [null] either is a [TypeError]. *)
Inductive renderError : Type := TypeError.

Definition AnalysisModal (analysisResult : AnalysisResult)
  : result renderError ModalView :=
  match strengths analysisResult with
  | None => Err TypeError
  | Some tags =>
      match suggestions (feedback analysisResult) with
      | None => Err TypeError
      | Some items =>
          Ok {| description := scoreDescription analysisResult;
                feedbackTexts :=
                  (composition (feedback analysisResult),
                   lighting (feedback analysisResult),
                   subject (feedback analysisResult));
                strengthTags :=
                  if (0 <? List.length tags)%nat then Some tags else None;
                suggestionItems := items;
                actions := actionButtons analysisResult |}
      end
  end.

(** The state of [CameraApp] that its photo and analysis handlers read
    and write ([useState]); the camera type, the grid, the flash mode and
    the settings are toggled on their own and are left out. *)
Record CameraState : Type := {
  lastPhoto : option string;
  showImageViewer : bool;
  capturedPhoto : option string;
  showMagic : bool;
  showAnalysisModal : bool;
  isAnalyzing : bool;
  analysisResult : option AnalysisResult
}.

Definition initialState : CameraState :=
  {| lastPhoto := None; showImageViewer := false; capturedPhoto := None;
     showMagic := false; showAnalysisModal := false; isAnalyzing := false;
     analysisResult := None |}.

Definition setLastPhoto (v : option string) (s : CameraState) : CameraState :=
  {| lastPhoto := v; showImageViewer := showImageViewer s;
     capturedPhoto := capturedPhoto s; showMagic := showMagic s;
     showAnalysisModal := showAnalysisModal s; isAnalyzing := isAnalyzing s;
     analysisResult := analysisResult s |}.

Definition setShowImageViewer (v : bool) (s : CameraState) : CameraState :=
  {| lastPhoto := lastPhoto s; showImageViewer := v;
     capturedPhoto := capturedPhoto s; showMagic := showMagic s;
     showAnalysisModal := showAnalysisModal s; isAnalyzing := isAnalyzing s;
     analysisResult := analysisResult s |}.

Definition setCapturedPhoto (v : option string) (s : CameraState) : CameraState :=
  {| lastPhoto := lastPhoto s; showImageViewer := showImageViewer s;
     capturedPhoto := v; showMagic := showMagic s;
     showAnalysisModal := showAnalysisModal s; isAnalyzing := isAnalyzing s;
     analysisResult := analysisResult s |}.

Definition setShowMagic (v : bool) (s : CameraState) : CameraState :=
  {| lastPhoto := lastPhoto s; showImageViewer := showImageViewer s;
     capturedPhoto := capturedPhoto s; showMagic := v;
     showAnalysisModal := showAnalysisModal s; isAnalyzing := isAnalyzing s;
     analysisResult := analysisResult s |}.

Definition setShowAnalysisModal (v : bool) (s : CameraState) : CameraState :=
  {| lastPhoto := lastPhoto s; showImageViewer := showImageViewer s;
     capturedPhoto := capturedPhoto s; showMagic := showMagic s;
     showAnalysisModal := v; isAnalyzing := isAnalyzing s;
     analysisResult := analysisResult s |}.

Definition setIsAnalyzing (v : bool) (s : CameraState) : CameraState :=
  {| lastPhoto := lastPhoto s; showImageViewer := showImageViewer s;
     capturedPhoto := capturedPhoto s; showMagic := showMagic s;
     showAnalysisModal := showAnalysisModal s; isAnalyzing := v;
     analysisResult := analysisResult s |}.

Definition setAnalysisResult (v : option AnalysisResult) (s : CameraState)
  : CameraState :=
  {| lastPhoto := lastPhoto s; showImageViewer := showImageViewer s;
     capturedPhoto := capturedPhoto s; showMagic := showMagic s;
     showAnalysisModal := showAnalysisModal s; isAnalyzing := isAnalyzing s;
     analysisResult := v |}.

(** A [string | null] used as a condition: [null] and the empty string
    are false. *)
Definition truthy (v : option string) : bool :=
  match v with
  | Some (String _ _) => true
  | _ => false
  end.

(** The handlers.  [frame] is the data URL of the canvas the video frame
    was drawn on, [None] when a ref or the 2d context is missing. *)
Definition takePicture (frame : option string) (s : CameraState) : CameraState :=
  match frame with
  | Some imageData => setShowImageViewer true (setCapturedPhoto (Some imageData) s)
  | None => s
  end.

Definition savePhoto (s : CameraState) : CameraState :=
  if truthy (capturedPhoto s) then
    setCapturedPhoto None
      (setShowImageViewer false (setLastPhoto (capturedPhoto s) s))
  else s.

Definition discardPhoto (s : CameraState) : CameraState :=
  setShowImageViewer false (setCapturedPhoto None s).

Definition closeAnalysisModal (s : CameraState) : CameraState :=
  setAnalysisResult None (setShowAnalysisModal false s).

Definition takePhotoFromAnalysis (frame : option string) (s : CameraState)
  : CameraState :=
  takePicture frame (closeAnalysisModal s).

(** [analyzeCurrentFrame] up to its [await], and its two continuations. *)
Definition analyzeCurrentFrame_begin (frame : option string) (s : CameraState)
  : CameraState :=
  match frame with
  | Some imageData =>
      if (String.length imageData <? 1000)%nat then s
      else setIsAnalyzing true (setShowMagic true s)
  | None => s
  end.

Definition analyzeCurrentFrame_resolved (result : AnalysisResult)
  (s : CameraState) : CameraState :=
  setIsAnalyzing false
    (setShowAnalysisModal true
       (setAnalysisResult (Some result) (setShowMagic false s))).

Definition analyzeCurrentFrame_rejected (s : CameraState) : CameraState :=
  setIsAnalyzing false (setShowMagic false s).

(** The gallery button and the close button of the viewer. *)
Definition galleryClick (s : CameraState) : CameraState :=
  if truthy (lastPhoto s) then setShowImageViewer true s else s.

Definition viewerClose (s : CameraState) : CameraState :=
  if truthy (capturedPhoto s) then discardPhoto s
  else setShowImageViewer false s.

(** What can happen to the component, in any order. *)
Inductive event : Type :=
| TakePicture (frame : option string)
| SavePhoto
| DiscardPhoto
| GalleryClick
| ViewerClose
| AnalyzeBegin (frame : option string)
| AnalyzeResolved (result : AnalysisResult)
| AnalyzeRejected
| CloseAnalysisModal
| TakePhotoFromAnalysis (frame : option string).

Definition step (s : CameraState) (e : event) : CameraState :=
  match e with
  | TakePicture frame => takePicture frame s
  | SavePhoto => savePhoto s
  | DiscardPhoto => discardPhoto s
  | GalleryClick => galleryClick s
  | ViewerClose => viewerClose s
  | AnalyzeBegin frame => analyzeCurrentFrame_begin frame s
  | AnalyzeResolved result => analyzeCurrentFrame_resolved result s
  | AnalyzeRejected => analyzeCurrentFrame_rejected s
  | CloseAnalysisModal => closeAnalysisModal s
  | TakePhotoFromAnalysis frame => takePhotoFromAnalysis frame s
  end.

Definition run (events : list event) : CameraState :=
  fold_left step events initialState.

(** The frame an event carries, if it captures one for the viewer. *)
Definition capturedFrame (e : event) : option string :=
  match e with
  | TakePicture frame | TakePhotoFromAnalysis frame => frame
  | _ => None
  end.

(** What the component renders: the three conditions of its JSX. *)
Definition viewerRendered (s : CameraState) : bool :=
  showImageViewer s && (truthy (capturedPhoto s) || truthy (lastPhoto s)).

Definition modalRendered (s : CameraState) : bool :=
  showAnalysisModal s &&
  match analysisResult s with Some _ => true | None => false end.

Definition loadingRendered (s : CameraState) : bool :=
  isAnalyzing s && showMagic s.

(** The flags of the component agree with what they guard. *)
Definition consistent (s : CameraState) : Prop :=
  (showAnalysisModal s = true -> analysisResult s <> None) /\
  (showImageViewer s = true ->
   capturedPhoto s <> None \/ truthy (lastPhoto s) = true) /\
  (lastPhoto s = None \/ truthy (lastPhoto s) = true) /\
  isAnalyzing s = showMagic s.

(** * Properties *)

(** ** Searching a string *)

Lemma get_absent_empty (c : ascii) : absent c EmptyString.
Proof. intros i; destruct i; discriminate. Qed.

Lemma Index_spec (s : string) (c : ascii) :
  (strings.Index s c = -1 /\ absent c s) \/
  (exists i, strings.Index s c = Z.of_nat i /\ first_at c s i /\
             (i < String.length s)%nat).
Proof.
  induction s as [|a r IH]; simpl.
  - left; split; [reflexivity | apply get_absent_empty].
  - destruct (Ascii.eqb_spec a c) as [->|Hne].
    + right; exists 0%nat; repeat split; simpl; try reflexivity; try lia.
    + destruct IH as [[E A]|[i [E [[G F] L]]]].
      * rewrite E; simpl. left; split; [reflexivity|].
        intros [|j]; simpl; [congruence | apply A].
      * rewrite E. destruct (Z.eqb_spec (Z.of_nat i) (-1)) as [|_]; [lia|].
        right; exists (S i); repeat split; simpl; try lia; try assumption.
        intros [|j] Hj; simpl; [congruence | apply F; lia].
Qed.

Lemma LastIndex_spec (s : string) (c : ascii) :
  (strings.LastIndex s c = -1 /\ absent c s) \/
  (exists i, strings.LastIndex s c = Z.of_nat i /\ last_at c s i /\
             (i < String.length s)%nat).
Proof.
  induction s as [|a r IH]; simpl.
  - left; split; [reflexivity | apply get_absent_empty].
  - destruct IH as [[E A]|[i [E [[G F] L]]]].
    + rewrite E; simpl. destruct (Ascii.eqb_spec a c) as [->|Hne].
      * right; exists 0%nat; repeat split; simpl; try reflexivity; try lia.
        intros [|j] Hj; simpl; [lia | apply A].
      * left; split; [reflexivity|].
        intros [|j]; simpl; [congruence | apply A].
    + rewrite E. destruct (Z.eqb_spec (Z.of_nat i) (-1)) as [|_]; [lia|].
      right; exists (S i); repeat split; simpl; try lia; try assumption.
      intros [|j] Hj; simpl; [lia | apply F; lia].
Qed.

Lemma first_at_unique c s i j : first_at c s i -> first_at c s j -> i = j.
Proof.
  intros [Gi Fi] [Gj Fj].
  destruct (Nat.lt_trichotomy i j) as [H|[H|H]]; [|assumption|].
  - exfalso; exact (Fj i H Gi).
  - exfalso; exact (Fi j H Gj).
Qed.

Lemma last_at_unique c s i j : last_at c s i -> last_at c s j -> i = j.
Proof.
  intros [Gi Fi] [Gj Fj].
  destruct (Nat.lt_trichotomy i j) as [H|[H|H]]; [|assumption|].
  - exfalso; exact (Fi j H Gj).
  - exfalso; exact (Fj i H Gi).
Qed.

Lemma Index_absent s c : absent c s -> strings.Index s c = -1.
Proof.
  intros A. destruct (Index_spec s c) as [[E _]|[i [_ [[G _] _]]]];
    [assumption | exfalso; exact (A i G)].
Qed.

Lemma LastIndex_absent s c : absent c s -> strings.LastIndex s c = -1.
Proof.
  intros A. destruct (LastIndex_spec s c) as [[E _]|[i [_ [[G _] _]]]];
    [assumption | exfalso; exact (A i G)].
Qed.

Lemma Index_first s c i :
  first_at c s i -> strings.Index s c = Z.of_nat i /\ (i < String.length s)%nat.
Proof.
  intros F. destruct (Index_spec s c) as [[_ A]|[j [E [Fj L]]]].
  - exfalso; exact (A i (proj1 F)).
  - rewrite (first_at_unique _ _ _ _ F Fj); auto.
Qed.

Lemma LastIndex_last s c i :
  last_at c s i ->
  strings.LastIndex s c = Z.of_nat i /\ (i < String.length s)%nat.
Proof.
  intros F. destruct (LastIndex_spec s c) as [[_ A]|[j [E [Fj L]]]].
  - exfalso; exact (A i (proj1 F)).
  - rewrite (last_at_unique _ _ _ _ F Fj); auto.
Qed.

(** ** Extraction *)

Lemma extractJSON_no_open s : absent "{" s -> extractJSON s = Err ErrNoJSON.
Proof.
  intros A. unfold extractJSON. rewrite (Index_absent _ _ A). reflexivity.
Qed.

Lemma extractJSON_no_close s : absent "}" s -> extractJSON s = Err ErrNoJSON.
Proof.
  intros A. unfold extractJSON. rewrite (LastIndex_absent _ _ A).
  destruct (Index_spec s "{") as [[E _]|[i [E _]]]; rewrite E.
  - reflexivity.
  - simpl. destruct (Z.eqb_spec (Z.of_nat i) (-1)); [lia|].
    destruct (Z.leb_spec 0 (Z.of_nat i)); [reflexivity | lia].
Qed.

Lemma extractJSON_close_before_open s i k :
  first_at "{" s i -> last_at "}" s k -> (k < i)%nat ->
  extractJSON s = Err ErrNoJSON.
Proof.
  intros F L H. unfold extractJSON.
  rewrite (proj1 (Index_first _ _ _ F)), (proj1 (LastIndex_last _ _ _ L)).
  destruct (Z.eqb_spec (Z.of_nat i) (-1)); [lia|].
  destruct (Z.leb_spec (Z.of_nat k + 1) (Z.of_nat i)); [reflexivity | lia].
Qed.

Lemma extractJSON_span s i k :
  first_at "{" s i -> last_at "}" s k -> (i < k)%nat ->
  extractJSON s = Ok (substring i (k - i + 1) s).
Proof.
  intros F L H. unfold extractJSON, strings.slice.
  destruct (Index_first _ _ _ F) as [-> _].
  destruct (LastIndex_last _ _ _ L) as [-> Lk].
  destruct (Z.eqb_spec (Z.of_nat i) (-1)); [lia|].
  destruct (Z.leb_spec (Z.of_nat k + 1) (Z.of_nat i)); [lia|]. simpl.
  destruct (Z.leb_spec 0 (Z.of_nat i)); [|lia].
  destruct (Z.leb_spec (Z.of_nat i) (Z.of_nat k + 1)); [|lia].
  destruct (Z.leb_spec (Z.of_nat k + 1) (Z.of_nat (String.length s))); [|lia].
  simpl. rewrite Nat2Z.id.
  replace (Z.to_nat (Z.of_nat k + 1 - Z.of_nat i)) with (k - i + 1)%nat by lia.
  reflexivity.
Qed.

(** The slice expression of the extraction is always within bounds. *)
Lemma extractJSON_never_panics s : extractJSON s <> Err ErrPanic.
Proof.
  destruct (Index_spec s "{") as [[_ A]|[i [_ [F _]]]].
  - now rewrite (extractJSON_no_open s A).
  - destruct (LastIndex_spec s "}") as [[_ A]|[k [_ [L _]]]].
    + now rewrite (extractJSON_no_close s A).
    + destruct (Nat.lt_trichotomy i k) as [H|[H|H]].
      * now rewrite (extractJSON_span s i k F L H).
      * exfalso. subst k. destruct F as [F _], L as [L _].
        rewrite F in L. discriminate.
      * now rewrite (extractJSON_close_before_open s i k F L H).
Qed.

(** C5. Extraction takes the text from the first opening brace through
    the last closing brace, inclusive, and hands exactly that text to the
    JSON parser; when a brace is absent, or the last closing brace comes
    before the first opening brace, it fails with "no valid JSON found in
    response" whatever the parser is.  The sample reply gives the text
    of its payload, a reply without braces fails. *)
Theorem extraction_first_to_last_brace :
  forall (parseJSON : string -> option json) (responseText : string),
    ((absent "{" responseText \/ absent "}" responseText \/
      (exists i k, first_at "{" responseText i /\
                   last_at "}" responseText k /\ (k < i)%nat)) ->
     extractJSON responseText = Err ErrNoJSON /\
     analysisOfText parseJSON responseText = Err ErrNoJSON)
    /\
    (forall i k,
        first_at "{" responseText i -> last_at "}" responseText k ->
        (i < k)%nat ->
        extractJSON responseText = Ok (substring i (k - i + 1) responseText) /\
        analysisOfText parseJSON responseText =
          analysisOfJSONText parseJSON (substring i (k - i + 1) responseText))
    /\ extractJSON sampleReply = Ok samplePayloadText
    /\ extractJSON "Looks like a lovely photo, nice work" = Err ErrNoJSON.
Proof.
  intros parseJSON s. repeat split.
  - destruct H as [A|[A|[i [k [F [L H]]]]]].
    + now apply extractJSON_no_open.
    + now apply extractJSON_no_close.
    + now apply (extractJSON_close_before_open s i k).
  - unfold analysisOfText.
    destruct H as [A|[A|[i [k [F [L H]]]]]].
    + now rewrite extractJSON_no_open.
    + now rewrite extractJSON_no_close.
    + now rewrite (extractJSON_close_before_open s i k).
  - now apply extractJSON_span.
  - unfold analysisOfText. now rewrite (extractJSON_span s i k).
Qed.

Lemma extraction_first_to_last_brace_witness :
  extractJSON sampleReply = Ok (substring 13 (24 - 13 + 1) sampleReply).
Proof.
  apply (proj1 (proj2 (extraction_first_to_last_brace (fun _ => None) sampleReply))
           13%nat 24%nat).
  - split; [reflexivity|].
    intros j Hj. do 13 (destruct j as [|j]; [discriminate|]). lia.
  - split; [reflexivity|].
    intros j Hj. do 25 (destruct j as [|j]; [lia|]).
    do 9 (destruct j as [|j]; [discriminate|]). destruct j; discriminate.
  - lia.
Defined.

(** ** Decoding a payload into [AnalysisResponse] *)

Lemma storeMembers_app {T} (store : T -> string * json -> option T) t l1 l2 :
  storeMembers store t (l1 ++ l2) =
  option_bind (storeMembers store t l1) (fun t' => storeMembers store t' l2).
Proof.
  revert t; induction l1 as [|m l1 IH]; intros t; simpl; [reflexivity|].
  destruct (store t m); [apply IH | reflexivity].
Qed.

Lemma storeMembers_cons {T} (store : T -> string * json -> option T) t m ms :
  storeMembers store t (m :: ms) =
  option_bind (store t m) (fun t' => storeMembers store t' ms).
Proof. reflexivity. Qed.

Lemma AnalysisResponse_eta (a : AnalysisResponse) :
  {| Score := Score a; Composition := Composition a; Lighting := Lighting a;
     Subject := Subject a; Strengths := Strengths a;
     Suggestions := Suggestions a |} = a.
Proof. destruct a; reflexivity. Qed.

(** A member that matches no field is skipped. *)
Lemma store_unknown_member a k v :
  isFieldKey k = false -> storeAnalysisMember a (k, v) = Some a.
Proof.
  unfold isFieldKey, storeAnalysisMember. intros H.
  repeat (apply orb_false_iff in H; destruct H as [H ?]).
  now rewrite H, H0, H1, H2, H3, H4.
Qed.

(** A member that is not a score member leaves the score as it is. *)
Lemma store_other_member_score a k v a' :
  isScoreKey k = false -> storeAnalysisMember a (k, v) = Some a' ->
  Score a' = Score a.
Proof.
  unfold isScoreKey, storeAnalysisMember. intros ->.
  destruct (jsondec.matchesField "composition" k);
    [destruct (jsondec.storeString (Composition a) v); simpl;
     intros E; inversion E; reflexivity|].
  destruct (jsondec.matchesField "lighting" k);
    [destruct (jsondec.storeString (Lighting a) v); simpl;
     intros E; inversion E; reflexivity|].
  destruct (jsondec.matchesField "subject" k);
    [destruct (jsondec.storeString (Subject a) v); simpl;
     intros E; inversion E; reflexivity|].
  destruct (jsondec.matchesField "strengths" k);
    [destruct (jsondec.storeStrings (Strengths a) v); simpl;
     intros E; inversion E; reflexivity|].
  destruct (jsondec.matchesField "suggestions" k);
    [destruct (jsondec.storeStrings (Suggestions a) v); simpl;
     intros E; inversion E; reflexivity|].
  intros E; inversion E; reflexivity.
Qed.

Lemma store_other_members_score ms :
  (forall k v, In (k, v) ms -> isScoreKey k = false) ->
  forall a a', storeMembers storeAnalysisMember a ms = Some a' ->
               Score a' = Score a.
Proof.
  induction ms as [|[k v] ms IH]; intros H a a'; cbn [storeMembers].
  - intros E; inversion E; reflexivity.
  - destruct (storeAnalysisMember a (k, v)) as [a1|] eqn:E1; [|discriminate].
    intros E. rewrite (IH (fun k' v' I => H k' v' (or_intror I)) _ _ E).
    apply (store_other_member_score a k v); [|assumption].
    apply (H k v); now left.
Qed.

(** A score member stores what [storeInt] makes of its value. *)
Lemma store_score_member a k v :
  isScoreKey k = true ->
  storeAnalysisMember a (k, v) =
  option_map
    (fun x => {| Score := x; Composition := Composition a;
                 Lighting := Lighting a; Subject := Subject a;
                 Strengths := Strengths a; Suggestions := Suggestions a |})
    (jsondec.storeInt (Score a) v).
Proof. unfold isScoreKey, storeAnalysisMember. now intros ->. Qed.

Lemma rejectedAsInt_storeInt old v :
  rejectedAsInt v = true -> jsondec.storeInt old v = None.
Proof.
  destruct v; simpl; try discriminate; try reflexivity.
  destruct (jsondec.ParseInt64 d); [discriminate | reflexivity].
Qed.

(** One rejected score member makes the whole decoding fail. *)
Lemma rejected_score_fails ms k v :
  In (k, v) ms -> isScoreKey k = true -> rejectedAsInt v = true ->
  forall a, storeMembers storeAnalysisMember a ms = None.
Proof.
  intros I K R. induction ms as [|m ms IH]; [destruct I|].
  intros a; cbn [storeMembers]. destruct I as [->|I].
  - now rewrite (store_score_member a k v K), (rejectedAsInt_storeInt _ _ R).
  - destruct (storeAnalysisMember a m); [now apply IH | reflexivity].
Qed.

(** Score members that are [null] are as good as absent. *)
Lemma null_score_members_skipped ms :
  (forall k v, In (k, v) ms -> isScoreKey k = true -> v = JNull) ->
  forall a,
    storeMembers storeAnalysisMember a ms =
    storeMembers storeAnalysisMember a
      (filter (fun m => negb (isScoreKey (fst m))) ms).
Proof.
  induction ms as [|[k v] ms IH]; intros H a; cbn [storeMembers filter fst];
    [reflexivity|].
  assert (H' : forall k' v', In (k', v') ms -> isScoreKey k' = true -> v' = JNull)
    by (intros k' v' I; apply H; now right).
  destruct (isScoreKey k) eqn:K; cbn [negb storeMembers].
  - rewrite (H k v (or_introl eq_refl) K), (store_score_member a k JNull K).
    cbn [jsondec.storeInt option_map]. rewrite AnalysisResponse_eta. now apply IH.
  - destruct (storeAnalysisMember a (k, v)); [now apply IH | reflexivity].
Qed.

(** The last score member decides the score. *)
Lemma last_score_member pre k d post a0 a :
  isScoreKey k = true ->
  (forall k' v', In (k', v') post -> isScoreKey k' = false) ->
  storeMembers storeAnalysisMember a0 (pre ++ (k, JNumber d) :: post) = Some a ->
  jsondec.ParseInt64 d = Some (Score a).
Proof.
  intros K P. rewrite storeMembers_app.
  destruct (storeMembers storeAnalysisMember a0 pre) as [a1|]; [|discriminate].
  cbn [option_bind storeMembers]. rewrite (store_score_member a1 k _ K).
  cbn [jsondec.storeInt].
  destruct (jsondec.ParseInt64 d) as [z|]; [|discriminate]. cbn [option_map].
  intros E. now rewrite (store_other_members_score post P _ _ E).
Qed.

Lemma validateScore_clamp a : Score (validateScore a) = clamp (Score a).
Proof. reflexivity. Qed.

Lemma clamp_range z : 1 <= clamp z <= 10.
Proof.
  unfold clamp. destruct (Z.ltb_spec z 1); [lia|].
  destruct (Z.gtb_spec z 10); lia.
Qed.

Lemma analysisOfPayload_ok payload a :
  analysisOfPayload payload = Ok a ->
  exists a0, decodeAnalysis payload = Some a0 /\ a = validateScore a0.
Proof.
  unfold analysisOfPayload. destruct (decodeAnalysis payload) as [a0|];
    [|discriminate].
  intros E; inversion E. now exists a0.
Qed.

(** ** Number literals *)

Lemma ParseInt64_integer d z :
  jsondec.ParseInt64 d = Some z ->
  exists i, d = Decimal.Decimal i Decimal.Nil /\ z = Z.of_int i /\
            - 2 ^ 63 <= z <= 2 ^ 63 - 1.
Proof.
  destruct d as [i f|i f e]; [|discriminate]. destruct f; try discriminate.
  unfold jsondec.ParseInt64.
  destruct (jsondec.hasDigits i); [|discriminate]. cbn [andb].
  destruct (Z.leb_spec (- 2 ^ 63) (Z.of_int i)); [|discriminate].
  destruct (Z.leb_spec (Z.of_int i) (2 ^ 63 - 1)); [|discriminate].
  intros E; inversion E. exists i. repeat split; lia.
Qed.

Lemma numberValue_integer i :
  jsondec.numberValue (Decimal.Decimal i Decimal.Nil) == inject_Z (Z.of_int i).
Proof.
  unfold jsondec.numberValue. rewrite DecimalFacts.app_int_nil_r.
  cbn [Decimal.nb_digits Z.of_nat Z.opp jsondec.pow10]. ring.
Qed.

Lemma hasDigits_norm i : jsondec.hasDigits (Decimal.norm i) = true.
Proof.
  destruct i as [d|d]; simpl.
  - generalize (DecimalFacts.unorm_nonnil d). now destruct (Decimal.unorm d).
  - now destruct (Decimal.nzhead d).
Qed.

Lemma ParseInt64_intLiteral z :
  - 2 ^ 63 <= z <= 2 ^ 63 - 1 ->
  jsondec.ParseInt64 (Decimal.Decimal (Z.to_int z) Decimal.Nil) = Some z.
Proof.
  intros R. unfold jsondec.ParseInt64.
  assert (N : Z.to_int z = Decimal.norm (Z.to_int z)).
  { rewrite <- (DecimalZ.to_of (Z.to_int z)). now rewrite DecimalZ.of_to. }
  rewrite N at 1. rewrite hasDigits_norm, DecimalZ.of_to. cbn [andb].
  destruct (Z.leb_spec (- 2 ^ 63) z); [|lia].
  destruct (Z.leb_spec z (2 ^ 63 - 1)); [reflexivity | lia].
Qed.

(** C1, as stated, fails: a payload without score member is decoded, the
    score is the zero value of the field and is validated to 1. *)
Lemma missing_score_is_not_rejected :
  ~ (forall payload,
        scoreMissing payload \/ scoreNonNumeric payload ->
        exists e, analysisOfPayload payload = Err e).
Proof.
  intros H. destruct (H (JObject [])) as [e E].
  - left. intros k v [].
  - discriminate.
Qed.

(** C1, amended. A score member whose value is a string, a boolean, an
    array, an object, or a number that is not an integer literal in the
    64-bit range, makes the decoding fail: no analysis is returned.  A
    payload whose score members are all [null], or that has none, is not
    rejected for it: it is decoded like the payload without these members
    and the analysis returned has score 1; the empty object is accepted. *)
Theorem score_member_validation :
  forall members : list (string * json),
    (forall k v,
        In (k, v) members -> isScoreKey k = true -> rejectedAsInt v = true ->
        analysisOfPayload (JObject members) = Err ErrParseJSON)
    /\
    ((forall k v, In (k, v) members -> isScoreKey k = true -> v = JNull) ->
     analysisOfPayload (JObject members) =
       analysisOfPayload
         (JObject (filter (fun m => negb (isScoreKey (fst m))) members)) /\
     forall a, analysisOfPayload (JObject members) = Ok a -> Score a = 1)
    /\ analysisOfPayload (JObject []) = Ok (validateScore zeroAnalysis).
Proof.
  intros members. repeat split.
  - intros k v I K R. unfold analysisOfPayload, decodeAnalysis, decodeStruct.
    now rewrite (rejected_score_fails members k v I K R).
  - unfold analysisOfPayload, decodeAnalysis, decodeStruct.
    now rewrite (null_score_members_skipped members H).
  - intros a E. destruct (analysisOfPayload_ok _ _ E) as [a0 [D ->]].
    unfold decodeAnalysis, decodeStruct in D.
    rewrite (null_score_members_skipped members H) in D.
    apply store_other_members_score in D.
    + rewrite validateScore_clamp, D. reflexivity.
    + intros k v I. apply filter_In in I. destruct I as [_ I]. simpl in I.
      now destruct (isScoreKey k).
Qed.

Lemma score_member_validation_witness :
  analysisOfPayload (JObject [("score", JString "high")]) = Err ErrParseJSON /\
  (forall a, analysisOfPayload (JObject [("Score", JNull)]) = Ok a -> Score a = 1).
Proof.
  split.
  - apply (proj1 (score_member_validation [("score", JString "high")])
             "score" (JString "high")); [now left | reflexivity | reflexivity].
  - apply (proj1 (proj2 (score_member_validation [("Score", JNull)]))).
    intros k v [E|[]] _. now inversion E.
Defined.

(** ** The fields of the response *)

Lemma storeElements_strings old l :
  jsondec.storeElements old (map JString l) = Some (l ++ skipn (List.length l) old)%list.
Proof.
  revert old; induction l as [|x l IH]; intros old; simpl; [reflexivity|].
  rewrite IH. destruct old; simpl; [|reflexivity].
  now destruct (List.length l).
Qed.

Lemma storeStrings_fresh l :
  exists s, jsondec.storeStrings None (JArray (map JString l)) = Some s /\
            jsondec.elements s = l.
Proof.
  destruct l as [|x l].
  - eexists; split; reflexivity.
  - unfold jsondec.storeStrings. cbn [map].
    change (JString x :: map JString l) with (map JString (x :: l)).
    rewrite storeElements_strings, length_map.
    eexists; split; [reflexivity|].
    cbn [jsondec.elements jsondec.len jsondec.backing].
    rewrite skipn_nil, app_nil_r. apply firstn_all.
Qed.

Lemma intent_is_no_field k :
  jsondec.matchesField "intent" k = true -> isFieldKey k = false.
Proof.
  unfold isFieldKey, jsondec.matchesField. intros H.
  apply String.eqb_eq in H. rewrite H. reflexivity.
Qed.

(** C3, as stated, fails: the response has no field that holds the intent
    of the payload; payloads that differ only in their intent give the
    same response. *)
Lemma intent_is_not_in_the_response :
  ~ (exists intent : AnalysisResponse -> string,
        forall s a,
          analysisOfPayload
            (JObject [("score", intLiteral 7); ("intent", JString s)]) = Ok a ->
          intent a = s).
Proof.
  intros [intent H].
  set (a := validateScore
              {| Score := 7; Composition := EmptyString;
                 Lighting := EmptyString; Subject := EmptyString;
                 Strengths := None; Suggestions := None |}).
  pose proof (H "a mood" a eq_refl) as H1.
  pose proof (H "a story" a eq_refl) as H2.
  rewrite H1 in H2. discriminate.
Qed.

(** ** The prefix of the image data *)

Lemma absent_cons c a r : absent c (String a r) -> a <> c /\ absent c r.
Proof.
  intros A. split.
  - intros ->. exact (A 0%nat eq_refl).
  - intros i. exact (A (S i)).
Qed.

Lemma Split_absent s c : absent c s -> strings.Split s c = [s].
Proof.
  induction s as [|a r IH]; intros A; simpl; [reflexivity|].
  destruct (absent_cons _ _ _ A) as [N A'].
  destruct (Ascii.eqb_spec a c); [contradiction|]. now rewrite (IH A').
Qed.

Lemma Split_first meta payload c :
  absent c meta ->
  strings.Split (meta ++ String c payload) c = meta :: strings.Split payload c.
Proof.
  induction meta as [|a r IH]; intros A; simpl.
  - now rewrite Ascii.eqb_refl.
  - destruct (absent_cons _ _ _ A) as [N A'].
    destruct (Ascii.eqb_spec a c); [contradiction|]. now rewrite (IH A').
Qed.

Lemma Contains_absent s c : absent c s -> strings.Contains s c = false.
Proof. intros A. unfold strings.Contains. now rewrite (Index_absent _ _ A). Qed.

Lemma Contains_present meta payload c :
  strings.Contains (meta ++ String c payload) c = true.
Proof.
  unfold strings.Contains.
  destruct (Index_spec (meta ++ String c payload) c) as [[_ A]|[i [-> _]]].
  - exfalso. apply (A (String.length meta)).
    clear A. induction meta; simpl; [reflexivity | assumption].
  - apply Z.leb_le. lia.
Qed.

(** With a single separator the handler does what the specification says:
    the prefix is dropped and the payload is kept whole. *)
Lemma cleanImageData_single_separator meta payload :
  absent "," meta -> absent "," payload ->
  cleanImageData (meta ++ String "," payload) = payload /\
  cleanImageData payload = payload.
Proof.
  intros Am Ap. unfold cleanImageData. split.
  - rewrite Contains_present, (Split_first _ _ _ Am), (Split_absent _ _ Ap).
    reflexivity.
  - now rewrite (Contains_absent _ _ Ap).
Qed.

(** C2. Evaluation at an image with two separators: the handler keeps the
    text between the first and the second separator, ["QUJD"], and accepts
    it, where everything after the first separator is ["QUJD,REVG"], which
    is not base64; and the bytes are not those of the bare payload
    ["QUJD,REVG"], for which the handler keeps ["REVG"]. *)
Theorem cleanImageData_second_separator :
  cleanImageData "meta,QUJD,REVG" = "QUJD" /\
  payloadAfterFirstSeparator "meta,QUJD,REVG" = "QUJD,REVG" /\
  base64.DecodeString (cleanImageData "meta,QUJD,REVG")
    = Some [Byte.x41; Byte.x42; Byte.x43] /\
  base64.DecodeString (payloadAfterFirstSeparator "meta,QUJD,REVG") = None /\
  cleanImageData "QUJD,REVG" = "REVG" /\
  base64.DecodeString (cleanImageData "QUJD,REVG")
    = Some [Byte.x44; Byte.x45; Byte.x46].
Proof. repeat split. Qed.

(** ** The handler *)

Lemma decodeRequest_no_image members :
  (forall k v, In (k, v) members -> jsondec.matchesField "image" k = false) ->
  forall r, storeMembers storeRequestMember r members = Some r.
Proof.
  induction members as [|[k v] ms IH]; intros H r; [reflexivity|].
  rewrite storeMembers_cons. unfold storeRequestMember at 1.
  rewrite (H k v (or_introl eq_refl)). cbn [option_bind].
  apply IH. intros k' v' I. apply (H k' v'). now right.
Qed.

(** What the handler does reject. A request whose body does not bind, whose image field is absent
    or empty, or whose image data, once the prefix is removed, is not
    well-formed base64, is answered with status 400, and Converse is not
    called. *)
Theorem invalid_image_rejected_before_inference :
  forall parseJSON readBody Converse requestBody,
    (option_bind (readBody requestBody) decodeRequest = None \/
     (exists members,
         readBody requestBody = Some (JObject members) /\
         forall k v, In (k, v) members ->
                     jsondec.matchesField "image" k = false) \/
     (exists analysisReq,
         option_bind (readBody requestBody) decodeRequest = Some analysisReq /\
         (Image analysisReq = EmptyString \/
          base64.DecodeString (cleanImageData (Image analysisReq)) = None))) ->
    status (fst (analyzeImageHandler parseJSON readBody Converse requestBody))
      = StatusBadRequest /\
    snd (analyzeImageHandler parseJSON readBody Converse requestBody) = [].
Proof.
  intros parseJSON readBody Converse requestBody H.
  unfold analyzeImageHandler.
  destruct H as [E|[[members [E A]]|[analysisReq [E [I|D]]]]].
  - rewrite E. split; reflexivity.
  - rewrite E. cbn [option_bind]. unfold decodeRequest, decodeStruct.
    rewrite (decodeRequest_no_image members A). split; reflexivity.
  - rewrite E, I. split; reflexivity.
  - rewrite E, D.
    destruct (String.eqb (Image analysisReq) EmptyString); split; reflexivity.
Qed.

Lemma invalid_image_rejected_before_inference_witness :
  status (fst (analyzeImageHandler
                 (fun _ => None)
                 (fun _ => Some (JObject [("image", JString "data:,%%%")]))
                 (fun _ => Err tt) "request")) = StatusBadRequest /\
  snd (analyzeImageHandler
         (fun _ => None)
         (fun _ => Some (JObject [("image", JString "data:,%%%")]))
         (fun _ => Err tt) "request") = [].
Proof.
  apply invalid_image_rejected_before_inference.
  right; right. exists {| Image := "data:,%%%" |}.
  split; [reflexivity | right; reflexivity].
Defined.

(** C9. An image field that is a comma-free prefix followed by the
    separator, such as ["meta,"], is not empty, its payload is the empty
    string, which is valid base64, and the handler calls Converse with no
    image bytes: the answer is not the status 400. *)
Theorem trailing_separator_reaches_inference :
  forall parseJSON readBody Converse requestBody meta,
    absent "," meta ->
    readBody requestBody
      = Some (JObject [("image", JString (meta ++ ","))]) ->
    (meta ++ "," <> EmptyString)%string /\
    cleanImageData (meta ++ ",") = EmptyString /\
    base64.DecodeString (cleanImageData (meta ++ ",")) = Some [] /\
    snd (analyzeImageHandler parseJSON readBody Converse requestBody) = [[]] /\
    status (fst (analyzeImageHandler parseJSON readBody Converse requestBody))
      <> StatusBadRequest.
Proof.
  intros parseJSON readBody Converse requestBody meta A E.
  assert (C : cleanImageData (meta ++ ",") = EmptyString).
  { apply (cleanImageData_single_separator meta EmptyString A).
    apply get_absent_empty. }
  assert (N : String.eqb (meta ++ ",") EmptyString = false).
  { destruct meta; reflexivity. }
  split; [intros F; rewrite F in N; discriminate|].
  split; [assumption|]. rewrite C. split; [reflexivity|].
  unfold analyzeImageHandler. rewrite E. cbn [option_bind].
  change (decodeRequest (JObject [("image", JString (meta ++ ","))]))
    with (Some {| Image := (meta ++ ",")%string |}).
  cbn [Image]. rewrite N, C.
  change (base64.DecodeString EmptyString) with (Some (@nil Byte.byte)).
  cbv beta iota. unfold analyzeImageWithBedrock.
  change (base64.DecodeString EmptyString) with (Some (@nil Byte.byte)).
  cbv beta iota.
  destruct (analysisOfReply parseJSON (Converse [])); split;
    try reflexivity; discriminate.
Qed.

Lemma trailing_separator_reaches_inference_witness :
  snd (analyzeImageHandler
         (fun _ => None)
         (fun _ => Some (JObject [("image", JString ("meta" ++ ","))]))
         (fun _ => Err tt) "request") = [[]].
Proof.
  apply (trailing_separator_reaches_inference
           (fun _ => None)
           (fun _ => Some (JObject [("image", JString ("meta" ++ ","))]))
           (fun _ => Err tt) "request" "meta").
  - intros j. do 4 (destruct j as [|j]; [discriminate|]). destruct j; discriminate.
  - reflexivity.
Defined.

(** ** Binary64 arithmetic

    The number of binary digits of a mantissa. *)
Lemma digits2_pos_size p : digits2_pos p = Pos.size p.
Proof. induction p; simpl; congruence. Qed.

Lemma digits2_bounds p :
  2 ^ (Z.pos (digits2_pos p) - 1) <= Z.pos p < 2 ^ Z.pos (digits2_pos p).
Proof.
  rewrite digits2_pos_size. split.
  - pose proof (Pos.size_le p) as H.
    assert (E : 2 ^ Z.pos (Pos.size p) = 2 * 2 ^ (Z.pos (Pos.size p) - 1)).
    { rewrite <- Z.pow_succ_r by lia. f_equal. lia. }
    assert (H' : (2 ^ Z.pos (Pos.size p) <= Z.pos p~0)).
    { rewrite <- Pos2Z.inj_pow. apply Pos2Z.pos_le_pos. exact H. }
    lia.
  - pose proof (Pos.size_gt p) as H.
    rewrite <- Pos2Z.inj_pow. apply Pos2Z.pos_lt_pos. exact H.
Qed.

Lemma digits2_unique p d :
  2 ^ (d - 1) <= Z.pos p < 2 ^ d -> Z.pos (digits2_pos p) = d.
Proof.
  intros [L U]. pose proof (digits2_bounds p) as [L' U'].
  set (d' := Z.pos (digits2_pos p)) in *.
  assert (0 < d') by (unfold d'; lia).
  destruct (Z.lt_trichotomy d' d) as [H1|[H1|H1]]; [|assumption|].
  - exfalso. assert (2 ^ d' <= 2 ^ (d - 1)) by (apply Z.pow_le_mono_r; lia). lia.
  - exfalso. destruct (Z.le_gt_cases 0 d) as [Hd|Hd].
    + assert (2 ^ d <= 2 ^ (d' - 1)) by (apply Z.pow_le_mono_r; lia). lia.
    + rewrite (Z.pow_neg_r 2 d) in U by lia. lia.
Qed.

(** Iterated shifts. *)
Lemma iter_pos_nat {A} (f : A -> A) p x :
  iter_pos f p x = Nat.iter (Pos.to_nat p) f x.
Proof.
  revert x; induction p as [p IH|p IH|]; intros x; cbn [iter_pos].
  - rewrite !IH, Pos2Nat.inj_xI, Nat.iter_succ_r.
    replace (2 * Pos.to_nat p)%nat with (Pos.to_nat p + Pos.to_nat p)%nat by lia.
    now rewrite Nat.iter_add.
  - rewrite !IH, Pos2Nat.inj_xO.
    replace (2 * Pos.to_nat p)%nat with (Pos.to_nat p + Pos.to_nat p)%nat by lia.
    now rewrite Nat.iter_add.
  - reflexivity.
Qed.

(** [located] respects the equality of rationals, and a shift by one
    position locates the half of the value. *)
Lemma located_proper x y mrs : (x == y)%Q -> located x mrs -> located y mrs.
Proof.
  intros E [H0 H]. split; [assumption|].
  destruct (shr_r mrs), (shr_s mrs); rewrite <- E; assumption.
Qed.

Lemma inject_Z_xO p : (inject_Z (Z.pos p~0) == 2 * inject_Z (Z.pos p))%Q.
Proof. unfold Qeq; simpl; lia. Qed.

Lemma inject_Z_xI p : (inject_Z (Z.pos p~1) == 2 * inject_Z (Z.pos p) + 1)%Q.
Proof. unfold Qeq; simpl; lia. Qed.

Lemma located_shr_1 x mrs :
  located x mrs -> located (x * (1#2)) (shr_1 mrs).
Proof.
  destruct mrs as [m r s]. unfold located; cbn [shr_m shr_r shr_s].
  intros [H0 H].
  destruct m as [|[p|p|]|p]; try lia; cbn [shr_1 shr_m shr_r shr_s];
    (split; [lia|]);
    destruct r, s; cbn [orb];
    try rewrite inject_Z_xO in H; try rewrite inject_Z_xI in H;
    change (inject_Z 0) with 0%Q in *;
    change (inject_Z 1) with 1%Q in *; lra.
Qed.

Lemma located_iter x mrs n :
  located x mrs ->
  located (x * / inject_Z (2 ^ Z.of_nat n)) (Nat.iter n shr_1 mrs).
Proof.
  intros H. induction n as [|n IH].
  - cbn [Nat.iter]. apply (located_proper x); [|assumption].
    change (inject_Z (2 ^ Z.of_nat 0)) with 1%Q. field.
  - cbn [Nat.iter]. apply located_shr_1 in IH.
    eapply located_proper; [|exact IH].
    rewrite Nat2Z.inj_succ, Z.pow_succ_r by lia.
    rewrite inject_Z_mult. change (inject_Z 2) with 2%Q.
    assert (P : ~ (inject_Z (2 ^ Z.of_nat n) == 0)%Q).
    { assert (0 < 2 ^ Z.of_nat n) by (apply Z.pow_pos_nonneg; lia).
      unfold Qeq; simpl; lia. }
    field. exact P.
Qed.

Lemma shr_m_shr_1 mrs : 0 <= shr_m mrs -> shr_m (shr_1 mrs) = shr_m mrs / 2.
Proof.
  destruct mrs as [m r s]; cbn [shr_m]. intros H.
  destruct m as [|[p|p|]|p]; cbn [shr_1 shr_m]; try reflexivity; try lia.
  - apply (Z.div_unique _ _ _ 1); lia.
  - apply (Z.div_unique _ _ _ 0); lia.
Qed.

Lemma shr_m_iter mrs n :
  0 <= shr_m mrs ->
  shr_m (Nat.iter n shr_1 mrs) = shr_m mrs / 2 ^ Z.of_nat n.
Proof.
  intros H. induction n as [|n IH].
  - cbn [Nat.iter]. change (2 ^ Z.of_nat 0) with 1. now rewrite Z.div_1_r.
  - rewrite Nat.iter_succ, shr_m_shr_1.
    + rewrite IH, Nat2Z.inj_succ, Z.pow_succ_r by lia.
      rewrite Z.div_div by (try lia; apply Z.pow_pos_nonneg; lia).
      f_equal. lia.
    + rewrite IH. apply Z.div_pos; [lia | apply Z.pow_pos_nonneg; lia].
Qed.

(** [shr] by [n >= 0] positions. *)
Lemma shr_spec x mrs e n :
  0 <= n -> located x mrs ->
  snd (shr mrs e n) = e + n /\
  shr_m (fst (shr mrs e n)) = shr_m mrs / 2 ^ n /\
  located (x * / inject_Z (2 ^ n)) (fst (shr mrs e n)).
Proof.
  intros Hn H. destruct n as [|p|p]; try lia; cbn [shr fst snd].
  - split; [lia|]. split; [now rewrite Z.div_1_r|].
    apply (located_proper x); [|assumption].
    change (inject_Z (2^0)) with 1%Q. field.
  - rewrite iter_pos_nat. split; [reflexivity|]. split.
    + rewrite shr_m_iter by apply H. now rewrite positive_nat_Z.
    + apply (located_iter x mrs (Pos.to_nat p)) in H.
      now rewrite positive_nat_Z in H.
Qed.

(** The exponent of the format, in the normal range. *)
Lemma fexp_normal x : -1074 <= x - 53 -> fexp 53 1024 x = x - 53.
Proof. unfold fexp, emin. lia. Qed.

Lemma shr_m_of_loc m l : shr_m (shr_record_of_loc m l) = m.
Proof. destruct l as [|[]]; reflexivity. Qed.

Lemma Zdigits2_pos_bounds m :
  0 < m -> 2 ^ (Zdigits2 m - 1) <= m < 2 ^ Zdigits2 m.
Proof. destruct m; try lia. intros _. apply digits2_bounds. Qed.

Lemma Zdigits2_unique m d :
  2 ^ (d - 1) <= m < 2 ^ d -> 0 < m -> Zdigits2 m = d.
Proof. destruct m; try lia. intros H _. now apply digits2_unique. Qed.

(** Rounding to nearest, ties to even, of a located value. *)
Lemma round_nearest_even_spec x mrs :
  located x mrs ->
  let m2 := round_nearest_even (shr_m mrs) (loc_of_shr_record mrs) in
  (m2 = shr_m mrs \/ m2 = shr_m mrs + 1) /\
  (inject_Z m2 - (1#2) <= x <= inject_Z m2 + (1#2))%Q.
Proof.
  destruct mrs as [m r s]. unfold located; cbn [shr_m shr_r shr_s].
  intros [H0 H]. destruct r, s; cbn [loc_of_shr_record round_nearest_even].
  - split; [now right|]. rewrite inject_Z_plus. change (inject_Z 1) with 1%Q. lra.
  - destruct (Z.even m).
    + split; [now left|]. lra.
    + split; [now right|]. rewrite inject_Z_plus. change (inject_Z 1) with 1%Q. lra.
  - split; [now left|]. lra.
  - split; [now left|]. lra.
Qed.

(** Powers of two. *)
Lemma Qpower2_pos e : (0 < 2 ^ e)%Q.
Proof. apply Qpower_0_lt. reflexivity. Qed.

Lemma Qpower2_add a b : (2 ^ (a + b) == 2 ^ a * 2 ^ b)%Q.
Proof. apply Qpower_plus. discriminate. Qed.

Lemma Qpower2_Z n : 0 <= n -> (inject_Z (2 ^ n) == 2 ^ n)%Q.
Proof. intros H. now rewrite Zpower_Qpower. Qed.

Lemma located_lower x mrs : located x mrs -> (inject_Z (shr_m mrs) <= x)%Q.
Proof.
  intros [_ H]. destruct (shr_r mrs), (shr_s mrs); lra.
Qed.

(** An error of half a unit in the last of 53 bits is a relative error of
    at most [u53]. *)
Lemma rel_err_of_half (x1 m2 P : Q) :
  (inject_Z (2 ^ 52) <= x1)%Q -> (m2 - (1#2) <= x1 <= m2 + (1#2))%Q ->
  (0 < P)%Q ->
  ((1 - u53) * (x1 * P) <= m2 * P <= (1 + u53) * (x1 * P))%Q.
Proof.
  intros H1 H2 HP.
  assert (A : ((1 - u53) * x1 <= m2 <= (1 + u53) * x1)%Q).
  { unfold u53. change (inject_Z (2 ^ 52)) with (4503599627370496 # 1)%Q in H1.
    lra. }
  split; nra.
Qed.

(** The rounding at the end of every operation, [binary_round_aux]: for a
    mantissa [m] of at least 53 bits that locates [x'], and an exponent
    in the normal range, the result is a positive normal number within
    the relative error [u53] of [x' * 2^e]. *)
Lemma binary_round_aux_normal x' m e l :
  2 ^ 52 <= m ->
  located x' (shr_record_of_loc m l) ->
  -1074 <= Zdigits2 m + e - 53 -> Zdigits2 m + e <= 1023 ->
  exists m3 e3,
    binary_round_aux 53 1024 false m e l = S754_finite false m3 e3 /\
    Z.pos (digits2_pos m3) = 53 /\ -1074 <= e3 <= 971 /\
    ((1 - u53) * (x' * 2 ^ e) <= inject_Z (Z.pos m3) * 2 ^ e3
     <= (1 + u53) * (x' * 2 ^ e))%Q.
Proof.
  intros Hm Hloc Hlo Hhi.
  assert (Hm0 : 0 < m) by (assert (0 < 2 ^ 52) by reflexivity; lia).
  pose proof (Zdigits2_pos_bounds m Hm0) as [Dl Du].
  set (d := Zdigits2 m) in *.
  assert (Hd : 53 <= d).
  { destruct (Z.lt_ge_cases d 53) as [C|C]; [|assumption].
    assert (2 ^ d <= 2 ^ 52) by (apply Z.pow_le_mono_r; lia). lia. }
  unfold binary_round_aux, shr_fexp. fold d.
  rewrite (fexp_normal (d + e)) by lia.
  replace (d + e - 53 - e) with (d - 53) by lia.
  destruct (shr_spec x' (shr_record_of_loc m l) e (d - 53) ltac:(lia) Hloc)
    as (Es & Em & Hl).
  destruct (shr (shr_record_of_loc m l) e (d - 53)) as [mrs1 e1].
  cbn [fst snd] in Es, Em, Hl. subst e1. rewrite shr_m_of_loc in Em.
  set (n1 := d - 53) in *. set (x1 := (x' * / inject_Z (2 ^ n1))%Q) in *.
  assert (P1 : 0 < 2 ^ n1) by (apply Z.pow_pos_nonneg; lia).
  assert (Hd2 : 2 ^ d = 2 ^ n1 * 2 ^ 53).
  { rewrite <- Z.pow_add_r by lia. f_equal. lia. }
  assert (Hd1 : 2 ^ (d - 1) = 2 ^ n1 * 2 ^ 52).
  { rewrite <- Z.pow_add_r by lia. f_equal. lia. }
  assert (M1 : 2 ^ 52 <= shr_m mrs1 < 2 ^ 53).
  { rewrite Em. split.
    - apply Z.div_le_lower_bound; lia.
    - apply Z.div_lt_upper_bound; lia. }
  destruct (round_nearest_even_spec x1 mrs1 Hl) as [Hm2 Hx].
  pose proof (located_lower _ _ Hl) as Hx1.
  set (m2 := round_nearest_even (shr_m mrs1) (loc_of_shr_record mrs1)) in *.
  assert (X1 : (inject_Z (2 ^ 52) <= x1)%Q).
  { eapply Qle_trans; [|exact Hx1]. rewrite <- Zle_Qle. lia. }
  assert (XE : (x' * 2 ^ e == x1 * 2 ^ (e + n1))%Q).
  { unfold x1. rewrite Qpower2_add, (Qpower2_Z n1) by lia.
    field. apply Qnot_eq_sym, Qlt_not_eq, Qpower2_pos. }
  assert (C : m2 < 2 ^ 53 \/ m2 = 2 ^ 53) by lia.
  destruct C as [C|C].
  - assert (D2 : Zdigits2 m2 = 53).
    { apply Zdigits2_unique; [|lia]. change (2 ^ (53 - 1)) with (2 ^ 52). lia. }
    rewrite D2, (fexp_normal (53 + (e + n1))) by lia.
    replace (53 + (e + n1) - 53 - (e + n1)) with 0 by lia.
    cbn [shr shr_record_of_loc shr_m].
    destruct m2 as [|p2|p2] eqn:E2; try lia.
    exists p2, (e + n1).
    destruct (Z.leb_spec (e + n1) (1024 - 53)) as [_|F]; [|unfold n1 in F; lia].
    split; [reflexivity|]. split; [exact D2|]. split; [unfold n1; lia|].
    rewrite XE. apply rel_err_of_half; [assumption | assumption | apply Qpower2_pos].
  - assert (D2 : Zdigits2 m2 = 54) by (rewrite C; reflexivity).
    rewrite D2, (fexp_normal (54 + (e + n1))) by lia.
    replace (54 + (e + n1) - 53 - (e + n1)) with 1 by lia.
    rewrite C. cbn [shr shr_record_of_loc iter_pos shr_1 shr_m].
    change (2 ^ 53) with 9007199254740992. cbn [shr_1 shr_m].
    exists 4503599627370496%positive, (e + n1 + 1).
    destruct (Z.leb_spec (e + n1 + 1) (1024 - 53)) as [_|F]; [|unfold n1 in F; lia].
    split; [reflexivity|]. split; [reflexivity|]. split; [unfold n1; lia|].
    rewrite XE.
    assert (V : (inject_Z 4503599627370496 * 2 ^ (e + n1 + 1)
                 == inject_Z m2 * 2 ^ (e + n1))%Q).
    { rewrite C, Qpower2_add. change (2 ^ 1)%Q with 2%Q.
      change (inject_Z (2 ^ 53)) with (2 * inject_Z 4503599627370496)%Q. ring. }
    rewrite V. apply rel_err_of_half; [assumption | assumption | apply Qpower2_pos].
Qed.

(** Positive normal numbers: bounds on the value and on the exponent. *)
Lemma Qpower2_le_mono a b : a <= b -> (2 ^ a <= 2 ^ b)%Q.
Proof.
  intros H. replace b with (a + (b - a)) by lia. rewrite Qpower2_add.
  assert (1 <= 2 ^ (b - a))%Q by (apply Qpower_1_le; [lra | lia]).
  pose proof (Qpower2_pos a). nra.
Qed.

Lemma Qpower2_lt_inv a b : (2 ^ a < 2 ^ b)%Q -> a < b.
Proof.
  intros H. destruct (Z.lt_ge_cases a b) as [C|C]; [assumption|].
  pose proof (Qpower2_le_mono b a C). lra.
Qed.

Lemma fin53_bounds m e :
  Z.pos (digits2_pos m) = 53 ->
  (2 ^ (52 + e) <= inject_Z (Z.pos m) * 2 ^ e < 2 ^ (53 + e))%Q.
Proof.
  intros D. pose proof (digits2_bounds m) as [L U]. rewrite D in L, U.
  change (2 ^ (53 - 1)) with (2 ^ 52) in L.
  rewrite !Qpower2_add. pose proof (Qpower2_pos e).
  rewrite <- (Qpower2_Z 52), <- (Qpower2_Z 53) by lia.
  rewrite Zle_Qle in L. rewrite Zlt_Qlt in U. split; nra.
Qed.

Lemma fin53_value_pos x : fin53 x -> (0 < JS.value x)%Q.
Proof.
  destruct x as [| | |[] m e]; try contradiction. intros [D _]. cbn [JS.value].
  pose proof (fin53_bounds m e D). pose proof (Qpower2_pos (52 + e)). lra.
Qed.

(** The exponent of a number from bounds on its value. *)
Lemma fin53_exponent m e a b :
  Z.pos (digits2_pos m) = 53 ->
  (2 ^ a <= inject_Z (Z.pos m) * 2 ^ e <= 2 ^ b)%Q ->
  a - 53 < e <= b - 52.
Proof.
  intros D [L U]. pose proof (fin53_bounds m e D) as [L' U']. split.
  - assert (2 ^ a < 2 ^ (53 + e))%Q by lra.
    apply Qpower2_lt_inv in H. lia.
  - assert (2 ^ (52 + e) <= 2 ^ b)%Q by lra.
    destruct (Z.lt_ge_cases b (52 + e)) as [C|C]; [|lia].
    assert (2 ^ (b + 1) <= 2 ^ (52 + e))%Q by (apply Qpower2_le_mono; lia).
    rewrite Qpower2_add in H0. change (2 ^ 1)%Q with 2%Q in H0.
    pose proof (Qpower2_pos b). lra.
Qed.

(** A mantissa of 53 bits with an exponent of the format is left as it
    is. *)
Lemma binary_round_aux_canonical m e :
  Z.pos (digits2_pos m) = 53 -> -1074 <= e <= 971 ->
  binary_round_aux 53 1024 false (Z.pos m) e loc_Exact = S754_finite false m e.
Proof.
  intros D He. unfold binary_round_aux, shr_fexp. cbn [Zdigits2].
  rewrite D, (fexp_normal (53 + e)) by lia.
  replace (53 + e - 53 - e) with 0 by lia.
  cbn [shr shr_record_of_loc shr_m loc_of_shr_record round_nearest_even Zdigits2].
  rewrite D, (fexp_normal (53 + e)) by lia.
  replace (53 + e - 53 - e) with 0 by lia.
  cbn [shr shr_record_of_loc shr_m].
  destruct (Z.leb_spec e (1024 - 53)); [reflexivity | lia].
Qed.

(** Multiplication: the exact product of the mantissas, rounded. *)
Lemma SFmul_spec x y :
  fin53 x -> fin53 y ->
  (2 ^ (-100) <= JS.value x <= 2 ^ 100)%Q ->
  (2 ^ (-100) <= JS.value y <= 2 ^ 100)%Q ->
  fin53 (SFmul 53 1024 x y) /\
  ((1 - u53) * (JS.value x * JS.value y) <= JS.value (SFmul 53 1024 x y)
   <= (1 + u53) * (JS.value x * JS.value y))%Q.
Proof.
  destruct x as [| | |[] mx ex]; try contradiction.
  destruct y as [| | |[] my ey]; try contradiction.
  intros [Dx Ex] [Dy Ey] Rx Ry. cbn [JS.value] in Rx, Ry.
  pose proof (fin53_exponent mx ex _ _ Dx Rx) as Bx.
  pose proof (fin53_exponent my ey _ _ Dy Ry) as By.
  cbn [SFmul xorb].
  pose proof (digits2_bounds mx) as [Lx Ux]. rewrite Dx in Lx, Ux.
  pose proof (digits2_bounds my) as [Ly Uy]. rewrite Dy in Ly, Uy.
  change (2 ^ (53 - 1)) with (2 ^ 52) in Lx, Ly.
  assert (P : 2 ^ 104 <= Z.pos (mx * my) < 2 ^ 106).
  { rewrite Pos2Z.inj_mul.
    change (2 ^ 104) with (2 ^ 52 * 2 ^ 52). change (2 ^ 106) with (2 ^ 53 * 2 ^ 53).
    split; [apply Z.mul_le_mono_nonneg; lia | apply Z.mul_lt_mono_nonneg; lia]. }
  assert (Dm : 105 <= Zdigits2 (Z.pos (mx * my)) <= 106).
  { pose proof (Zdigits2_pos_bounds (Z.pos (mx * my)) ltac:(lia)) as [L U].
    set (d := Zdigits2 (Z.pos (mx * my))) in *. split.
    - destruct (Z.lt_ge_cases d 105) as [C|C]; [|lia].
      assert (2 ^ d <= 2 ^ 104).
      { destruct (Z.lt_ge_cases d 0); [rewrite Z.pow_neg_r by lia; lia|].
        apply Z.pow_le_mono_r; lia. } lia.
    - destruct (Z.lt_ge_cases 106 d) as [C|C]; [|lia].
      assert (2 ^ 106 <= 2 ^ (d - 1)) by (apply Z.pow_le_mono_r; lia). lia. }
  destruct (binary_round_aux_normal (inject_Z (Z.pos (mx * my)))
              (Z.pos (mx * my)) (ex + ey) loc_Exact) as (m3 & e3 & E & D3 & E3 & V).
  - assert (2 ^ 52 <= 2 ^ 104) by (apply Z.pow_le_mono_r; lia). lia.
  - split; cbn [shr_record_of_loc shr_m shr_r shr_s]; [lia | reflexivity].
  - lia.
  - lia.
  - rewrite E. split; [split; assumption|]. cbn [JS.value].
    assert (VE : (inject_Z (Z.pos mx) * 2 ^ ex * (inject_Z (Z.pos my) * 2 ^ ey)
                  == inject_Z (Z.pos (mx * my)) * 2 ^ (ex + ey))%Q).
    { rewrite Pos2Z.inj_mul, inject_Z_mult, Qpower2_add. ring. }
    rewrite VE. exact V.
Qed.

(** The location of a quotient from the remainder. *)
Lemma new_location_spec q r my :
  0 <= q -> 0 <= r < my ->
  located (inject_Z q + inject_Z r / inject_Z my)
          (shr_record_of_loc q (new_location my r)).
Proof.
  intros Hq Hr.
  assert (Hy : (0 < inject_Z my)%Q) by (rewrite <- (Zlt_Qlt 0); lia).
  set (t := (inject_Z r / inject_Z my)%Q).
  assert (T0 : r = 0 -> (t == 0)%Q).
  { intros ->. unfold t. field. lra. }
  assert (Tlt : 2 * r < my -> (0 < r -> (0 < t)%Q) /\ (t < 1 # 2)%Q).
  { intros H. split.
    - intros Hp. apply Qlt_shift_div_l; [assumption|].
      rewrite Qmult_0_l. rewrite <- (Zlt_Qlt 0). lia.
    - apply Qlt_shift_div_r; [assumption|].
      rewrite Zlt_Qlt, inject_Z_mult in H. change (inject_Z 2) with 2%Q in H. lra. }
  assert (Teq : 2 * r = my -> (t == 1 # 2)%Q).
  { intros H. unfold t. rewrite <- H, inject_Z_mult.
    change (inject_Z 2) with 2%Q. field.
    assert (0 < inject_Z r)%Q by (rewrite <- (Zlt_Qlt 0); lia). lra. }
  assert (Tgt : my < 2 * r -> ((1 # 2) < t < 1)%Q).
  { intros H. split.
    - apply Qlt_shift_div_l; [assumption|].
      rewrite Zlt_Qlt, inject_Z_mult in H. change (inject_Z 2) with 2%Q in H. lra.
    - apply Qlt_shift_div_r; [assumption|].
      destruct Hr as [_ Hr]. rewrite Zlt_Qlt in Hr. lra. }
  unfold new_location, new_location_even, new_location_odd.
  destruct (Z.even my) eqn:Ev.
  - destruct (Z.eqb_spec r 0) as [R0|R0].
    + split; cbn [shr_record_of_loc shr_m shr_r shr_s]; [lia|].
      specialize (T0 R0). lra.
    + destruct (Z.compare_spec (2 * r) my) as [C|C|C];
        (split; cbn [shr_record_of_loc shr_m shr_r shr_s]; [lia|]).
      * specialize (Teq C). lra.
      * destruct (Tlt C) as [A B]. specialize (A ltac:(lia)). lra.
      * specialize (Tgt C). lra.
  - destruct (Z.eqb_spec r 0) as [R0|R0].
    + split; cbn [shr_record_of_loc shr_m shr_r shr_s]; [lia|].
      specialize (T0 R0). lra.
    + assert (Odd : 2 * r <> my).
      { intros C. rewrite <- C, Z.even_mul in Ev. discriminate. }
      destruct (Z.compare_spec (2 * r + 1) my) as [C|C|C];
        (split; cbn [shr_record_of_loc shr_m shr_r shr_s]; [lia|]).
      * destruct (Tlt ltac:(lia)) as [A B]. specialize (A ltac:(lia)). lra.
      * destruct (Tlt ltac:(lia)) as [A B]. specialize (A ltac:(lia)). lra.
      * specialize (Tgt ltac:(lia)). lra.
Qed.

(** Division: the quotient of the dividend shifted by 53 bits, located by
    the remainder, rounded. *)
Lemma SFdiv_spec x y :
  fin53 x -> fin53 y ->
  (2 ^ (-100) <= JS.value x <= 2 ^ 100)%Q ->
  (2 ^ (-100) <= JS.value y <= 2 ^ 100)%Q ->
  fin53 (SFdiv 53 1024 x y) /\
  ((1 - u53) * JS.value x <= JS.value (SFdiv 53 1024 x y) * JS.value y
   <= (1 + u53) * JS.value x)%Q.
Proof.
  destruct x as [| | |[] mx ex]; try contradiction.
  destruct y as [| | |[] my ey]; try contradiction.
  intros [Dx Ex] [Dy Ey] Rx Ry. cbn [JS.value] in Rx, Ry.
  pose proof (fin53_exponent mx ex _ _ Dx Rx) as Bx.
  pose proof (fin53_exponent my ey _ _ Dy Ry) as By.
  pose proof (digits2_bounds mx) as [Lx Ux]. rewrite Dx in Lx, Ux.
  pose proof (digits2_bounds my) as [Ly Uy]. rewrite Dy in Ly, Uy.
  change (2 ^ (53 - 1)) with (2 ^ 52) in Lx, Ly.
  cbn [SFdiv xorb]. unfold SFdiv_core_binary. cbn [Zdigits2].
  rewrite Dx, Dy, (fexp_normal (53 + ex - (53 + ey))) by lia.
  replace (Z.min (53 + ex - (53 + ey) - 53) (ex - ey)) with (ex - ey - 53) by lia.
  replace (ex - ey - (ex - ey - 53)) with 53 by lia.
  rewrite Z.shiftl_mul_pow2 by lia.
  pose proof (Z_div_mod (Z.pos mx * 2 ^ 53) (Z.pos my) ltac:(lia)) as DM.
  destruct (Z.div_eucl (Z.pos mx * 2 ^ 53) (Z.pos my)) as [q r].
  destruct DM as [DE DR].
  assert (Q1 : 2 ^ 52 <= q < 2 ^ 54).
  { assert (P53 : 0 < 2 ^ 53) by reflexivity.
    assert (P52 : 0 < 2 ^ 52) by reflexivity.
    assert (E54 : 2 ^ 54 = 2 * 2 ^ 53) by reflexivity.
    assert (E53 : 2 ^ 53 = 2 * 2 ^ 52) by reflexivity. nia. }
  assert (Dq : 53 <= Zdigits2 q <= 54).
  { pose proof (Zdigits2_pos_bounds q ltac:(assert (0 < 2 ^ 52) by reflexivity; lia)) as [L U].
    set (d := Zdigits2 q) in *. split.
    - destruct (Z.lt_ge_cases d 53) as [C|C]; [|lia].
      assert (2 ^ d <= 2 ^ 52).
      { destruct (Z.lt_ge_cases d 0); [rewrite Z.pow_neg_r by lia; lia|].
        apply Z.pow_le_mono_r; lia. } lia.
    - destruct (Z.lt_ge_cases 54 d) as [C|C]; [|lia].
      assert (2 ^ 54 <= 2 ^ (d - 1)) by (apply Z.pow_le_mono_r; lia). lia. }
  destruct (binary_round_aux_normal
              (inject_Z q + inject_Z r / inject_Z (Z.pos my))
              q (ex - ey - 53) (new_location (Z.pos my) r))
    as (m3 & e3 & E & D3 & E3 & V).
  - lia.
  - apply new_location_spec; [assert (0 < 2 ^ 52) by reflexivity; lia | lia].
  - lia.
  - lia.
  - rewrite E. split; [split; assumption|]. cbn [JS.value].
    assert (Hy : (0 < inject_Z (Z.pos my))%Q) by (rewrite <- (Zlt_Qlt 0); lia).
    pose proof (Qpower2_pos ey) as Pey.
    assert (XE : ((inject_Z q + inject_Z r / inject_Z (Z.pos my)) * 2 ^ (ex - ey - 53)
                  * (inject_Z (Z.pos my) * 2 ^ ey)
                  == inject_Z (Z.pos mx) * 2 ^ ex)%Q).
    { assert (DEq : (inject_Z (Z.pos mx) * 2 ^ 53
                     == inject_Z (Z.pos my) * inject_Z q + inject_Z r)%Q).
      { rewrite <- (Qpower2_Z 53), <- !inject_Z_mult, <- inject_Z_plus by lia.
        now rewrite DE. }
      replace ex with ((ex - ey - 53) + ey + 53) at 2 by lia.
      rewrite !Qpower2_add.
      transitivity ((inject_Z (Z.pos my) * inject_Z q + inject_Z r)
                    * 2 ^ (ex - ey - 53) * 2 ^ ey)%Q.
      - field. lra.
      - rewrite <- DEq. ring. }
    set (Y := (inject_Z (Z.pos my) * 2 ^ ey)%Q) in *.
    assert (PY : (0 < Y)%Q) by (unfold Y; nra).
    rewrite <- XE.
    set (X' := ((inject_Z q + inject_Z r / inject_Z (Z.pos my))
                * 2 ^ (ex - ey - 53))%Q) in *.
    destruct V as [V1 V2]. split; nra.
Qed.

(** The Number value of a positive integer below 2^53 is that integer. *)
Lemma iter_xO p k : Z.pos (Pos.iter xO p k) = Z.pos p * 2 ^ Z.pos k.
Proof.
  induction k as [|k IH] using Pos.peano_ind.
  - cbn [Pos.iter]. lia.
  - rewrite Pos.iter_succ, Pos2Z.inj_xO, IH, Pos2Z.inj_succ, Z.pow_succ_r by lia.
    ring.
Qed.

Lemma ofZ_spec n :
  0 < n < 2 ^ 53 ->
  fin53 (JS.ofZ n) /\ (JS.value (JS.ofZ n) == inject_Z n)%Q /\
  JS.toZ (JS.ofZ n) = Some n.
Proof.
  intros [Hn0 Hn]. destruct n as [|p|p]; try lia.
  unfold JS.ofZ, JS.prec, JS.emax. cbn [binary_normalize]. unfold binary_round.
  pose proof (digits2_bounds p) as [L U].
  set (d := Z.pos (digits2_pos p)) in *.
  assert (Hd : 1 <= d <= 53).
  { split; [unfold d; lia|].
    destruct (Z.lt_ge_cases 53 d) as [C|C]; [|lia].
    assert (2 ^ 53 <= 2 ^ (d - 1)) by (apply Z.pow_le_mono_r; lia). lia. }
  rewrite (fexp_normal (d + 0)) by lia. unfold shl_align.
  destruct (d + 0 - 53 - 0) as [|k|k] eqn:K; try lia.
  - assert (D : d = 53) by lia.
    rewrite binary_round_aux_canonical by (fold d; lia).
    split; [split; [fold d|]; lia|]. split.
    + cbn [JS.value]. change (2 ^ 0)%Q with 1%Q. ring.
    + cbn [JS.toZ Z.leb Z.compare]. f_equal. change (2 ^ 0) with 1. lia.
  - assert (Hk : Z.pos k = 53 - d) by lia.
    assert (M : Z.pos (Pos.iter xO p k) = Z.pos p * 2 ^ Z.pos k) by apply iter_xO.
    assert (P2 : 2 ^ Z.pos k * 2 ^ (d - 1) = 2 ^ 52).
    { rewrite <- Z.pow_add_r by lia. f_equal. lia. }
    assert (P3 : 2 ^ Z.pos k * 2 ^ d = 2 ^ 53).
    { rewrite <- Z.pow_add_r by lia. f_equal. lia. }
    assert (Pk : 0 < 2 ^ Z.pos k) by (apply Z.pow_pos_nonneg; lia).
    assert (D : Z.pos (digits2_pos (Pos.iter xO p k)) = 53).
    { apply digits2_unique. rewrite M. change (2 ^ (53 - 1)) with (2 ^ 52). nia. }
    rewrite binary_round_aux_canonical by (try assumption; lia).
    split; [split; [assumption | lia]|]. split.
    + cbn [JS.value]. rewrite M, inject_Z_mult, (Qpower2_Z (Z.pos k)) by lia.
      rewrite <- Qmult_assoc, <- Qpower2_add.
      replace (Z.pos k + (d + 0 - 53)) with 0 by lia.
      change (2 ^ 0)%Q with 1%Q. ring.
    + cbn [JS.toZ].
      destruct (Z.leb_spec 0 (d + 0 - 53)) as [C|_]; [lia|].
      replace (- (d + 0 - 53)) with (Z.pos k) by lia.
      rewrite M, Z.mod_mul, Z.div_mul by lia. reflexivity.
Qed.

(** Comparison and minimum of positive normal numbers are those of their
    values. *)
Lemma gt_spec x y :
  fin53 x -> fin53 y ->
  (JS.gt x y = true /\ (JS.value y < JS.value x)%Q) \/
  (JS.gt x y = false /\ (JS.value x <= JS.value y)%Q).
Proof.
  destruct x as [| | |[] mx ex]; try contradiction.
  destruct y as [| | |[] my ey]; try contradiction.
  intros [Dx Ex] [Dy Ey]. unfold JS.gt, SFltb. cbn [SFcompare JS.value].
  pose proof (fin53_bounds mx ex Dx) as [Lx Ux].
  pose proof (fin53_bounds my ey Dy) as [Ly Uy].
  destruct (Z.compare_spec ey ex) as [C|C|C].
  - subst ey. pose proof (Qpower2_pos ex) as P.
    change (Pos.compare_cont Eq my mx) with (Pos.compare my mx).
    destruct (Pos.compare_spec my mx) as [E|E|E].
    + subst my. right. split; [reflexivity | lra].
    + left. split; [reflexivity|].
      apply Pos2Z.pos_lt_pos in E. rewrite Zlt_Qlt in E. nra.
    + right. split; [reflexivity|].
      apply Pos2Z.pos_lt_pos in E. rewrite Zlt_Qlt in E. nra.
  - left. split; [reflexivity|].
    assert (2 ^ (53 + ey) <= 2 ^ (52 + ex))%Q by (apply Qpower2_le_mono; lia). lra.
  - right. split; [reflexivity|].
    assert (2 ^ (53 + ex) <= 2 ^ (52 + ey))%Q by (apply Qpower2_le_mono; lia). lra.
Qed.

Lemma Math_min_spec x y :
  fin53 x -> fin53 y ->
  (JS.Math_min x y = y /\ (JS.value y < JS.value x)%Q) \/
  (JS.Math_min x y = x /\ (JS.value x <= JS.value y)%Q).
Proof.
  intros Fx Fy. destruct (gt_spec x y Fx Fy) as [[G V]|[G V]];
    [left | right]; (split; [|assumption]);
    destruct x as [| | |[] mx ex]; try contradiction;
    destruct y as [| | |[] my ey]; try contradiction;
    unfold JS.Math_min; unfold JS.gt in G; now rewrite G.
Qed.

(** [Math.round] of a positive normal number below 2^52: the integer [k]
    with [k <= x + 1/2 < k + 1]. *)
Lemma Math_round_spec x :
  fin53 x -> (JS.value x < inject_Z (2 ^ 52))%Q ->
  exists k, JS.toZ (JS.Math_round x) = Some k /\ 0 <= k /\
            (inject_Z k <= JS.value x + (1#2) < inject_Z k + 1)%Q.
Proof.
  destruct x as [| | |[] m e]; try contradiction.
  intros [D E] V. cbn [JS.value] in V.
  pose proof (fin53_bounds m e D) as [L U].
  assert (He : e < 0).
  { destruct (Z.lt_ge_cases e 0) as [C|C]; [assumption|].
    assert (2 ^ 52 <= 2 ^ (52 + e))%Q by (apply Qpower2_le_mono; lia).
    rewrite <- (Qpower2_Z 52) in H by lia. lra. }
  cbn [JS.Math_round]. destruct (Z.leb_spec 0 e) as [C|_]; [lia|].
  set (N := - e). assert (HN : 0 < N) by (unfold N; lia).
  replace (1 - e) with (N + 1) by (unfold N; lia).
  rewrite Z.pow_add_r by lia. change (2 ^ 1) with 2.
  assert (PN : 0 < 2 ^ N) by (apply Z.pow_pos_nonneg; lia).
  set (k := (2 * Z.pos m + 2 ^ N) / (2 ^ N * 2)).
  assert (K : 2 ^ N * 2 * k <= 2 * Z.pos m + 2 ^ N < 2 ^ N * 2 * (k + 1)).
  { pose proof (Z.div_mod (2 * Z.pos m + 2 ^ N) (2 ^ N * 2) ltac:(lia)) as DM.
    pose proof (Z.mod_pos_bound (2 * Z.pos m + 2 ^ N) (2 ^ N * 2) ltac:(lia)) as MB.
    fold k in DM. lia. }
  assert (K0 : 0 <= k) by (apply Z.div_pos; lia).
  assert (VE : (inject_Z (Z.pos m) * 2 ^ e * inject_Z (2 ^ N) == inject_Z (Z.pos m))%Q).
  { rewrite (Qpower2_Z N), <- Qmult_assoc, <- Qpower2_add by lia.
    replace (e + N) with 0 by (unfold N; lia). change (2 ^ 0)%Q with 1%Q. ring. }
  set (v := (inject_Z (Z.pos m) * 2 ^ e)%Q) in *.
  assert (PQ : (0 < inject_Z (2 ^ N))%Q) by (rewrite <- (Zlt_Qlt 0); lia).
  assert (B : (inject_Z k <= v + (1#2) < inject_Z k + 1)%Q).
  { destruct K as [K1 K2]. rewrite Zle_Qle in K1. rewrite Zlt_Qlt in K2.
    rewrite !inject_Z_plus, !inject_Z_mult in K1, K2.
    rewrite inject_Z_plus in K2.
    change (inject_Z 2) with 2%Q in *. change (inject_Z 1) with 1%Q in *.
    set (T := inject_Z (2 ^ N)) in *. set (M := inject_Z (Z.pos m)) in *.
    split; nra. }
  exists k. split; [|split; assumption].
  destruct (Z.eqb_spec k 0) as [Z|NZ].
  - rewrite Z. reflexivity.
  - apply ofZ_spec. split; [lia|].
    destruct B as [B1 _].
    assert (inject_Z k < inject_Z (2 ^ 52 + 1))%Q
      by (rewrite inject_Z_plus; change (inject_Z 1) with 1%Q; lra).
    rewrite <- Zlt_Qlt in H.
    assert (2 ^ 53 = 2 ^ 52 + 2 ^ 52) by reflexivity.
    assert (1 < 2 ^ 52) by reflexivity. lia.
Qed.

Local Open Scope Q_scope.

(** Error propagation through a division by, and a multiplication with,
    the computed aspect ratio [A] of [a / b]. *)
Lemma quotient_chain (a b A n h hs : Q) :
  0 < a -> 0 < b -> 0 < A -> 0 < n -> 0 <= h ->
  (1 - u53) * a <= A * b <= (1 + u53) * a ->
  (1 - u53) * n <= h * A <= (1 + u53) * n ->
  hs * a == n * b ->
  (1 - u53) * h <= (1 + u53) * hs /\ (1 - u53) * hs <= (1 + u53) * h.
Proof.
  unfold u53. intros Ha Hb HA Hn Hh [A1 A2] [H1 H2] E.
  set (c1 := 1 - (1 # 9007199254740992)) in *. set (c2 := 1 + (1 # 9007199254740992)) in *.
  assert (C1 : 0 < c1) by (unfold c1; reflexivity).
  assert (C2 : 0 < c2) by (unfold c2; reflexivity).
  assert (S1 : h * (c1 * a) <= h * (A * b)) by nra.
  assert (S2 : (h * A) * b <= (c2 * n) * b) by nra.
  assert (S3 : h * (A * b) <= h * (c2 * a)) by nra.
  assert (S4 : (c1 * n) * b <= (h * A) * b) by nra.
  split.
  - apply (Qmult_le_l _ _ a); [assumption|]. nra.
  - apply (Qmult_le_l _ _ a); [assumption|]. nra.
Qed.

Lemma product_chain (a b A n w ws : Q) :
  0 < a -> 0 < b -> 0 < A -> 0 < n ->
  (1 - u53) * a <= A * b <= (1 + u53) * a ->
  (1 - u53) * (n * A) <= w <= (1 + u53) * (n * A) ->
  ws * b == n * a ->
  (1 - u53) * ((1 - u53) * ws) <= w <= (1 + u53) * ((1 + u53) * ws).
Proof.
  unfold u53. intros Ha Hb HA Hn [A1 A2] [H1 H2] E.
  set (c1 := 1 - (1 # 9007199254740992)) in *. set (c2 := 1 + (1 # 9007199254740992)) in *.
  assert (C1 : 0 < c1) by (unfold c1; reflexivity).
  assert (C2 : 0 < c2) by (unfold c2; reflexivity).
  assert (N1 : 0 < c1 * n) by nra.
  assert (N2 : 0 < c2 * n) by nra.
  assert (S1 : (c1 * n) * (c1 * a) <= (c1 * n) * (A * b)) by nra.
  assert (S2 : (c2 * n) * (A * b) <= (c2 * n) * (c2 * a)) by nra.
  assert (S3 : c1 * (n * A) * b <= w * b) by nra.
  assert (S4 : w * b <= c2 * (n * A) * b) by nra.
  split.
  - apply (Qmult_le_r _ _ b); [assumption|]. nra.
  - apply (Qmult_le_r _ _ b); [assumption|]. nra.
Qed.

Local Close Scope Q_scope.

(** Bounds as literals. *)
Lemma range_lit (v : Q) :
  ((1 # 18446744073709551616) <= v <= 18446744073709551616)%Q ->
  (2 ^ (-100) <= v <= 2 ^ 100)%Q.
Proof.
  intros [L U].
  assert (A : (2 ^ (-100) <= 2 ^ (-64))%Q) by (apply Qpower2_le_mono; lia).
  assert (B : (2 ^ 64 <= 2 ^ 100)%Q) by (apply Qpower2_le_mono; lia).
  assert (A' : (2 ^ (-64) == 1 # 18446744073709551616)%Q) by reflexivity.
  assert (B' : (2 ^ 64 == 18446744073709551616)%Q) by reflexivity.
  lra.
Qed.

(** A dimension: a positive integer below 2^31, as a number. *)
Lemma dim_spec n :
  0 < n < 2 ^ 31 ->
  fin53 (JS.ofZ n) /\ (JS.value (JS.ofZ n) == inject_Z n)%Q /\
  JS.toZ (JS.ofZ n) = Some n /\ (1 <= inject_Z n <= 2147483647)%Q.
Proof.
  intros H. assert (H' : 0 < n < 2 ^ 53).
  { assert (2 ^ 31 < 2 ^ 53) by reflexivity. lia. }
  destruct (ofZ_spec n H') as (F & V & T). repeat split; try assumption.
  - rewrite <- (Zle_Qle 1). lia.
  - change 2147483647%Q with (inject_Z 2147483647). rewrite <- Zle_Qle.
    change (2 ^ 31) with 2147483648 in H. lia.
Qed.

(** Integers from rational bounds. *)
Lemma int_lt_succ k n : (inject_Z k < inject_Z n + 1)%Q -> k <= n.
Proof.
  change 1%Q with (inject_Z 1). rewrite <- inject_Z_plus, <- Zlt_Qlt. lia.
Qed.

Lemma Math_round_dim n : 0 < n < 2 ^ 31 -> JS.toZ (JS.Math_round (JS.ofZ n)) = Some n.
Proof.
  intros H. destruct (dim_spec n H) as (F & V & _ & R).
  destruct (Math_round_spec (JS.ofZ n) F) as (k & T & K0 & K).
  - change (inject_Z (2 ^ 52)) with 4503599627370496%Q. lra.
  - rewrite T. f_equal. rewrite V in K. destruct K as [K1 K2].
    assert (k <= n) by (apply int_lt_succ; lra).
    assert (n <= k) by (apply int_lt_succ; lra). lia.
Qed.

Lemma Math_min_dim p q :
  0 < p < 2 ^ 31 -> 0 < q < 2 ^ 31 ->
  JS.Math_min (JS.ofZ p) (JS.ofZ q) = JS.ofZ (Z.min p q).
Proof.
  intros Hp Hq. destruct (dim_spec p Hp) as (Fp & Vp & _).
  destruct (dim_spec q Hq) as (Fq & Vq & _).
  destruct (Math_min_spec _ _ Fp Fq) as [[M V]|[M V]]; rewrite M.
  - rewrite Vp, Vq, <- Zlt_Qlt in V. now rewrite Z.min_r by lia.
  - rewrite Vp, Vq, <- Zle_Qle in V. now rewrite Z.min_l by lia.
Qed.

(** Division and multiplication of numbers between 2^-64 and 2^64: the
    result is again a positive normal number, within the relative error
    [u53] of the exact quotient or product. *)
Lemma div_spec x y :
  fin53 x -> fin53 y ->
  ((1 # 18446744073709551616) <= JS.value x <= 18446744073709551616)%Q ->
  ((1 # 18446744073709551616) <= JS.value y <= 18446744073709551616)%Q ->
  fin53 (JS.div x y) /\ (0 < JS.value (JS.div x y))%Q /\
  ((1 - u53) * JS.value x <= JS.value (JS.div x y) * JS.value y
   <= (1 + u53) * JS.value x)%Q.
Proof.
  intros Fx Fy Rx Ry.
  destruct (SFdiv_spec x y Fx Fy (range_lit _ Rx) (range_lit _ Ry)) as [F E].
  split; [exact F|]. split; [exact (fin53_value_pos _ F) | exact E].
Qed.

Lemma mul_spec x y :
  fin53 x -> fin53 y ->
  ((1 # 18446744073709551616) <= JS.value x <= 18446744073709551616)%Q ->
  ((1 # 18446744073709551616) <= JS.value y <= 18446744073709551616)%Q ->
  fin53 (JS.mul x y) /\ (0 < JS.value (JS.mul x y))%Q /\
  ((1 - u53) * (JS.value x * JS.value y) <= JS.value (JS.mul x y)
   <= (1 + u53) * (JS.value x * JS.value y))%Q.
Proof.
  intros Fx Fy Rx Ry.
  destruct (SFmul_spec x y Fx Fy (range_lit _ Rx) (range_lit _ Ry)) as [F E].
  split; [exact F|]. split; [exact (fin53_value_pos _ F) | exact E].
Qed.

Local Open Scope Q_scope.

(** The aspect ratio: bounds on its value. *)
Lemma aspect_bounds (a b A : Q) :
  1 <= a <= 2147483647 -> 1 <= b <= 2147483647 -> 0 < A ->
  (1 - u53) * a <= A * b <= (1 + u53) * a ->
  (1 # 4294967296) <= A <= 4294967296.
Proof. unfold u53. intros Ha Hb HA [L U]. split; nra. Qed.

(** A computed dimension against the ideal one. *)
Lemma near_ideal (v vs : Q) :
  (1 - u53) * v <= (1 + u53) * vs -> (1 - u53) * vs <= (1 + u53) * v ->
  0 <= vs <= 4294967296 ->
  - (1 # 262144) <= v - vs <= 1 # 262144.
Proof. unfold u53. intros H1 H2 H3. split; lra. Qed.

Lemma near_ideal2 (v vs : Q) :
  (1 - u53) * ((1 - u53) * vs) <= v <= (1 + u53) * ((1 + u53) * vs) ->
  0 <= vs <= 4294967296 ->
  - (1 # 262144) <= v - vs <= 1 # 262144.
Proof. unfold u53. intros H1 H3. split; lra. Qed.

Local Close Scope Q_scope.

(** The four paths of [calculateTargetSize], for an image and bounds whose
    dimensions are positive integers below 2^31. *)
Section TargetSize.

Variables cols rows mw mh : Z.
Hypothesis Hc : 0 < cols < 2 ^ 31.
Hypothesis Hr : 0 < rows < 2 ^ 31.
Hypothesis Hw : 0 < mw < 2 ^ 31.
Hypothesis Hh : 0 < mh < 2 ^ 31.

Lemma calculateTargetSize_spec :
  fits cols rows mw mh
    (calculateTargetSize (JS.ofZ cols) (JS.ofZ rows) (JS.ofZ mw) (JS.ofZ mh)).
Proof.
  destruct (dim_spec cols Hc) as (Fa & Va & Ta & Ra).
  destruct (dim_spec rows Hr) as (Fb & Vb & Tb & Rb).
  destruct (dim_spec mw Hw) as (Fp & Vp & Tp & Rp).
  destruct (dim_spec mh Hh) as (Fq & Vq & Tq & Rq).
  destruct (dim_spec 1 ltac:(split; reflexivity)) as (F1 & V1 & _ & _).
  change (inject_Z 1) with 1%Q in V1.
  unfold calculateTargetSize.
  destruct (div_spec (JS.ofZ cols) (JS.ofZ rows) Fa Fb ltac:(lra) ltac:(lra))
    as (FA & PA & EA).
  set (Af := JS.div (JS.ofZ cols) (JS.ofZ rows)) in *.
  rewrite Va, Vb in EA.
  set (a := inject_Z cols) in *. set (b := inject_Z rows) in *.
  set (p := inject_Z mw) in *. set (q := inject_Z mh) in *.
  set (A := JS.value Af) in *.
  pose proof (aspect_bounds a b A Ra Rb PA EA) as RA.
  destruct (gt_spec Af (JS.ofZ 1) FA F1) as [[G V]|[G V]]; rewrite G.
  - (* landscape *)
    rewrite (Math_min_dim mw cols Hw Hc).
    set (n0 := Z.min mw cols).
    assert (Hn0 : 0 < n0 < 2 ^ 31) by (unfold n0; lia).
    destruct (dim_spec n0 Hn0) as (Fn & Vn & Tn & Rn).
    assert (Na : (inject_Z n0 <= a)%Q) by (unfold a; rewrite <- Zle_Qle; unfold n0; lia).
    assert (Np : (inject_Z n0 <= p)%Q) by (unfold p; rewrite <- Zle_Qle; unfold n0; lia).
    set (n := inject_Z n0) in *.
    destruct (div_spec (JS.ofZ n0) Af Fn FA ltac:(lra) ltac:(fold A; lra))
      as (FH & PH & EH).
    set (hf := JS.div (JS.ofZ n0) Af) in *. fold A in EH. rewrite Vn in EH.
    set (h := JS.value hf) in *.
    destruct (gt_spec hf (JS.ofZ mh) FH Fq) as [[G2 V2]|[G2 V2]]; rewrite G2;
      fold h in V2; rewrite Vq in V2.
    + (* the height exceeds the bound: derive the width from the height *)
      destruct (mul_spec (JS.ofZ mh) Af Fq FA ltac:(lra) ltac:(fold A; lra))
        as (FW & PW & EW).
      set (wf := JS.mul (JS.ofZ mh) Af) in *. fold A in EW. rewrite Vq in EW.
      set (w := JS.value wf) in *.
      assert (S : (q * A < (1 + u53) * n)%Q) by (unfold u53 in *; nra).
      assert (W1 : (w < n + (1 # 4))%Q) by (unfold u53 in *; lra).
      assert (Bw : (w < 4503599627370496)%Q) by lra.
      destruct (Math_round_spec wf FW Bw) as (k & Tk & K0 & K1 & K2).
      fold w in K1, K2.
      set (ws := (q * a / b)%Q).
      assert (Ews : (ws * b == q * a)%Q) by (unfold ws; field; lra).
      assert (Bws : (0 <= ws <= 4294967296)%Q).
      { split.
        - unfold ws. apply Qle_shift_div_l; [lra | nra].
        - unfold ws. apply Qle_shift_div_r; [lra|].
          assert (S1 : (q * ((1 - u53) * a) <= q * (A * b))%Q) by nra.
          assert (S2 : (q * A * b <= (1 + u53) * n * b)%Q) by nra.
          assert (S3 : (n * b <= 2147483647 * b)%Q) by nra.
          unfold u53 in *. lra. }
      destruct (product_chain a b A q w ws) as [Q1 Q2]; try assumption; try lra.
      pose proof (near_ideal2 w ws (conj Q1 Q2) Bws) as [N1 N2].
      assert (Kn : k <= n0) by (apply int_lt_succ; fold n; lra).
      exists k, mh. cbn [width height].
      split; [exact Tk|]. split; [apply Math_round_dim; assumption|].
      split; [unfold n0 in Kn; lia|]. split; [lia|].
      split.
      * exists ws, q. split; [fold a b; rewrite Ews; ring|].
        fold q. split; lra.
      * intros C1 C2.
        assert (E0 : n0 = cols) by (unfold n0; lia).
        assert (En : (n == a)%Q) by (unfold n, a; now rewrite E0).
        assert (Bb : (0 <= b <= 4294967296)%Q) by lra.
        destruct (quotient_chain a b A n h b) as [Q3 Q4]; try assumption; try lra.
        { rewrite En. ring. }
        pose proof (near_ideal h b Q3 Q4 Bb) as [N3 N4].
        assert (Eq : mh = rows).
        { assert (mh <= rows) by (apply int_lt_succ; fold q b; lra). lia. }
        assert (Eqb : (q == b)%Q) by (unfold q, b; now rewrite Eq).
        assert (Ews' : (ws == a)%Q).
        { unfold ws. rewrite Eqb. field. lra. }
        assert (k <= cols) by (apply int_lt_succ; fold a; lra).
        assert (cols <= k) by (apply int_lt_succ; fold a; lra). lia.
    + (* the height fits *)
      assert (Bh : (h < 4503599627370496)%Q) by lra.
      destruct (Math_round_spec hf FH Bh) as (k & Tk & K0 & K1 & K2). fold h in K1, K2.
      set (hs := (n * b / a)%Q).
      assert (Ehs : (hs * a == n * b)%Q) by (unfold hs; field; lra).
      assert (Bhs : (0 <= hs <= 4294967296)%Q).
      { split.
        - unfold hs. apply Qle_shift_div_l; [lra | nra].
        - apply Qle_trans with b; [|lra].
          unfold hs. apply Qle_shift_div_r; [lra | nra]. }
      destruct (quotient_chain a b A n h hs) as [Q1 Q2]; try assumption; try lra.
      pose proof (near_ideal h hs Q1 Q2 Bhs) as [N1 N2].
      exists n0, k. cbn [width height].
      split; [apply Math_round_dim; assumption|]. split; [exact Tk|].
      split; [unfold n0; lia|].
      split; [split; [assumption | apply int_lt_succ; fold q; lra]|].
      split.
      * exists n, hs. split; [fold a b; rewrite Ehs; ring|].
        fold n. split; lra.
      * intros C1 C2. split; [unfold n0; lia|].
        assert (n0 = cols) by (unfold n0; lia).
        assert (Eh : (hs == b)%Q).
        { unfold hs, n. rewrite H. fold a. field. lra. }
        assert (k <= rows) by (apply int_lt_succ; fold b; lra).
        assert (rows <= k) by (apply int_lt_succ; fold b; lra). lia.
  - (* portrait *)
    rewrite (Math_min_dim mh rows Hh Hr).
    set (n0 := Z.min mh rows).
    assert (Hn0 : 0 < n0 < 2 ^ 31) by (unfold n0; lia).
    destruct (dim_spec n0 Hn0) as (Fn & Vn & Tn & Rn).
    assert (Nb : (inject_Z n0 <= b)%Q) by (unfold b; rewrite <- Zle_Qle; unfold n0; lia).
    assert (Nq : (inject_Z n0 <= q)%Q) by (unfold q; rewrite <- Zle_Qle; unfold n0; lia).
    set (n := inject_Z n0) in *.
    destruct (mul_spec (JS.ofZ n0) Af Fn FA ltac:(lra) ltac:(fold A; lra))
      as (FW & PW & EW).
    set (wf := JS.mul (JS.ofZ n0) Af) in *. fold A in EW. rewrite Vn in EW.
    set (w := JS.value wf) in *.
    destruct (gt_spec wf (JS.ofZ mw) FW Fp) as [[G2 V2]|[G2 V2]]; rewrite G2;
      fold w in V2; rewrite Vp in V2.
    + (* the width exceeds the bound: derive the height from the width *)
      destruct (div_spec (JS.ofZ mw) Af Fp FA ltac:(lra) ltac:(fold A; lra))
        as (FH & PH & EH).
      set (hf := JS.div (JS.ofZ mw) Af) in *. fold A in EH. rewrite Vp in EH.
      set (h := JS.value hf) in *.
      assert (S : (h * A < (1 + u53) * ((1 + u53) * n) * A)%Q)
        by (unfold u53 in *; lra).
      assert (S' : (h < (1 + u53) * ((1 + u53) * n))%Q)
        by (apply (Qmult_lt_r _ _ A); assumption).
      assert (H1 : (h < n + (1 # 4))%Q) by (unfold u53 in *; lra).
      assert (Bh : (h < 4503599627370496)%Q) by lra.
      destruct (Math_round_spec hf FH Bh) as (k & Tk & K0 & K1 & K2).
      fold h in K1, K2.
      set (hs := (p * b / a)%Q).
      assert (Ehs : (hs * a == p * b)%Q) by (unfold hs; field; lra).
      assert (Bhs : (0 <= hs <= 4294967296)%Q).
      { split.
        - unfold hs. apply Qle_shift_div_l; [lra | nra].
        - unfold hs. apply Qle_shift_div_r; [lra|].
          assert (S1 : (p * b <= (1 + u53) * (n * A) * b)%Q) by nra.
          assert (S2 : (n * (A * b) <= n * ((1 + u53) * a))%Q) by nra.
          assert (S3 : (n * a <= 2147483647 * a)%Q) by nra.
          unfold u53 in *. lra. }
      destruct (quotient_chain a b A p h hs) as [Q1 Q2]; try assumption; try lra.
      pose proof (near_ideal h hs Q1 Q2 Bhs) as [N1 N2].
      assert (Kn : k <= n0) by (apply int_lt_succ; fold n; lra).
      exists mw, k. cbn [width height].
      split; [apply Math_round_dim; assumption|]. split; [exact Tk|].
      split; [lia|]. split; [unfold n0 in Kn; lia|].
      split.
      * exists p, hs. split; [fold a b; rewrite Ehs; ring|].
        fold p. split; lra.
      * intros C1 C2.
        assert (E0 : n0 = rows) by (unfold n0; lia).
        assert (En : (n == b)%Q) by (unfold n, b; now rewrite E0).
        assert (Ba : (0 <= a <= 4294967296)%Q) by lra.
        destruct (product_chain a b A n w a) as [Q3 Q4]; try assumption; try lra.
        { rewrite En. ring. }
        pose proof (near_ideal2 w a (conj Q3 Q4) Ba) as [N3 N4].
        assert (Ep : mw = cols).
        { assert (mw <= cols) by (apply int_lt_succ; fold p a; lra). lia. }
        assert (Epa : (p == a)%Q) by (unfold p, a; now rewrite Ep).
        assert (Ehs' : (hs == b)%Q).
        { unfold hs. rewrite Epa. field. lra. }
        assert (k <= rows) by (apply int_lt_succ; fold b; lra).
        assert (rows <= k) by (apply int_lt_succ; fold b; lra). lia.
    + (* the width fits *)
      assert (Bw : (w < 4503599627370496)%Q) by lra.
      destruct (Math_round_spec wf FW Bw) as (k & Tk & K0 & K1 & K2).
      fold w in K1, K2.
      set (ws := (n * a / b)%Q).
      assert (Ews : (ws * b == n * a)%Q) by (unfold ws; field; lra).
      assert (Bws : (0 <= ws <= 4294967296)%Q).
      { split.
        - unfold ws. apply Qle_shift_div_l; [lra | nra].
        - apply Qle_trans with a; [|lra].
          unfold ws. apply Qle_shift_div_r; [lra | nra]. }
      destruct (product_chain a b A n w ws) as [Q1 Q2]; try assumption; try lra.
      pose proof (near_ideal2 w ws (conj Q1 Q2) Bws) as [N1 N2].
      exists k, n0. cbn [width height].
      split; [exact Tk|]. split; [apply Math_round_dim; assumption|].
      split; [split; [assumption | apply int_lt_succ; fold p; lra]|].
      split; [unfold n0; lia|].
      split.
      * exists ws, n. split; [fold a b; rewrite Ews; ring|].
        fold n. split; lra.
      * intros C1 C2. 
        assert (E0 : n0 = rows) by (unfold n0; lia).
        assert (Ews' : (ws == a)%Q).
        { unfold ws, n. rewrite E0. fold b. field. lra. }
        assert (k <= cols) by (apply int_lt_succ; fold a; lra).
        assert (cols <= k) by (apply int_lt_succ; fold a; lra). lia.
Qed.

End TargetSize.


(** ** The target size *)

(** The bounds of a preset, as integers. *)
Lemma preset_bounds mode :
  exists mw mh,
    maxWidth (PROCESSING_CONFIGS mode) = JS.ofZ mw /\
    maxHeight (PROCESSING_CONFIGS mode) = JS.ofZ mh /\
    JS.toZ (JS.ofZ mw) = Some mw /\ JS.toZ (JS.ofZ mh) = Some mh /\
    0 < mw < 2 ^ 31 /\ 0 < mh < 2 ^ 31.
Proof.
  destruct mode; [exists 800, 600 | exists 512, 384 | exists 240, 180];
    repeat split.
Qed.

(** C6. For an image of positive dimensions (below 2^31, the range of the
    [cols] and [rows] of an OpenCV matrix) and each of the presets, the
    rounded target dimensions are integers, both at most the bounds of
    the preset, and each within one pixel of a pair of dimensions that
    has exactly the aspect ratio of the image. *)
Theorem target_size_within_preset_and_ratio :
  forall (mode : ProcessingMode) (cols rows : Z),
    0 < cols < 2 ^ 31 -> 0 < rows < 2 ^ 31 ->
    exists W H MW MH : Z,
      JS.toZ (width (targetSize mode cols rows)) = Some W /\
      JS.toZ (height (targetSize mode cols rows)) = Some H /\
      JS.toZ (maxWidth (PROCESSING_CONFIGS mode)) = Some MW /\
      JS.toZ (maxHeight (PROCESSING_CONFIGS mode)) = Some MH /\
      0 <= W <= MW /\ 0 <= H <= MH /\
      exists w h : Q,
        (w * inject_Z rows == h * inject_Z cols)%Q /\
        (Qabs (inject_Z W - w) <= 1)%Q /\ (Qabs (inject_Z H - h) <= 1)%Q.
Proof.
  intros mode cols rows Hc Hr. unfold targetSize.
  destruct (preset_bounds mode) as (mw & mh & -> & -> & Tw & Th & Hw & Hh).
  destruct (calculateTargetSize_spec cols rows mw mh Hc Hr Hw Hh)
    as (W & H & TW & TH & BW & BH & (w & h & E & NW & NH) & _).
  exists W, H, mw, mh. repeat (split; [assumption|]).
  exists w, h. split; [assumption|].
  split; apply Qabs_Qle_condition; assumption.
Qed.

Lemma target_size_within_preset_and_ratio_witness :
  exists W H MW MH : Z,
    JS.toZ (width (targetSize BALANCED 4032 3024)) = Some W /\
    JS.toZ (height (targetSize BALANCED 4032 3024)) = Some H /\
    JS.toZ (maxWidth (PROCESSING_CONFIGS BALANCED)) = Some MW /\
    JS.toZ (maxHeight (PROCESSING_CONFIGS BALANCED)) = Some MH /\
    0 <= W <= MW /\ 0 <= H <= MH /\
    exists w h : Q,
      (w * inject_Z 3024 == h * inject_Z 4032)%Q /\
      (Qabs (inject_Z W - w) <= 1)%Q /\ (Qabs (inject_Z H - h) <= 1)%Q.
Proof.
  apply (target_size_within_preset_and_ratio BALANCED 4032 3024);
    split; reflexivity.
Defined.

(** C7. An image whose dimensions are within the bounds of the preset is
    not upscaled: the target dimensions do not exceed those of the image
    (they are the dimensions of the image). *)
Theorem no_upscaling_within_preset :
  forall (mode : ProcessingMode) (cols rows MW MH : Z),
    JS.toZ (maxWidth (PROCESSING_CONFIGS mode)) = Some MW ->
    JS.toZ (maxHeight (PROCESSING_CONFIGS mode)) = Some MH ->
    0 < cols <= MW -> 0 < rows <= MH ->
    exists W H : Z,
      JS.toZ (width (targetSize mode cols rows)) = Some W /\
      JS.toZ (height (targetSize mode cols rows)) = Some H /\
      W <= cols /\ H <= rows /\ W = cols /\ H = rows.
Proof.
  intros mode cols rows MW MH TMW TMH Hc Hr. unfold targetSize.
  destruct (preset_bounds mode) as (mw & mh & Ew & Eh & Tw & Th & Hw & Hh).
  rewrite Ew, Eh in *. rewrite Tw in TMW. rewrite Th in TMH.
  inversion TMW; inversion TMH; subst MW MH.
  destruct (calculateTargetSize_spec cols rows mw mh
              ltac:(lia) ltac:(lia) Hw Hh)
    as (W & H & TW & TH & _ & _ & _ & Same).
  destruct (Same ltac:(lia) ltac:(lia)) as [-> ->].
  exists cols, rows. repeat split; try assumption; lia.
Qed.

Lemma no_upscaling_within_preset_witness :
  exists W H : Z,
    JS.toZ (width (targetSize HIGH_QUALITY 640 480)) = Some W /\
    JS.toZ (height (targetSize HIGH_QUALITY 640 480)) = Some H /\
    W <= 640 /\ H <= 480 /\ W = 640 /\ H = 480.
Proof.
  apply (no_upscaling_within_preset HIGH_QUALITY 640 480 800 600);
    [reflexivity | reflexivity | lia | lia].
Defined.

(** C10. A 10000x1 image under the balanced preset (512x384) gets the
    target size 512x0, and a 1x10000 image the target size 0x384: a
    dimension of the rounded target size is 0 although both dimensions of
    the source are positive. *)
Theorem extreme_aspect_ratio_gives_zero_dimension :
  targetSize BALANCED 10000 1
    = {| width := JS.ofZ 512; height := SpecFloat.S754_zero false |} /\
  JS.toZ (height (targetSize BALANCED 10000 1)) = Some 0 /\
  targetSize BALANCED 1 10000
    = {| width := SpecFloat.S754_zero false; height := JS.ofZ 384 |} /\
  JS.toZ (width (targetSize BALANCED 1 10000)) = Some 0.
Proof. repeat split; vm_compute; reflexivity. Qed.

(** * Further properties *)

(** ** Decoding: which payloads are accepted *)

Lemma storeString_rejects old v :
  jsondec.storeString old v = None <-> rejectedAsString v = true.
Proof. destruct v; simpl; split; congruence. Qed.

Lemma storeInt_rejects old v :
  jsondec.storeInt old v = None <-> rejectedAsInt v = true.
Proof.
  destruct v; simpl; try (split; congruence).
  destruct (jsondec.ParseInt64 d); split; congruence.
Qed.

Lemma storeElements_rejects elems :
  forall old,
    jsondec.storeElements old elems = None <->
    existsb rejectedAsString elems = true.
Proof.
  induction elems as [|e es IH]; intros old; cbn [jsondec.storeElements existsb].
  - split; discriminate.
  - destruct (jsondec.storeString (hd EmptyString old) e) as [x|] eqn:E.
    + assert (R : rejectedAsString e = false).
      { destruct (rejectedAsString e) eqn:R; [|reflexivity].
        apply (storeString_rejects (hd EmptyString old)) in R. congruence. }
      rewrite R. cbn [orb]. rewrite <- (IH (tl old)).
      destruct (jsondec.storeElements (tl old) es); split; congruence.
    + apply storeString_rejects in E. rewrite E. split; reflexivity.
Qed.

Lemma storeStrings_rejects old v :
  jsondec.storeStrings old v = None <-> rejectedAsStrings v = true.
Proof.
  destruct v as [| | | |elems|]; cbn [jsondec.storeStrings rejectedAsStrings];
    try (split; congruence).
  destruct elems as [|e es]; [split; discriminate|].
  rewrite <- (storeElements_rejects (e :: es)
                (match old with None => [] | Some o => jsondec.backing o end)).
  destruct (jsondec.storeElements _ (e :: es)); split; congruence.
Qed.

Lemma option_map_none {A B} (f : A -> B) o : option_map f o = None <-> o = None.
Proof. destruct o; simpl; split; congruence. Qed.

(** Whether a member is stored does not depend on what was stored before. *)
Lemma storeAnalysisMember_rejects a m :
  storeAnalysisMember a m = None <-> rejectedByField m = true.
Proof.
  destruct m as [k v]. unfold storeAnalysisMember, rejectedByField.
  destruct (jsondec.matchesField "score" k);
    [rewrite option_map_none; apply storeInt_rejects|].
  destruct (jsondec.matchesField "composition" k);
    [rewrite option_map_none; apply storeString_rejects|].
  destruct (jsondec.matchesField "lighting" k);
    [rewrite option_map_none; apply storeString_rejects|].
  destruct (jsondec.matchesField "subject" k);
    [rewrite option_map_none; apply storeString_rejects|].
  destruct (jsondec.matchesField "strengths" k);
    [rewrite option_map_none; apply storeStrings_rejects|].
  destruct (jsondec.matchesField "suggestions" k);
    [rewrite option_map_none; apply storeStrings_rejects|].
  split; discriminate.
Qed.

Lemma storeMembers_accepts ms :
  forall a,
    storeMembers storeAnalysisMember a ms = None <->
    existsb rejectedByField ms = true.
Proof.
  induction ms as [|m ms IH]; intros a; cbn [storeMembers existsb].
  - split; discriminate.
  - destruct (storeAnalysisMember a m) as [a'|] eqn:E.
    + assert (R : rejectedByField m = false).
      { destruct (rejectedByField m) eqn:R; [|reflexivity].
        apply (storeAnalysisMember_rejects a) in R. congruence. }
      rewrite R. cbn [orb]. apply IH.
    + apply storeAnalysisMember_rejects in E. rewrite E. split; reflexivity.
Qed.

(** X1. A payload object is decoded if and only if none of its members is
    rejected by the field it names: one member of the wrong type makes
    the whole decoding fail with "failed to parse analysis JSON", and
    nothing but such a member does. *)
Theorem payload_accepted_iff_members_accepted :
  forall members : list (string * json),
    ((forall m, In m members -> rejectedByField m = false) ->
     exists a, analysisOfPayload (JObject members) = Ok a) /\
    (forall m, In m members -> rejectedByField m = true ->
               analysisOfPayload (JObject members) = Err ErrParseJSON).
Proof.
  intros members. unfold analysisOfPayload, decodeAnalysis, decodeStruct.
  pose proof (storeMembers_accepts members zeroAnalysis) as S.
  destruct (storeMembers storeAnalysisMember zeroAnalysis members) as [a|].
  - split.
    + intros _. now exists (validateScore a).
    + intros m I R. assert (E : existsb rejectedByField members = true).
      { apply existsb_exists. now exists m. }
      apply S in E. discriminate.
  - split; [|reflexivity].
    intros H. destruct S as [S _]. specialize (S eq_refl).
    apply existsb_exists in S. destruct S as [m [I R]].
    rewrite (H m I) in R. discriminate.
Qed.

Lemma payload_accepted_iff_members_accepted_witness :
  (exists a, analysisOfPayload
               (JObject [("Score", intLiteral 7); ("mood", JBool true);
                         ("strengths", JArray [JString "Light"; JNull])])
             = Ok a) /\
  analysisOfPayload
    (JObject [("score", intLiteral 7); ("lighting", JArray [])])
  = Err ErrParseJSON.
Proof.
  split.
  - apply (proj1 (payload_accepted_iff_members_accepted _)).
    intros m [<-|[<-|[<-|[]]]]; reflexivity.
  - apply (proj2 (payload_accepted_iff_members_accepted _)
             ("lighting", JArray [])); [right; now left | reflexivity].
Defined.

(** ** Decoding: fields the payload does not name *)

(** A member leaves every field it does not name as it is. *)
Lemma store_member_other_fields a k v a' :
  storeAnalysisMember a (k, v) = Some a' ->
  (jsondec.matchesField "composition" k = false -> Composition a' = Composition a) /\
  (jsondec.matchesField "lighting" k = false -> Lighting a' = Lighting a) /\
  (jsondec.matchesField "subject" k = false -> Subject a' = Subject a) /\
  (jsondec.matchesField "strengths" k = false -> Strengths a' = Strengths a) /\
  (jsondec.matchesField "suggestions" k = false -> Suggestions a' = Suggestions a).
Proof.
  unfold storeAnalysisMember.
  destruct (jsondec.matchesField "score" k);
    [destruct (jsondec.storeInt (Score a) v); cbn [option_map];
     intros E; inversion E; repeat split; reflexivity|].
  destruct (jsondec.matchesField "composition" k) eqn:K1;
    [destruct (jsondec.storeString (Composition a) v); cbn [option_map];
     intros E; inversion E; repeat split; (reflexivity || discriminate)|].
  destruct (jsondec.matchesField "lighting" k) eqn:K2;
    [destruct (jsondec.storeString (Lighting a) v); cbn [option_map];
     intros E; inversion E; repeat split; (reflexivity || discriminate)|].
  destruct (jsondec.matchesField "subject" k) eqn:K3;
    [destruct (jsondec.storeString (Subject a) v); cbn [option_map];
     intros E; inversion E; repeat split; (reflexivity || discriminate)|].
  destruct (jsondec.matchesField "strengths" k) eqn:K4;
    [destruct (jsondec.storeStrings (Strengths a) v); cbn [option_map];
     intros E; inversion E; repeat split; (reflexivity || discriminate)|].
  destruct (jsondec.matchesField "suggestions" k) eqn:K5;
    [destruct (jsondec.storeStrings (Suggestions a) v); cbn [option_map];
     intros E; inversion E; repeat split; (reflexivity || discriminate)|].
  intros E; inversion E; repeat split; reflexivity.
Qed.

Lemma fieldMissing_cons name k v ms :
  fieldMissing name ((k, v) :: ms) ->
  jsondec.matchesField name k = false /\ fieldMissing name ms.
Proof.
  intros H. split; [apply (H k v); now left|].
  intros k' v' I. apply (H k' v'). now right.
Qed.

Lemma store_members_other_fields ms :
  forall a a',
    storeMembers storeAnalysisMember a ms = Some a' ->
    (fieldMissing "composition" ms -> Composition a' = Composition a) /\
    (fieldMissing "lighting" ms -> Lighting a' = Lighting a) /\
    (fieldMissing "subject" ms -> Subject a' = Subject a) /\
    (fieldMissing "strengths" ms -> Strengths a' = Strengths a) /\
    (fieldMissing "suggestions" ms -> Suggestions a' = Suggestions a).
Proof.
  induction ms as [|[k v] ms IH]; intros a a'; cbn [storeMembers].
  - intros E; inversion E; repeat split; reflexivity.
  - destruct (storeAnalysisMember a (k, v)) as [a1|] eqn:E1; [|discriminate].
    intros E. destruct (IH _ _ E) as (I1 & I2 & I3 & I4 & I5).
    destruct (store_member_other_fields _ _ _ _ E1) as (S1 & S2 & S3 & S4 & S5).
    repeat split; intros M; apply fieldMissing_cons in M; destruct M as [M1 M2].
    + now rewrite (I1 M2), (S1 M1).
    + now rewrite (I2 M2), (S2 M1).
    + now rewrite (I3 M2), (S3 M1).
    + now rewrite (I4 M2), (S4 M1).
    + now rewrite (I5 M2), (S5 M1).
Qed.

(** X2. No field but the score is checked for presence: when the payload
    is accepted, a text field that no member names is the empty string in
    the response, and a list field that no member names is the nil slice
    (not an empty list). *)
Theorem missing_fields_are_zero :
  forall (members : list (string * json)) (a : AnalysisResponse),
    analysisOfPayload (JObject members) = Ok a ->
    (fieldMissing "composition" members -> Composition a = EmptyString) /\
    (fieldMissing "lighting" members -> Lighting a = EmptyString) /\
    (fieldMissing "subject" members -> Subject a = EmptyString) /\
    (fieldMissing "strengths" members -> Strengths a = None) /\
    (fieldMissing "suggestions" members -> Suggestions a = None).
Proof.
  intros members a E.
  destruct (analysisOfPayload_ok _ _ E) as (a0 & D & ->).
  unfold decodeAnalysis, decodeStruct in D.
  destruct (store_members_other_fields _ _ _ D) as (S1 & S2 & S3 & S4 & S5).
  cbn [validateScore Composition Lighting Subject Strengths Suggestions].
  repeat split; intros M;
    [rewrite (S1 M) | rewrite (S2 M) | rewrite (S3 M) | rewrite (S4 M)
     | rewrite (S5 M)]; reflexivity.
Qed.

Lemma missing_fields_are_zero_witness :
  Composition
    (validateScore
       {| Score := 7; Composition := EmptyString; Lighting := "Soft.";
          Subject := EmptyString; Strengths := None; Suggestions := None |})
  = EmptyString.
Proof.
  apply (missing_fields_are_zero
           [("score", intLiteral 7); ("lighting", JString "Soft.")]
           _ eq_refl).
  intros k v [E|[E|[]]]; inversion E; reflexivity.
Defined.

(** ** The handler: answers and calls *)

Lemma validateScore_range a : 1 <= Score (validateScore a) <= 10.
Proof. rewrite validateScore_clamp. apply clamp_range. Qed.

Lemma analysisOfJSONText_range parseJSON t a :
  analysisOfJSONText parseJSON t = Ok a -> 1 <= Score a <= 10.
Proof.
  unfold analysisOfJSONText. destruct (parseJSON t) as [p|]; [|discriminate].
  intros E. destruct (analysisOfPayload_ok _ _ E) as (a0 & _ & ->).
  apply validateScore_range.
Qed.

Lemma analysisOfReply_range parseJSON reply a :
  analysisOfReply parseJSON reply = Ok a -> 1 <= Score a <= 10.
Proof.
  unfold analysisOfReply, analysisOfText.
  destruct reply as [[output|]|]; try discriminate.
  destruct (String.eqb (responseTextOf output) EmptyString); [discriminate|].
  destruct (extractJSON (responseTextOf output)) as [t|e]; [|discriminate].
  apply analysisOfJSONText_range.
Qed.

(** X3. Whatever the request, the parser and the inference service are,
    the handler answers with 200, 400 or 500; an answer 200 carries an
    analysis whose score is between 1 and 10, and every other answer
    carries one of four fixed messages: neither the reply of the model
    nor the cause of a failure is passed on to the client. *)
Theorem handler_answers :
  forall parseJSON readBody Converse requestBody,
    let r := fst (analyzeImageHandler parseJSON readBody Converse requestBody) in
    (status r = StatusOK /\
     exists a, body r = AnalysisBody a /\ 1 <= Score a <= 10) \/
    ((status r = StatusBadRequest \/ status r = StatusInternalServerError) /\
     exists msg, body r = ErrorBody msg /\ In msg handlerMessages).
Proof.
  intros parseJSON readBody Converse requestBody. unfold analyzeImageHandler.
  destruct (option_bind (readBody requestBody) decodeRequest) as [req|].
  2: { right. split; [now left|]. eexists. split; [reflexivity|]. now left. }
  destruct (String.eqb (Image req) EmptyString).
  { right. split; [now left|]. eexists. split; [reflexivity|]. right; now left. }
  destruct (base64.DecodeString (cleanImageData (Image req))) as [bytes|] eqn:D.
  2: { right. split; [now left|]. eexists. split; [reflexivity|].
       right; right; now left. }
  unfold analyzeImageWithBedrock. rewrite D.
  destruct (analysisOfReply parseJSON (Converse bytes)) as [a|e] eqn:R.
  - left. split; [reflexivity|]. exists a. split; [reflexivity|].
    exact (analysisOfReply_range _ _ _ R).
  - right. split; [now right|]. eexists. split; [reflexivity|].
    right; right; right; now left.
Qed.

(** X4. The handler calls the inference service at most once, and exactly
    when its answer is not 400; the call carries the bytes that the
    cleaned image data of the request decodes to.  The second decoding
    of the image data, inside [analyzeImageWithBedrock], cannot fail. *)
Theorem handler_calls :
  forall parseJSON readBody Converse requestBody,
    let r := analyzeImageHandler parseJSON readBody Converse requestBody in
    (status (fst r) = StatusBadRequest /\ snd r = []) \/
    (status (fst r) <> StatusBadRequest /\
     exists analysisReq imageBytes,
       option_bind (readBody requestBody) decodeRequest = Some analysisReq /\
       Image analysisReq <> EmptyString /\
       base64.DecodeString (cleanImageData (Image analysisReq))
         = Some imageBytes /\
       snd r = [imageBytes] /\
       (status (fst r) = StatusOK <->
        exists a, analysisOfReply parseJSON (Converse imageBytes) = Ok a)).
Proof.
  intros parseJSON readBody Converse requestBody. unfold analyzeImageHandler.
  destruct (option_bind (readBody requestBody) decodeRequest) as [req|];
    [|left; split; reflexivity].
  destruct (String.eqb_spec (Image req) EmptyString) as [I|I];
    [left; split; reflexivity|].
  destruct (base64.DecodeString (cleanImageData (Image req))) as [bytes|] eqn:D;
    [|left; split; reflexivity].
  unfold analyzeImageWithBedrock. rewrite D. right.
  destruct (analysisOfReply parseJSON (Converse bytes)) as [a|e] eqn:R;
    (split; [discriminate|]); exists req, bytes; rewrite R;
    repeat (split; [assumption || reflexivity|]); split.
  - intros _. now exists a.
  - reflexivity.
  - discriminate.
  - intros [a E]. discriminate.
Qed.

(** ** The image data: cleaning, and what the frontend sends *)

Lemma absent_String c a r : a <> c -> absent c r -> absent c (String a r).
Proof.
  intros N A [|i]; simpl; [intros E; inversion E; contradiction | apply A].
Qed.

(** The pieces of a split hold no separator. *)
Lemma Split_pieces_absent s c :
  forall piece, In piece (strings.Split s c) -> absent c piece.
Proof.
  induction s as [|a r IH]; intros piece; simpl.
  - intros [<-|[]]. apply get_absent_empty.
  - destruct (Ascii.eqb_spec a c) as [E|N].
    + intros [<-|I]; [apply get_absent_empty | now apply IH].
    + destruct (strings.Split r c) as [|h t] eqn:S.
      * intros [<-|[]]. apply absent_String; [assumption | apply get_absent_empty].
      * intros [<-|I].
        -- apply absent_String; [assumption | apply IH; now left].
        -- apply IH. now right.
Qed.

Lemma Split_nonempty s c : strings.Split s c <> [].
Proof.
  destruct s as [|a r]; simpl; [discriminate|].
  destruct (Ascii.eqb a c); [discriminate|].
  destruct (strings.Split r c); discriminate.
Qed.

(** A string is cut at its first separator, if it has one. *)
Lemma first_separator s c :
  absent c s \/
  exists meta rest, s = (meta ++ String c rest)%string /\ absent c meta.
Proof.
  induction s as [|a r IH].
  - left. apply get_absent_empty.
  - destruct (Ascii.eqb_spec a c) as [E|N].
    + right. exists EmptyString, r. split; [now rewrite E | apply get_absent_empty].
    + destruct IH as [A|(meta & rest & -> & A)].
      * left. now apply absent_String.
      * right. exists (String a meta), rest. split; [reflexivity|].
        now apply absent_String.
Qed.

(** The handler's [len(parts) > 1] holds whenever [strings.Contains] does:
    the cleaned image data is the second piece of the split, or the image
    itself when it has no separator. *)
Lemma cleanImageData_cases image :
  (absent "," image /\ cleanImageData image = image /\
   base64Image image = None) \/
  (exists meta rest,
      image = (meta ++ String "," rest)%string /\ absent "," meta /\
      cleanImageData image = hd EmptyString (strings.Split rest ",") /\
      base64Image image = Some (hd EmptyString (strings.Split rest ","))).
Proof.
  destruct (first_separator image ",") as [A|(meta & rest & -> & A)].
  - left. split; [assumption|]. unfold cleanImageData, base64Image.
    rewrite (Contains_absent _ _ A), (Split_absent _ _ A). split; reflexivity.
  - right. exists meta, rest. split; [reflexivity|]. split; [assumption|].
    unfold cleanImageData, base64Image.
    rewrite Contains_present, (Split_first _ _ _ A).
    pose proof (Split_nonempty rest ",") as NE.
    destruct (strings.Split rest ",") as [|h t]; [contradiction|].
    split; [|reflexivity]. cbn [List.length nth hd].
    destruct (Z.ltb_spec 1 (Z.of_nat (S (S (List.length t))))); [reflexivity | lia].
Qed.

(** X5. Whatever the image data is, what the handler keeps of it holds no
    separator, and cleaning it a second time changes nothing. *)
Theorem cleanImageData_separator_free :
  forall image : string,
    absent "," (cleanImageData image) /\
    cleanImageData (cleanImageData image) = cleanImageData image.
Proof.
  intros image.
  assert (A : absent "," (cleanImageData image)).
  { destruct (cleanImageData_cases image)
      as [(A & -> & _)|(meta & rest & _ & _ & -> & _)]; [assumption|].
    apply (Split_pieces_absent rest ",").
    pose proof (Split_nonempty rest ",") as NE.
    destruct (strings.Split rest ","); [contradiction | now left]. }
  split; [assumption|].
  unfold cleanImageData at 1. now rewrite (Contains_absent _ _ A).
Qed.

(** X6. The frontend and the backend agree on the payload of a data URL:
    what [analyzePhoto] sends, the second piece of the split of the data
    URL, is what the handler would have kept of the whole data URL, and
    the handler keeps it as it is.  The frontend has nothing to send
    exactly when the data URL holds no separator. *)
Theorem frontend_payload_kept_by_handler :
  forall resizedImageData : string,
    (forall payload,
        base64Image resizedImageData = Some payload ->
        cleanImageData payload = payload /\
        cleanImageData resizedImageData = payload) /\
    (base64Image resizedImageData = None <-> absent "," resizedImageData).
Proof.
  intros url.
  destruct (cleanImageData_cases url)
    as [(A & C & B)|(meta & rest & E & A & C & B)].
  - split; [intros payload P; rewrite B in P; discriminate|].
    split; [intros _; assumption | intros _; assumption].
  - split.
    + intros payload P. rewrite B in P. inversion P as [P']. rewrite C, P'.
      split; [|reflexivity].
      rewrite <- P', <- C. apply cleanImageData_separator_free.
    + rewrite B. split; [discriminate|].
      intros N. exfalso. apply (N (String.length meta)). rewrite E.
      clear. induction meta; simpl; [reflexivity | assumption].
Qed.

Lemma frontend_payload_kept_by_handler_witness :
  cleanImageData "QUJD" = "QUJD" /\
  cleanImageData "data:image/jpeg;base64,QUJD" = "QUJD".
Proof.
  apply (proj1 (frontend_payload_kept_by_handler "data:image/jpeg;base64,QUJD")).
  reflexivity.
Defined.

(** Well-formed base64 holds no separator. *)
Lemma skipNewlines_absent r :
  absent "," (base64.skipNewlines r) -> absent "," r.
Proof.
  induction r as [|c r IH]; simpl; [trivial|].
  destruct (base64.isNewline c) eqn:N; [|trivial].
  intros A. apply absent_String; [|now apply IH].
  intros ->. discriminate.
Qed.

Lemma decode_absent src :
  forall dbuf out, base64.decode src dbuf = Some out -> absent "," src.
Proof.
  induction src as [|c r IH]; intros dbuf out; [intros _; apply get_absent_empty|].
  cbn [base64.decode].
  destruct (base64.decodeMap c) as [v|] eqn:M.
  - assert (N : c <> ","%char) by (intros ->; discriminate).
    destruct (List.length (dbuf ++ [v]) =? 4)%nat.
    + destruct (base64.decode r []) as [o|] eqn:D; [|discriminate].
      intros _. apply absent_String; [assumption | exact (IH _ _ D)].
    + intros D. apply absent_String; [assumption | exact (IH _ _ D)].
  - destruct (base64.isNewline c) eqn:NL.
    + assert (N : c <> ","%char) by (intros ->; discriminate).
      intros D. apply absent_String; [assumption | exact (IH _ _ D)].
    + destruct (Ascii.eqb_spec c base64.padChar) as [P|P]; [|discriminate].
      assert (N : c <> ","%char) by (rewrite P; discriminate).
      cbn [negb].
      destruct (List.length dbuf) as [|[|[|n]]]; try discriminate.
      * destruct (base64.skipNewlines r) as [|c2 r2] eqn:S1; [discriminate|].
        destruct (Ascii.eqb_spec c2 base64.padChar) as [P2|P2]; [|discriminate].
        cbn [negb].
        destruct (base64.skipNewlines r2) as [|c3 r3] eqn:S2; [|discriminate].
        intros _. apply absent_String; [assumption|].
        apply skipNewlines_absent. rewrite S1.
        apply absent_String; [rewrite P2; discriminate|].
        apply skipNewlines_absent. rewrite S2. apply get_absent_empty.
      * destruct (base64.skipNewlines r) as [|c2 r2] eqn:S1; [|discriminate].
        intros _. apply absent_String; [assumption|].
        apply skipNewlines_absent. rewrite S1. apply get_absent_empty.
Qed.

(** X7. Image data that is well-formed base64, sent without a data-URL
    prefix, is kept as it is: the handler decodes, and passes on, exactly
    what the client sent. *)
Theorem bare_base64_kept_by_handler :
  forall (image : string) (imageBytes : list Byte.byte),
    base64.DecodeString image = Some imageBytes ->
    cleanImageData image = image /\
    base64.DecodeString (cleanImageData image) = Some imageBytes.
Proof.
  intros image imageBytes D.
  assert (C : cleanImageData image = image).
  { unfold cleanImageData.
    now rewrite (Contains_absent _ _ (decode_absent _ _ _ D)). }
  split; [assumption | now rewrite C].
Qed.

Lemma bare_base64_kept_by_handler_witness :
  cleanImageData "QUJD" = "QUJD" /\
  base64.DecodeString (cleanImageData "QUJD")
    = Some [Byte.x41; Byte.x42; Byte.x43].
Proof.
  apply (bare_base64_kept_by_handler "QUJD"). reflexivity.
Defined.

(** ** Extraction: the text handed to the parser *)

Lemma get_None_length s : forall n, get n s = None <-> (String.length s <= n)%nat.
Proof.
  induction s as [|a r IH]; intros [|n]; simpl; split; try lia;
    try discriminate; try reflexivity.
  - intros H. apply IH in H. lia.
  - intros H. apply IH. lia.
Qed.

Lemma get_Some_length s n c : get n s = Some c -> (n < String.length s)%nat.
Proof.
  intros E. destruct (Nat.lt_ge_cases n (String.length s)) as [H|H];
    [assumption|].
  apply get_None_length in H. congruence.
Qed.

Lemma substring_whole s : substring 0 (String.length s) s = s.
Proof. induction s as [|a r IH]; simpl; [reflexivity | now rewrite IH]. Qed.

Lemma substring_length s : forall n m,
  (n + m <= String.length s)%nat -> String.length (substring n m s) = m.
Proof.
  induction s as [|a r IH]; intros [|n] [|m]; simpl; intros H;
    try reflexivity; try lia.
  - rewrite (IH 0%nat m); [reflexivity | lia].
  - apply (IH n 0%nat). lia.
  - apply (IH n (S m)). lia.
Qed.

(** X8. The text that extraction hands to the parser begins with an
    opening brace and ends with a closing brace, so it has at least two
    characters; and extraction applied to it gives it back: nothing is
    cut from a reply that is a JSON object already. *)
Theorem extracted_text_is_braced :
  forall responseText jsonText : string,
    extractJSON responseText = Ok jsonText ->
    get 0 jsonText = Some "{"%char /\
    get (String.length jsonText - 1) jsonText = Some "}"%char /\
    (2 <= String.length jsonText)%nat /\
    extractJSON jsonText = Ok jsonText.
Proof.
  intros s j E.
  destruct (Index_spec s "{") as [[_ A]|[i [_ [F _]]]];
    [rewrite (extractJSON_no_open s A) in E; discriminate|].
  destruct (LastIndex_spec s "}") as [[_ A]|[k [_ [L _]]]];
    [rewrite (extractJSON_no_close s A) in E; discriminate|].
  destruct (Nat.lt_trichotomy i k) as [H|[H|H]].
  2: { exfalso. subst k. destruct F as [F _], L as [L _]. congruence. }
  2: { rewrite (extractJSON_close_before_open s i k F L H) in E. discriminate. }
  rewrite (extractJSON_span s i k F L H) in E. inversion E as [Ej]. clear E.
  pose proof (get_Some_length _ _ _ (proj1 L)) as Lk.
  assert (Len : String.length (substring i (k - i + 1) s) = (k - i + 1)%nat)
    by (apply substring_length; lia).
  set (j' := substring i (k - i + 1) s) in *.
  assert (G0 : get 0 j' = Some "{"%char).
  { unfold j'. rewrite substring_correct1 by lia. exact (proj1 F). }
  assert (G1 : get (k - i) j' = Some "}"%char).
  { unfold j'. rewrite substring_correct1 by lia.
    replace (k - i + i)%nat with k by lia. exact (proj1 L). }
  split; [assumption|]. rewrite Len.
  split; [replace (k - i + 1 - 1)%nat with (k - i)%nat by lia; assumption|].
  split; [lia|].
  assert (F' : first_at "{" j' 0) by (split; [assumption | intros n Hn; lia]).
  assert (L' : last_at "}" j' (k - i)).
  { split; [assumption|]. intros n Hn.
    assert (N : get n j' = None) by (apply get_None_length; lia).
    rewrite N. discriminate. }
  rewrite (extractJSON_span j' 0 (k - i) F' L' ltac:(lia)).
  replace (k - i - 0 + 1)%nat with (String.length j') by lia.
  now rewrite substring_whole.
Qed.

Lemma extracted_text_is_braced_witness :
  get 0 samplePayloadText = Some "{"%char /\
  get (String.length samplePayloadText - 1) samplePayloadText = Some "}"%char /\
  (2 <= String.length samplePayloadText)%nat /\
  extractJSON samplePayloadText = Ok samplePayloadText.
Proof.
  apply (extracted_text_is_braced sampleReply samplePayloadText). reflexivity.
Defined.

Local Open Scope Q_scope.

Lemma Qmult_le_cancel_r (x y z : Q) : 0 < z -> x * z <= y * z -> x <= y.
Proof. intros Hz H. apply (Qmult_le_r _ _ z); assumption. Qed.

Lemma Qmult_lt_cancel_r (x y z : Q) : 0 < z -> x * z < y * z -> x < y.
Proof. intros Hz H. apply (Qmult_lt_r _ _ z); assumption. Qed.

Lemma Qmult_eq_cancel_r (x y z : Q) : 0 < z -> x * z == y * z -> x == y.
Proof.
  intros Hz H. apply Qle_antisym; apply (Qmult_le_cancel_r _ _ z); try assumption;
    rewrite H; apply Qle_refl.
Qed.

Lemma Qmult_gt_one (x y : Q) : 0 < x -> 1 < y -> x < x * y.
Proof. intros. nra. Qed.

Lemma Qmult_le_one (x y : Q) : 0 < x -> y <= 1 -> x * y <= x.
Proof. intros. nra. Qed.

(** The best fit is unique. *)
Lemma bestFit_unique cols rows mw mh ws hs ws' hs' :
  (0 < cols)%Z -> (0 < rows)%Z ->
  bestFit cols rows mw mh ws hs -> bestFit cols rows mw mh ws' hs' ->
  ws == ws' /\ hs == hs'.
Proof.
  intros Hc Hr (R & Pw & Ph & Bw & Bc & Bh & Br & T)
         (R' & Pw' & Ph' & Bw' & Bc' & Bh' & Br' & T').
  rewrite Zlt_Qlt in Hc, Hr. change (inject_Z 0) with 0 in Hc, Hr.
  set (a := inject_Z cols) in *. set (b := inject_Z rows) in *.
  set (p := inject_Z mw) in *. set (q := inject_Z mh) in *.
  assert (M1 : ws <= ws' -> hs <= hs').
  { intros L. apply (Qmult_le_cancel_r _ _ a); [assumption|].
    rewrite <- R, <- R'. nra. }
  assert (M2 : ws' <= ws -> hs' <= hs).
  { intros L. apply (Qmult_le_cancel_r _ _ a); [assumption|].
    rewrite <- R, <- R'. nra. }
  assert (M3 : hs <= hs' -> ws <= ws').
  { intros L. apply (Qmult_le_cancel_r _ _ b); [assumption|].
    rewrite R, R'. nra. }
  assert (M4 : hs' <= hs -> ws' <= ws).
  { intros L. apply (Qmult_le_cancel_r _ _ b); [assumption|].
    rewrite R, R'. nra. }
  assert (L1 : ws' <= ws).
  { destruct T as [T|[T|[T _]]]; [lra | apply M4; lra | lra]. }
  assert (L2 : ws <= ws').
  { destruct T' as [T'|[T'|[T' _]]]; [lra | apply M3; lra | lra]. }
  split; [lra|]. apply Qle_antisym; [apply M1 | apply M2]; assumption.
Qed.

(** The four shapes of a best fit. *)
Lemma bestFit_width_first cols rows mw mh hs :
  (0 < cols)%Z -> (0 < rows)%Z -> (0 < mw)%Z ->
  hs * inject_Z cols == inject_Z (Z.min mw cols) * inject_Z rows ->
  hs <= inject_Z mh ->
  bestFit cols rows mw mh (inject_Z (Z.min mw cols)) hs.
Proof.
  intros Hc Hr Hw E B.
  assert (Hn : (0 < Z.min mw cols)%Z) by lia.
  assert (Nw : (Z.min mw cols <= mw)%Z) by lia.
  assert (Nc : (Z.min mw cols <= cols)%Z) by lia.
  rewrite Zlt_Qlt in Hc, Hr, Hn. rewrite Zle_Qle in Nw, Nc.
  change (inject_Z 0) with 0 in *.
  assert (Ph : 0 < hs).
  { apply (Qmult_lt_cancel_r _ _ (inject_Z cols)); [assumption|].
    rewrite E. nra. }
  assert (Bh : hs <= inject_Z rows).
  { apply (Qmult_le_cancel_r _ _ (inject_Z cols)); [assumption|].
    rewrite E. nra. }
  unfold bestFit. repeat (split; [first [assumption | now rewrite E]|]).
  destruct (Z.min_spec mw cols) as [[_ M]|[_ M]].
  - left. now rewrite M.
  - right; right. split; [now rewrite M|].
    apply (Qmult_eq_cancel_r _ _ (inject_Z cols)); [assumption|].
    rewrite E, M. ring.
Qed.

Lemma bestFit_height_first cols rows mw mh ws :
  (0 < cols)%Z -> (0 < rows)%Z -> (0 < mh)%Z ->
  ws * inject_Z rows == inject_Z (Z.min mh rows) * inject_Z cols ->
  ws <= inject_Z mw ->
  bestFit cols rows mw mh ws (inject_Z (Z.min mh rows)).
Proof.
  intros Hc Hr Hh E B.
  assert (Hn : (0 < Z.min mh rows)%Z) by lia.
  assert (Nh : (Z.min mh rows <= mh)%Z) by lia.
  assert (Nr : (Z.min mh rows <= rows)%Z) by lia.
  rewrite Zlt_Qlt in Hc, Hr, Hn. rewrite Zle_Qle in Nh, Nr.
  change (inject_Z 0) with 0 in *.
  assert (Pw : 0 < ws).
  { apply (Qmult_lt_cancel_r _ _ (inject_Z rows)); [assumption|].
    rewrite E. nra. }
  assert (Bw : ws <= inject_Z cols).
  { apply (Qmult_le_cancel_r _ _ (inject_Z rows)); [assumption|].
    rewrite E. nra. }
  unfold bestFit. repeat (split; [first [assumption | now rewrite E]|]).
  destruct (Z.min_spec mh rows) as [[_ M]|[_ M]].
  - right; left. now rewrite M.
  - right; right. split; [|now rewrite M].
    apply (Qmult_eq_cancel_r _ _ (inject_Z rows)); [assumption|].
    rewrite E, M. ring.
Qed.

Lemma bestFit_height_bound cols rows mw mh ws :
  (0 < cols)%Z -> (0 < rows)%Z -> (0 < mh)%Z ->
  ws * inject_Z rows == inject_Z mh * inject_Z cols ->
  ws <= inject_Z (Z.min mw cols) ->
  bestFit cols rows mw mh ws (inject_Z mh).
Proof.
  intros Hc Hr Hh E B.
  assert (Nw : (Z.min mw cols <= mw)%Z) by lia.
  assert (Nc : (Z.min mw cols <= cols)%Z) by lia.
  rewrite Zlt_Qlt in Hc, Hr, Hh. rewrite Zle_Qle in Nw, Nc.
  change (inject_Z 0) with 0 in *.
  assert (Pw : 0 < ws).
  { apply (Qmult_lt_cancel_r _ _ (inject_Z rows)); [assumption|].
    rewrite E. nra. }
  assert (Bh : inject_Z mh <= inject_Z rows).
  { apply (Qmult_le_cancel_r _ _ (inject_Z cols)); [assumption|].
    rewrite <- E. nra. }
  unfold bestFit. split; [assumption|]. split; [assumption|].
  split; [assumption|]. split; [lra|]. split; [lra|].
  split; [apply Qle_refl|]. split; [assumption|].
  right; left. reflexivity.
Qed.

Lemma bestFit_width_bound cols rows mw mh hs :
  (0 < cols)%Z -> (0 < rows)%Z -> (0 < mw)%Z ->
  hs * inject_Z cols == inject_Z mw * inject_Z rows ->
  hs <= inject_Z (Z.min mh rows) ->
  bestFit cols rows mw mh (inject_Z mw) hs.
Proof.
  intros Hc Hr Hw E B.
  assert (Nh : (Z.min mh rows <= mh)%Z) by lia.
  assert (Nr : (Z.min mh rows <= rows)%Z) by lia.
  rewrite Zlt_Qlt in Hc, Hr, Hw. rewrite Zle_Qle in Nh, Nr.
  change (inject_Z 0) with 0 in *.
  assert (Ph : 0 < hs).
  { apply (Qmult_lt_cancel_r _ _ (inject_Z cols)); [assumption|].
    rewrite E. nra. }
  assert (Bw : inject_Z mw <= inject_Z cols).
  { apply (Qmult_le_cancel_r _ _ (inject_Z rows)); [assumption|].
    rewrite <- E. nra. }
  unfold bestFit. split; [now rewrite E|]. split; [assumption|].
  split; [assumption|]. split; [apply Qle_refl|]. split; [assumption|].
  split; [lra|]. split; [lra|].
  left. reflexivity.
Qed.


(** Steps of the comparison of the computed dimensions with the exact
    ones. *)
Lemma orient_landscape (a b A : Q) :
  1 <= a <= 2147483647 -> 1 <= b -> A * b <= (1 + u53) * a -> 1 < A ->
  b < a + 1.
Proof. unfold u53. intros Ha Hb E V. nra. Qed.

Lemma orient_portrait (a b A : Q) :
  1 <= a <= 2147483647 -> 1 <= b -> (1 - u53) * a <= A * b -> A <= 1 ->
  a < b + 1.
Proof. unfold u53. intros Ha Hb E V. nra. Qed.

Lemma ideal_pos (x a n b : Q) :
  0 < a -> 0 < n -> 0 < b -> x * a == n * b -> 0 < x.
Proof.
  intros Ha Hn Hb E. apply (Qmult_lt_cancel_r _ _ a); [assumption|].
  rewrite E. nra.
Qed.

Lemma ideal_le (x a n b : Q) :
  0 < a -> 0 < b -> x * a == n * b -> n <= a -> x <= b.
Proof.
  intros Ha Hb E L. apply (Qmult_le_cancel_r _ _ a); [assumption|].
  rewrite E. nra.
Qed.

Lemma ideal_le_first (x a n b : Q) :
  0 < a -> 0 <= n -> x * a == n * b -> b <= a -> x <= n.
Proof.
  intros Ha Hn E L. apply (Qmult_le_cancel_r _ _ a); [assumption|].
  rewrite E. nra.
Qed.

Lemma cross_le (a b n q x y c d : Q) :
  0 < a -> 0 < b -> x * a == n * b -> y * b == q * a ->
  c * x <= d * q -> c * n <= d * y.
Proof.
  intros Ha Hb Ex Ey L. apply (Qmult_le_cancel_r _ _ b); [assumption|].
  rewrite <- !Qmult_assoc, Ey, <- Ex, !Qmult_assoc.
  apply Qmult_le_compat_r; lra.
Qed.

Lemma cross_ge (a b n q x y c d : Q) :
  0 < a -> 0 < b -> x * a == n * b -> y * b == q * a ->
  d * q <= c * x -> d * y <= c * n.
Proof.
  intros Ha Hb Ex Ey L. apply (Qmult_le_cancel_r _ _ b); [assumption|].
  rewrite <- !Qmult_assoc, Ey, <- Ex, !Qmult_assoc.
  apply Qmult_le_compat_r; lra.
Qed.

Lemma exceed_scaled (q h A n : Q) :
  0 < A -> q < h -> h * A <= (1 + u53) * n -> q * A < (1 + u53) * n.
Proof. intros HA L E. nra. Qed.

Lemma bound_from_height (ws a b q A n : Q) :
  0 < a -> 0 < b -> 0 < q -> 0 < A -> n <= 2147483647 ->
  ws * b == q * a -> q * A < (1 + u53) * n -> (1 - u53) * a <= A * b ->
  ws <= 4294967296.
Proof.
  unfold u53. intros Ha Hb Hq HA Hn E S EA.
  apply (Qmult_le_cancel_r _ _ b); [assumption|]. rewrite E.
  assert (S1 : q * ((1 - (1 # 9007199254740992)) * a) <= q * (A * b)) by nra.
  assert (S2 : q * A * b <= (1 + (1 # 9007199254740992)) * n * b) by nra.
  assert (S3 : n * b <= 2147483647 * b) by nra.
  lra.
Qed.

Lemma bound_from_width (hs a b p A n w : Q) :
  0 < a -> 0 < b -> 0 < p -> 0 < A -> 0 < n <= 2147483647 ->
  hs * a == p * b -> p < w -> w <= (1 + u53) * (n * A) ->
  A * b <= (1 + u53) * a ->
  hs <= 4294967296.
Proof.
  unfold u53. intros Ha Hb Hp HA Hn E V EW EA.
  apply (Qmult_le_cancel_r _ _ a); [assumption|]. rewrite E.
  assert (S1 : p * b <= (1 + (1 # 9007199254740992)) * (n * A) * b) by nra.
  assert (S2 : n * (A * b) <= n * ((1 + (1 # 9007199254740992)) * a)) by nra.
  assert (S3 : n * a <= 2147483647 * a) by nra.
  lra.
Qed.

Local Close Scope Q_scope.

Section TargetSizeBestFit.

Variables cols rows mw mh : Z.
Hypothesis Hc : 0 < cols < 2 ^ 31.
Hypothesis Hr : 0 < rows < 2 ^ 31.
Hypothesis Hw : 0 < mw < 2 ^ 31.
Hypothesis Hh : 0 < mh < 2 ^ 31.

(** The four paths of [calculateTargetSize] again, against the best fit:
    on each path both dimensions are roundings of the best fit, and the
    path taken tells which dimension is the larger one. *)
Lemma calculateTargetSize_best_fit :
  exists (W H : Z) (ws hs : Q),
    JS.toZ (width (calculateTargetSize (JS.ofZ cols) (JS.ofZ rows)
                     (JS.ofZ mw) (JS.ofZ mh))) = Some W /\
    JS.toZ (height (calculateTargetSize (JS.ofZ cols) (JS.ofZ rows)
                      (JS.ofZ mw) (JS.ofZ mh))) = Some H /\
    bestFit cols rows mw mh ws hs /\
    roundingOf W ws /\ roundingOf H hs /\
    ((rows <= cols /\ H <= W) \/ (cols <= rows /\ W <= H)).
Proof.
  destruct (dim_spec cols Hc) as (Fa & Va & Ta & Ra).
  destruct (dim_spec rows Hr) as (Fb & Vb & Tb & Rb).
  destruct (dim_spec mw Hw) as (Fp & Vp & Tp & Rp).
  destruct (dim_spec mh Hh) as (Fq & Vq & Tq & Rq).
  destruct (dim_spec 1 ltac:(split; reflexivity)) as (F1 & V1 & _ & _).
  change (inject_Z 1) with 1%Q in V1.
  assert (Pc : 0 < cols) by lia. assert (Pr : 0 < rows) by lia.
  assert (Pw : 0 < mw) by lia. assert (Ph : 0 < mh) by lia.
  unfold calculateTargetSize.
  destruct (div_spec (JS.ofZ cols) (JS.ofZ rows) Fa Fb ltac:(lra) ltac:(lra))
    as (FA & PA & EA).
  set (Af := JS.div (JS.ofZ cols) (JS.ofZ rows)) in *.
  rewrite Va, Vb in EA.
  pose proof (bestFit_width_first cols rows mw mh) as BF1.
  pose proof (bestFit_height_first cols rows mw mh) as BF2.
  pose proof (bestFit_height_bound cols rows mw mh) as BF3.
  pose proof (bestFit_width_bound cols rows mw mh) as BF4.
  unfold roundingOf.
  set (a := inject_Z cols) in *. set (b := inject_Z rows) in *.
  set (p := inject_Z mw) in *. set (q := inject_Z mh) in *.
  set (A := JS.value Af) in *.
  pose proof (aspect_bounds a b A Ra Rb PA EA) as RA.
  assert (Pa : (0 < a)%Q) by lra. assert (Pb : (0 < b)%Q) by lra.
  assert (Pp : (0 < p)%Q) by lra. assert (Pq : (0 < q)%Q) by lra.
  destruct (gt_spec Af (JS.ofZ 1) FA F1) as [[G V]|[G V]]; rewrite G;
    fold A in V; rewrite V1 in V.
  - (* landscape *)
    assert (Or : rows <= cols).
    { apply int_lt_succ. fold a b.
      apply (orient_landscape a b A); [assumption | lra | lra | assumption]. }
    assert (Oq : (b <= a)%Q) by (unfold a, b; now rewrite <- Zle_Qle).
    rewrite (Math_min_dim mw cols Hw Hc).
    set (n0 := Z.min mw cols) in *.
    assert (Hn0 : 0 < n0 < 2 ^ 31) by (unfold n0; lia).
    destruct (dim_spec n0 Hn0) as (Fn & Vn & Tn & Rn).
    assert (Na : (inject_Z n0 <= a)%Q) by (unfold a; rewrite <- Zle_Qle; unfold n0; lia).
    assert (Np : (inject_Z n0 <= p)%Q) by (unfold p; rewrite <- Zle_Qle; unfold n0; lia).
    set (n := inject_Z n0) in *.
    assert (Pn : (0 < n)%Q) by lra.
    destruct (div_spec (JS.ofZ n0) Af Fn FA ltac:(lra) ltac:(fold A; lra))
      as (FH & PH & EH).
    set (hf := JS.div (JS.ofZ n0) Af) in *. fold A in EH. rewrite Vn in EH.
    set (h := JS.value hf) in *.
    set (hs := (n * b / a)%Q).
    assert (Ehs : (hs * a == n * b)%Q) by (unfold hs; field; lra).
    pose proof (ideal_pos hs a n b Pa Pn Pb Ehs) as Phs.
    pose proof (ideal_le hs a n b Pa Pb Ehs Na) as Lhb.
    pose proof (ideal_le_first hs a n b Pa ltac:(lra) Ehs Oq) as Lhs.
    assert (Bhs : (0 <= hs <= 4294967296)%Q) by lra.
    destruct (quotient_chain a b A n h hs) as [Q1 Q2]; try assumption; try lra.
    pose proof (near_ideal h hs Q1 Q2 Bhs) as [N1 N2].
    set (ws := (q * a / b)%Q).
    assert (Ews : (ws * b == q * a)%Q) by (unfold ws; field; lra).
    pose proof (ideal_pos ws b q a Pb Pq Pa Ews) as Pws.
    destruct (gt_spec hf (JS.ofZ mh) FH Fq) as [[G2 V2]|[G2 V2]]; rewrite G2;
      fold h in V2; rewrite Vq in V2.
    + (* the height exceeds the bound: derive the width from the height *)
      destruct (mul_spec (JS.ofZ mh) Af Fq FA ltac:(lra) ltac:(fold A; lra))
        as (FW & PW & EW).
      set (wf := JS.mul (JS.ofZ mh) Af) in *. fold A in EW. rewrite Vq in EW.
      set (w := JS.value wf) in *.
      pose proof (exceed_scaled q h A n PA V2 (proj2 EH)) as S.
      assert (W1 : (w < n + (1 # 1048576))%Q) by (unfold u53 in *; lra).
      assert (Bw : (w < 4503599627370496)%Q) by lra.
      destruct (Math_round_spec wf FW Bw) as (k & Tk & K0 & K1 & K2).
      fold w in K1, K2.
      assert (Bws : (0 <= ws <= 4294967296)%Q).
      { split; [lra|].
        apply (bound_from_height ws a b q A n); try assumption; try lra. }
      destruct (product_chain a b A q w ws) as [Q3 Q4]; try assumption; try lra.
      pose proof (near_ideal2 w ws (conj Q3 Q4) Bws) as [N3 N4].
      assert (Ow : mh <= k).
      { apply int_lt_succ. fold q.
        pose proof (Qmult_gt_one q A Pq V). unfold u53 in *. lra. }
      exists k, mh. cbn [width height].
      destruct (Qlt_le_dec hs q) as [C|C].
      * (* the exact height is within the bound: the best fit is width first *)
        exists n, hs. split; [exact Tk|]. split; [apply Math_round_dim; assumption|].
        split; [apply BF1; try assumption; lra|].
        pose proof (cross_le a b n q hs ws 1 1 Pa Pb Ehs Ews ltac:(lra)) as Lw.
        fold q. split; [split; lra|]. split; [split; lra|].
        left. split; assumption.
      * exists ws, q. split; [exact Tk|]. split; [apply Math_round_dim; assumption|].
        pose proof (cross_ge a b n q hs ws 1 1 Pa Pb Ehs Ews ltac:(lra)) as Lw.
        split; [apply BF3; try assumption; lra|].
        fold q. split; [split; lra|]. split; [split; lra|].
        left. split; assumption.
    + (* the height fits *)
      assert (Bh : (h < 4503599627370496)%Q) by lra.
      destruct (Math_round_spec hf FH Bh) as (k & Tk & K0 & K1 & K2). fold h in K1, K2.
      assert (Ow : k <= n0) by (apply int_lt_succ; fold n; lra).
      exists n0, k. cbn [width height].
      destruct (Qlt_le_dec q hs) as [C|C].
      * (* the exact height exceeds the bound: the best fit is the bound *)
        exists ws, q. split; [apply Math_round_dim; assumption|]. split; [exact Tk|].
        pose proof (cross_ge a b n q hs ws 1 1 Pa Pb Ehs Ews ltac:(lra)) as Lw.
        split; [apply BF3; try assumption; lra|].
        pose proof (cross_le a b n q hs ws (1 - u53) (1 + u53) Pa Pb Ehs Ews
                      ltac:(unfold u53 in *; lra)) as Cl.
        fold n. split; [split; unfold u53 in *; lra|]. split; [split; lra|].
        left. split; assumption.
      * exists n, hs. split; [apply Math_round_dim; assumption|]. split; [exact Tk|].
        split; [apply BF1; try assumption; lra|].
        fold n. split; [split; lra|]. split; [split; lra|].
        left. split; assumption.
  - (* portrait *)
    assert (Or : cols <= rows).
    { apply int_lt_succ. fold a b.
      apply (orient_portrait a b A); [assumption | lra | lra | assumption]. }
    assert (Oq : (a <= b)%Q) by (unfold a, b; now rewrite <- Zle_Qle).
    rewrite (Math_min_dim mh rows Hh Hr).
    set (n0 := Z.min mh rows) in *.
    assert (Hn0 : 0 < n0 < 2 ^ 31) by (unfold n0; lia).
    destruct (dim_spec n0 Hn0) as (Fn & Vn & Tn & Rn).
    assert (Nb : (inject_Z n0 <= b)%Q) by (unfold b; rewrite <- Zle_Qle; unfold n0; lia).
    assert (Nq : (inject_Z n0 <= q)%Q) by (unfold q; rewrite <- Zle_Qle; unfold n0; lia).
    set (n := inject_Z n0) in *.
    assert (Pn : (0 < n)%Q) by lra.
    destruct (mul_spec (JS.ofZ n0) Af Fn FA ltac:(lra) ltac:(fold A; lra))
      as (FW & PW & EW).
    set (wf := JS.mul (JS.ofZ n0) Af) in *. fold A in EW. rewrite Vn in EW.
    set (w := JS.value wf) in *.
    set (ws := (n * a / b)%Q).
    assert (Ews : (ws * b == n * a)%Q) by (unfold ws; field; lra).
    pose proof (ideal_pos ws b n a Pb Pn Pa Ews) as Pws.
    pose proof (ideal_le ws b n a Pb Pa Ews Nb) as Lwa.
    pose proof (ideal_le_first ws b n a Pb ltac:(lra) Ews Oq) as Lws.
    assert (Bws : (0 <= ws <= 4294967296)%Q) by lra.
    destruct (product_chain a b A n w ws) as [Q1 Q2]; try assumption; try lra.
    pose proof (near_ideal2 w ws (conj Q1 Q2) Bws) as [N1 N2].
    set (hs := (p * b / a)%Q).
    assert (Ehs : (hs * a == p * b)%Q) by (unfold hs; field; lra).
    pose proof (ideal_pos hs a p b Pa Pp Pb Ehs) as Phs.
    destruct (gt_spec wf (JS.ofZ mw) FW Fp) as [[G2 V2]|[G2 V2]]; rewrite G2;
      fold w in V2; rewrite Vp in V2.
    + (* the width exceeds the bound: derive the height from the width *)
      destruct (div_spec (JS.ofZ mw) Af Fp FA ltac:(lra) ltac:(fold A; lra))
        as (FH & PH & EH).
      set (hf := JS.div (JS.ofZ mw) Af) in *. fold A in EH. rewrite Vp in EH.
      set (h := JS.value hf) in *.
      assert (S : (h * A < (1 + u53) * ((1 + u53) * n) * A)%Q)
        by (unfold u53 in *; lra).
      assert (S' : (h < (1 + u53) * ((1 + u53) * n))%Q)
        by (apply (Qmult_lt_r _ _ A); assumption).
      assert (H1 : (h < n + (1 # 1048576))%Q) by (unfold u53 in *; lra).
      assert (Bh : (h < 4503599627370496)%Q) by lra.
      destruct (Math_round_spec hf FH Bh) as (k & Tk & K0 & K1 & K2).
      fold h in K1, K2.
      assert (Bhs : (0 <= hs <= 4294967296)%Q).
      { split; [lra|].
        apply (bound_from_width hs a b p A n w); try assumption; try lra. }
      destruct (quotient_chain a b A p h hs) as [Q3 Q4]; try assumption; try lra.
      pose proof (near_ideal h hs Q3 Q4 Bhs) as [N3 N4].
      assert (Ow : mw <= k).
      { apply int_lt_succ. fold p.
        pose proof (Qmult_le_one h A PH V). unfold u53 in *. lra. }
      exists mw, k. cbn [width height].
      destruct (Qlt_le_dec ws p) as [C|C].
      * (* the exact width is within the bound: the best fit is height first *)
        exists ws, n. split; [apply Math_round_dim; assumption|]. split; [exact Tk|].
        split; [apply BF2; try assumption; lra|].
        pose proof (cross_le b a n p ws hs 1 1 Pb Pa Ews Ehs ltac:(lra)) as Lh.
        fold p. split; [split; lra|]. split; [split; lra|].
        right. split; assumption.
      * exists p, hs. split; [apply Math_round_dim; assumption|]. split; [exact Tk|].
        pose proof (cross_ge b a n p ws hs 1 1 Pb Pa Ews Ehs ltac:(lra)) as Lh.
        split; [apply BF4; try assumption; lra|].
        fold p. split; [split; lra|]. split; [split; lra|].
        right. split; assumption.
    + (* the width fits *)
      assert (Bw : (w < 4503599627370496)%Q) by lra.
      destruct (Math_round_spec wf FW Bw) as (k & Tk & K0 & K1 & K2).
      fold w in K1, K2.
      assert (Ow : k <= n0) by (apply int_lt_succ; fold n; lra).
      exists k, n0. cbn [width height].
      destruct (Qlt_le_dec p ws) as [C|C].
      * (* the exact width exceeds the bound: the best fit is the bound *)
        exists p, hs. split; [exact Tk|]. split; [apply Math_round_dim; assumption|].
        pose proof (cross_ge b a n p ws hs 1 1 Pb Pa Ews Ehs ltac:(lra)) as Lh.
        split; [apply BF4; try assumption; lra|].
        pose proof (cross_le b a n p ws hs ((1 - u53) * (1 - u53)) 1 Pb Pa Ews Ehs
                      ltac:(unfold u53 in *; lra)) as Cl.
        fold n. split; [split; lra|]. split; [split; unfold u53 in *; lra|].
        right. split; assumption.
      * exists ws, n. split; [exact Tk|]. split; [apply Math_round_dim; assumption|].
        split; [apply BF2; try assumption; lra|].
        fold n. split; [split; lra|]. split; [split; lra|].
        right. split; assumption.
Qed.

End TargetSizeBestFit.

(** ** The target size and the best fit *)

Lemma roundingOf_integer W n v :
  roundingOf W v -> (v == inject_Z n)%Q -> W = n.
Proof.
  unfold roundingOf. intros [L U] E. rewrite E in L, U.
  assert (W <= n) by (apply int_lt_succ; lra).
  assert (n <= W) by (apply int_lt_succ; lra). lia.
Qed.

Lemma roundingOf_le W n v :
  roundingOf W v -> (v <= inject_Z n)%Q -> W <= n.
Proof.
  unfold roundingOf. intros [L U] E. apply int_lt_succ. lra.
Qed.

Lemma roundingOf_pos W v : roundingOf W v -> (1 <= v)%Q -> 1 <= W.
Proof.
  unfold roundingOf. intros [L U] E.
  assert (0 < W); [|lia]. rewrite Zlt_Qlt. change (inject_Z 0) with 0%Q. lra.
Qed.

(** X9. For an image and bounds of positive dimensions (below 2^31) the
    target size is the best fit, rounded: the largest size of the aspect
    ratio of the image that exceeds neither the bounds nor the image,
    each dimension rounded to a pixel (off by at most a half, up to the
    floating-point error, which is below 2^-16). *)
Theorem target_size_rounds_best_fit :
  forall cols rows mw mh : Z,
    0 < cols < 2 ^ 31 -> 0 < rows < 2 ^ 31 ->
    0 < mw < 2 ^ 31 -> 0 < mh < 2 ^ 31 ->
    exists (W H : Z) (ws hs : Q),
      JS.toZ (width (calculateTargetSize (JS.ofZ cols) (JS.ofZ rows)
                       (JS.ofZ mw) (JS.ofZ mh))) = Some W /\
      JS.toZ (height (calculateTargetSize (JS.ofZ cols) (JS.ofZ rows)
                        (JS.ofZ mw) (JS.ofZ mh))) = Some H /\
      bestFit cols rows mw mh ws hs /\
      (Qabs (inject_Z W - ws) <= (1 # 2) + (1 # 65536))%Q /\
      (Qabs (inject_Z H - hs) <= (1 # 2) + (1 # 65536))%Q.
Proof.
  intros cols rows mw mh Hc Hr Hw Hh.
  destruct (calculateTargetSize_best_fit cols rows mw mh Hc Hr Hw Hh)
    as (W & H & ws & hs & TW & TH & B & RW & RH & _).
  exists W, H, ws, hs. repeat (split; [assumption|]).
  unfold roundingOf in RW, RH.
  split; apply Qabs_Qle_condition; split; lra.
Qed.

Lemma target_size_rounds_best_fit_witness :
  exists (W H : Z) (ws hs : Q),
    JS.toZ (width (calculateTargetSize (JS.ofZ 1920) (JS.ofZ 1080)
                     (JS.ofZ 512) (JS.ofZ 384))) = Some W /\
    JS.toZ (height (calculateTargetSize (JS.ofZ 1920) (JS.ofZ 1080)
                      (JS.ofZ 512) (JS.ofZ 384))) = Some H /\
    bestFit 1920 1080 512 384 ws hs /\
    (Qabs (inject_Z W - ws) <= (1 # 2) + (1 # 65536))%Q /\
    (Qabs (inject_Z H - hs) <= (1 # 2) + (1 # 65536))%Q.
Proof.
  apply (target_size_rounds_best_fit 1920 1080 512 384); split; reflexivity.
Defined.

(** X10. The target size never exceeds the image, whatever its size, nor
    the bounds, and it is tight: the width is the smaller of the bound
    and the width of the image, or the height is the smaller of the
    bound and the height of the image. *)
Theorem target_size_never_upscales :
  forall cols rows mw mh : Z,
    0 < cols < 2 ^ 31 -> 0 < rows < 2 ^ 31 ->
    0 < mw < 2 ^ 31 -> 0 < mh < 2 ^ 31 ->
    exists W H : Z,
      JS.toZ (width (calculateTargetSize (JS.ofZ cols) (JS.ofZ rows)
                       (JS.ofZ mw) (JS.ofZ mh))) = Some W /\
      JS.toZ (height (calculateTargetSize (JS.ofZ cols) (JS.ofZ rows)
                        (JS.ofZ mw) (JS.ofZ mh))) = Some H /\
      W <= cols /\ H <= rows /\ W <= mw /\ H <= mh /\
      (W = Z.min mw cols \/ H = Z.min mh rows).
Proof.
  intros cols rows mw mh Hc Hr Hw Hh.
  destruct (calculateTargetSize_best_fit cols rows mw mh Hc Hr Hw Hh)
    as (W & H & ws & hs & TW & TH & B & RW & RH & _).
  destruct B as (R & Pw & Ph & Bw & Bc & Bh & Br & T).
  pose proof (roundingOf_le W cols ws RW Bc) as L1.
  pose proof (roundingOf_le H rows hs RH Br) as L2.
  pose proof (roundingOf_le W mw ws RW Bw) as L3.
  pose proof (roundingOf_le H mh hs RH Bh) as L4.
  exists W, H. repeat (split; [assumption|]).
  destruct T as [T|[T|[T _]]].
  - left. rewrite (roundingOf_integer W mw ws RW T) in *. lia.
  - right. rewrite (roundingOf_integer H mh hs RH T) in *. lia.
  - left. rewrite (roundingOf_integer W cols ws RW T) in *. lia.
Qed.

Lemma target_size_never_upscales_witness :
  exists W H : Z,
    JS.toZ (width (calculateTargetSize (JS.ofZ 300) (JS.ofZ 4000)
                     (JS.ofZ 800) (JS.ofZ 600))) = Some W /\
    JS.toZ (height (calculateTargetSize (JS.ofZ 300) (JS.ofZ 4000)
                      (JS.ofZ 800) (JS.ofZ 600))) = Some H /\
    W <= 300 /\ H <= 4000 /\ W <= 800 /\ H <= 600 /\
    (W = Z.min 800 300 \/ H = Z.min 600 4000).
Proof.
  apply (target_size_never_upscales 300 4000 800 600); split; reflexivity.
Defined.

(** X11. The target size keeps the orientation of the image: a landscape
    image gets a target at least as wide as high, a portrait image one at
    least as high as wide, and a square image a square target. *)
Theorem target_size_keeps_orientation :
  forall cols rows mw mh : Z,
    0 < cols < 2 ^ 31 -> 0 < rows < 2 ^ 31 ->
    0 < mw < 2 ^ 31 -> 0 < mh < 2 ^ 31 ->
    exists W H : Z,
      JS.toZ (width (calculateTargetSize (JS.ofZ cols) (JS.ofZ rows)
                       (JS.ofZ mw) (JS.ofZ mh))) = Some W /\
      JS.toZ (height (calculateTargetSize (JS.ofZ cols) (JS.ofZ rows)
                        (JS.ofZ mw) (JS.ofZ mh))) = Some H /\
      (rows < cols -> H <= W) /\ (cols < rows -> W <= H) /\
      (cols = rows -> W = H).
Proof.
  intros cols rows mw mh Hc Hr Hw Hh.
  destruct (calculateTargetSize_best_fit cols rows mw mh Hc Hr Hw Hh)
    as (W & H & ws & hs & TW & TH & B & RW & RH & O).
  exists W, H. repeat (split; [assumption|]).
  split; [intros L; destruct O as [[_ O]|[O _]]; [assumption | lia]|].
  split; [intros L; destruct O as [[O _]|[_ O]]; [lia | assumption]|].
  intros E. subst rows.
  destruct B as (R & Pw & Ph & Bw & Bc & Bh & Br & T).
  assert (Pa : (0 < inject_Z cols)%Q).
  { rewrite <- (Zlt_Qlt 0). lia. }
  assert (S : (ws == hs)%Q)
    by (apply (Qmult_eq_cancel_r _ _ (inject_Z cols)); assumption).
  destruct T as [T|[T|[T _]]].
  - rewrite (roundingOf_integer W mw ws RW T).
    rewrite (roundingOf_integer H mw hs RH); [reflexivity | now rewrite <- S].
  - rewrite (roundingOf_integer H mh hs RH T).
    rewrite (roundingOf_integer W mh ws RW); [reflexivity | now rewrite S].
  - rewrite (roundingOf_integer W cols ws RW T).
    rewrite (roundingOf_integer H cols hs RH); [reflexivity | now rewrite <- S].
Qed.

Lemma target_size_keeps_orientation_witness :
  exists W H : Z,
    JS.toZ (width (calculateTargetSize (JS.ofZ 3024) (JS.ofZ 4032)
                     (JS.ofZ 512) (JS.ofZ 384))) = Some W /\
    JS.toZ (height (calculateTargetSize (JS.ofZ 3024) (JS.ofZ 4032)
                      (JS.ofZ 512) (JS.ofZ 384))) = Some H /\
    (4032 < 3024 -> H <= W) /\ (3024 < 4032 -> W <= H) /\
    (3024 = 4032 -> W = H).
Proof.
  apply (target_size_keeps_orientation 3024 4032 512 384); split; reflexivity.
Defined.

(** X12. Both target dimensions are at least one pixel when the aspect
    ratio of the image is between 1 : mh and mw : 1, that is when the
    image is no more elongated than the bounds are long. *)
Theorem target_size_positive :
  forall cols rows mw mh : Z,
    0 < cols < 2 ^ 31 -> 0 < rows < 2 ^ 31 ->
    0 < mw < 2 ^ 31 -> 0 < mh < 2 ^ 31 ->
    cols <= mw * rows -> rows <= mh * cols ->
    exists W H : Z,
      JS.toZ (width (calculateTargetSize (JS.ofZ cols) (JS.ofZ rows)
                       (JS.ofZ mw) (JS.ofZ mh))) = Some W /\
      JS.toZ (height (calculateTargetSize (JS.ofZ cols) (JS.ofZ rows)
                        (JS.ofZ mw) (JS.ofZ mh))) = Some H /\
      1 <= W /\ 1 <= H.
Proof.
  intros cols rows mw mh Hc Hr Hw Hh E1 E2.
  destruct (calculateTargetSize_best_fit cols rows mw mh Hc Hr Hw Hh)
    as (W & H & ws & hs & TW & TH & B & RW & RH & _).
  exists W, H. repeat (split; [assumption|]).
  destruct B as (R & Pw & Ph & Bw & Bc & Bh & Br & T).
  assert (Pa : (1 <= inject_Z cols)%Q) by (rewrite <- (Zle_Qle 1); lia).
  assert (Pb : (1 <= inject_Z rows)%Q) by (rewrite <- (Zle_Qle 1); lia).
  assert (Pp : (1 <= inject_Z mw)%Q) by (rewrite <- (Zle_Qle 1); lia).
  assert (Pq : (1 <= inject_Z mh)%Q) by (rewrite <- (Zle_Qle 1); lia).
  rewrite Zle_Qle, inject_Z_mult in E1, E2.
  assert (V : (1 <= ws /\ 1 <= hs)%Q).
  { destruct T as [T|[T|[T1 T2]]].
    - split; [lra|].
      apply (Qmult_le_cancel_r _ _ (inject_Z cols)); [lra|].
      rewrite <- R, T. lra.
    - split; [|lra].
      apply (Qmult_le_cancel_r _ _ (inject_Z rows)); [lra|].
      rewrite R, T. lra.
    - split; lra. }
  split; [exact (roundingOf_pos W ws RW (proj1 V))
         | exact (roundingOf_pos H hs RH (proj2 V))].
Qed.

Lemma target_size_positive_witness :
  exists W H : Z,
    JS.toZ (width (calculateTargetSize (JS.ofZ 10000) (JS.ofZ 20)
                     (JS.ofZ 512) (JS.ofZ 384))) = Some W /\
    JS.toZ (height (calculateTargetSize (JS.ofZ 10000) (JS.ofZ 20)
                      (JS.ofZ 512) (JS.ofZ 384))) = Some H /\
    1 <= W /\ 1 <= H.
Proof.
  apply (target_size_positive 10000 20 512 384);
    [split; reflexivity | split; reflexivity | split; reflexivity
     | split; reflexivity | lia | lia].
Defined.

(** X13. When the best fit is a pair of integers, it is the target size,
    exactly: an image of the aspect ratio of the bounds that exceeds them
    gets the bounds themselves (a 4032 x 3024 photo under the balanced
    preset gets 512 x 384). *)
Theorem target_size_exact_on_integral_fit :
  forall cols rows mw mh W0 H0 : Z,
    0 < cols < 2 ^ 31 -> 0 < rows < 2 ^ 31 ->
    0 < mw < 2 ^ 31 -> 0 < mh < 2 ^ 31 ->
    bestFit cols rows mw mh (inject_Z W0) (inject_Z H0) ->
    JS.toZ (width (calculateTargetSize (JS.ofZ cols) (JS.ofZ rows)
                     (JS.ofZ mw) (JS.ofZ mh))) = Some W0 /\
    JS.toZ (height (calculateTargetSize (JS.ofZ cols) (JS.ofZ rows)
                      (JS.ofZ mw) (JS.ofZ mh))) = Some H0.
Proof.
  intros cols rows mw mh W0 H0 Hc Hr Hw Hh B0.
  destruct (calculateTargetSize_best_fit cols rows mw mh Hc Hr Hw Hh)
    as (W & H & ws & hs & TW & TH & B & RW & RH & _).
  destruct (bestFit_unique cols rows mw mh ws hs _ _
              ltac:(lia) ltac:(lia) B B0) as [E1 E2].
  rewrite TW, TH.
  now rewrite (roundingOf_integer W W0 ws RW E1),
              (roundingOf_integer H H0 hs RH E2).
Qed.

Lemma target_size_exact_on_integral_fit_witness :
  JS.toZ (width (targetSize BALANCED 4032 3024)) = Some 512 /\
  JS.toZ (height (targetSize BALANCED 4032 3024)) = Some 384.
Proof.
  apply (target_size_exact_on_integral_fit 4032 3024 512 384 512 384);
    try (split; reflexivity).
  unfold bestFit. repeat split; try reflexivity; try discriminate.
  right; left. reflexivity.
Defined.

(** ** The matrices of [resizeWithOpenCV] *)

Lemma filter_fresh (p : nat) (l : list nat) :
  (forall x, In x l -> (x < p)%nat) ->
  filter (fun x => negb (Nat.eqb p x)) l = l.
Proof.
  induction l as [|a l IH]; intros F; simpl; [reflexivity|].
  destruct (Nat.eqb_spec p a) as [E|N].
  - exfalso. specialize (F a (or_introl eq_refl)). lia.
  - simpl. rewrite IH; [reflexivity|]. intros x I. apply F. now right.
Qed.

Lemma delete_head p c r n L l :
  (forall x, In x L -> (x < p)%nat) ->
  delete {| ptr := p; cols := c; rows := r |}
         ({| nextPtr := n; live := p :: L |}, l)
  = (Returned tt, ({| nextPtr := n; live := L |}, l)).
Proof.
  intros F. unfold delete. cbn [ptr live nextPtr existsb filter].
  rewrite Nat.eqb_refl. cbn [orb negb]. now rewrite (filter_fresh p L F).
Qed.

Lemma delete_second p c r q n L l :
  (forall x, In x L -> (x < p)%nat) -> q <> p ->
  delete {| ptr := p; cols := c; rows := r |}
         ({| nextPtr := n; live := q :: p :: L |}, l)
  = (Returned tt, ({| nextPtr := n; live := q :: L |}, l)).
Proof.
  intros F N. unfold delete. cbn [ptr live nextPtr existsb filter].
  assert (E : Nat.eqb p q = false) by (apply Nat.eqb_neq; congruence).
  rewrite E, Nat.eqb_refl. cbn [orb negb]. now rewrite (filter_fresh p L F).
Qed.

Section OpenCVProperties.

Variables HTMLImageElement HTMLCanvasElement : Type.
Variable drawImage : HTMLImageElement -> outcome HTMLCanvasElement.
Variable imread : HTMLCanvasElement -> outcome (Z * Z).
Variable newMat : outcome unit.
Variable resize : Mat -> Size -> outcome unit.
Variable toDataURL : Mat -> Size -> JS.number -> outcome string.
Variable cvReadyPromise : outcome bool.
Variable loadImage : string -> option HTMLImageElement.

(** Whatever the browser and OpenCV do, [resizeWithOpenCV] leaves the
    heap as it found it, its cleanup does not throw, and what it returns
    is the data URL of the matrix read from the image, at the target size
    computed from the dimensions of that matrix. *)
Lemma resizeWithOpenCV_outcomes img maxWidth maxHeight quality h :
  wellFormed h ->
  live (snd (resizeWithOpenCV drawImage imread newMat resize toDataURL
               img maxWidth maxHeight quality h)) = live h /\
  fst (resizeWithOpenCV drawImage imread newMat resize toDataURL
         img maxWidth maxHeight quality h)
  = fst (resizeWithOpenCV_try drawImage imread newMat resize toDataURL
           img maxWidth maxHeight quality (h, {| src := None; dst := None |})) /\
  (forall url,
      fst (resizeWithOpenCV drawImage imread newMat resize toDataURL
             img maxWidth maxHeight quality h) = Returned url ->
      exists canvas c r,
        drawImage img = Returned canvas /\ imread canvas = Returned (c, r) /\
        let m := {| ptr := nextPtr h; cols := c; rows := r |} in
        let size := calculateTargetSize (JS.ofZ c) (JS.ofZ r) maxWidth maxHeight in
        resize m size = Returned tt /\
        toDataURL m size quality = Returned url).
Proof.
  intros WF. destruct h as [p L]. unfold wellFormed in WF.
  cbn [nextPtr live] in WF.
  assert (WF' : forall x, In x L -> (x < S p)%nat).
  { intros x I. specialize (WF x I). lia. }
  unfold resizeWithOpenCV, tryFinally, resizeWithOpenCV_try,
    resizeWithOpenCV_finally, seq, external, allocate, setSrc, setDst,
    getSrc, getDst, ret.
  cbn [nextPtr live src dst cols rows fst snd].
  destruct (drawImage img) as [canvas|e] eqn:D.
  2: { cbn. repeat split; try reflexivity. intros url E; discriminate. }
  destruct (imread canvas) as [[c r]|e] eqn:I.
  2: { cbn. repeat split; try reflexivity. intros url E; discriminate. }
  cbn [fst snd src dst].
  destruct newMat as [[]|e].
  2: { cbn [src dst fst snd]. rewrite (delete_head p c r _ L _ WF).
       cbn [fst snd live]. repeat split; try reflexivity.
       intros url E; discriminate. }
  cbn [src dst fst snd nextPtr live].
  destruct (resize {| ptr := p; cols := c; rows := r |}
              (calculateTargetSize (JS.ofZ c) (JS.ofZ r) maxWidth maxHeight))
    as [[]|e] eqn:R.
  2: { cbn [src dst fst snd].
       rewrite (delete_second p c r (S p) _ L _ WF ltac:(lia)).
       cbn [src dst fst snd]. rewrite (delete_head (S p) 0 0 _ L _ WF').
       cbn [fst snd live]. repeat split; try reflexivity.
       intros url E; discriminate. }
  cbn [src dst fst snd].
  destruct (toDataURL {| ptr := p; cols := c; rows := r |}
              (calculateTargetSize (JS.ofZ c) (JS.ofZ r) maxWidth maxHeight)
              quality) as [u|e] eqn:T;
    cbn [src dst fst snd];
    rewrite (delete_second p c r (S p) _ L _ WF ltac:(lia));
    cbn [src dst fst snd]; rewrite (delete_head (S p) 0 0 _ L _ WF');
    cbn [fst snd live]; (split; [reflexivity|]); (split; [reflexivity|]).
  - intros url E. inversion E; subst url. exists canvas, c, r.
    repeat split; assumption.
  - intros url E; discriminate.
Qed.

End OpenCVProperties.

(** X14. [resizeWithOpenCV] leaks no matrix and frees none twice:
    whichever call of the browser or of OpenCV throws, and also when none
    does, the matrices that are live when it is left are those that were
    live when it was entered, and the cleanup itself never throws (the
    outcome is that of the [try] block). *)
Theorem resizeWithOpenCV_releases_matrices :
  forall (HTMLImageElement HTMLCanvasElement : Type)
         (drawImage : HTMLImageElement -> outcome HTMLCanvasElement)
         (imread : HTMLCanvasElement -> outcome (Z * Z))
         (newMat : outcome unit)
         (resize : Mat -> Size -> outcome unit)
         (toDataURL : Mat -> Size -> JS.number -> outcome string)
         (img : HTMLImageElement) (maxWidth maxHeight quality : JS.number)
         (h : heap),
    wellFormed h ->
    live (snd (resizeWithOpenCV drawImage imread newMat resize toDataURL
                 img maxWidth maxHeight quality h)) = live h /\
    fst (resizeWithOpenCV drawImage imread newMat resize toDataURL
           img maxWidth maxHeight quality h)
    = fst (resizeWithOpenCV_try drawImage imread newMat resize toDataURL
             img maxWidth maxHeight quality
             (h, {| src := None; dst := None |})).
Proof.
  intros Img Canvas drawImage imread newMat resize toDataURL img mw mh q h WF.
  destruct (resizeWithOpenCV_outcomes Img Canvas drawImage imread newMat
              resize toDataURL img mw mh q h WF) as (L & O & _).
  split; assumption.
Qed.

Lemma resizeWithOpenCV_releases_matrices_witness :
  live (snd (resizeWithOpenCV
               (fun _ : unit => Returned tt)
               (fun _ : unit => Returned (4032, 3024))
               (Returned tt)
               (fun _ _ => Threw (Foreign 1))
               (fun _ _ _ => Returned "data:image/jpeg;base64,QUJD")
               tt (JS.ofZ 512) (JS.ofZ 384) (JS.ofZ 1)
               {| nextPtr := 2; live := [1%nat; 0%nat] |}))
  = [1%nat; 0%nat].
Proof.
  apply (resizeWithOpenCV_releases_matrices unit unit).
  intros p [<-|[<-|[]]]; cbn [nextPtr]; lia.
Defined.

(** X15. [resizeImageForAnalysis] either returns the JPEG data URL of the
    image resized to the target size of the chosen preset, encoded at the
    quality of that preset, or throws one of four errors: the rejection
    of the OpenCV module, "OpenCV is not ready", "Failed to load image",
    or, whatever was thrown while resizing, "OpenCV resizing failed,
    please check console for details".  In every case it leaves no
    matrix behind. *)
Theorem resizeImageForAnalysis_outcomes :
  forall (HTMLImageElement HTMLCanvasElement : Type)
         (drawImage : HTMLImageElement -> outcome HTMLCanvasElement)
         (imread : HTMLCanvasElement -> outcome (Z * Z))
         (newMat : outcome unit)
         (resize : Mat -> Size -> outcome unit)
         (toDataURL : Mat -> Size -> JS.number -> outcome string)
         (cvReadyPromise : outcome bool)
         (loadImage : string -> option HTMLImageElement)
         (imageData : string) (mode : ProcessingMode) (h : heap),
    wellFormed h ->
    let result :=
      resizeImageForAnalysis drawImage imread newMat resize toDataURL
        cvReadyPromise loadImage imageData mode h in
    live (snd result) = live h /\
    match fst result with
    | Returned url =>
        exists img canvas c r,
          cvReadyPromise = Returned true /\
          loadImage imageData = Some img /\
          drawImage img = Returned canvas /\
          imread canvas = Returned (c, r) /\
          toDataURL {| ptr := nextPtr h; cols := c; rows := r |}
            (targetSize mode c r) (quality (PROCESSING_CONFIGS mode))
          = Returned url
    | Threw e =>
        cvReadyPromise = Threw e \/
        e = Error "OpenCV is not ready" \/
        e = Error "Failed to load image" \/
        e = Error "OpenCV resizing failed, please check console for details"
    end.
Proof.
  intros Img Canvas drawImage imread newMat resize toDataURL cvReadyPromise
         loadImage imageData mode h WF.
  unfold resizeImageForAnalysis, waitForOpenCVReady.
  destruct cvReadyPromise as [[|]|e].
  2: { split; [reflexivity|]. right; left; reflexivity. }
  2: { split; [reflexivity|]. left; reflexivity. }
  destruct (loadImage imageData) as [img|].
  2: { split; [reflexivity|]. right; right; left; reflexivity. }
  destruct (resizeWithOpenCV_outcomes Img Canvas drawImage imread newMat
              resize toDataURL img
              (maxWidth (PROCESSING_CONFIGS mode))
              (maxHeight (PROCESSING_CONFIGS mode))
              (quality (PROCESSING_CONFIGS mode)) h WF) as (L & _ & U).
  destruct (resizeWithOpenCV drawImage imread newMat resize toDataURL img
              (maxWidth (PROCESSING_CONFIGS mode))
              (maxHeight (PROCESSING_CONFIGS mode))
              (quality (PROCESSING_CONFIGS mode)) h) as [[url|e] h'].
  - cbn [fst snd] in *. split; [assumption|].
    destruct (U url eq_refl) as (canvas & c & r & D & I & _ & T).
    exists img, canvas, c, r. repeat (split; [reflexivity || assumption|]).
    exact T.
  - cbn [fst snd] in *. split; [assumption|]. right; right; right; reflexivity.
Qed.

Lemma resizeImageForAnalysis_outcomes_witness :
  fst (resizeImageForAnalysis
         (fun _ : unit => Returned tt)
         (fun _ : unit => Returned (4032, 3024))
         (Returned tt)
         (fun _ _ => Threw (Foreign 1))
         (fun _ _ _ => Returned "data:image/jpeg;base64,QUJD")
         (Returned true) (fun _ => Some tt)
         "data:image/png;base64,QUJD" BALANCED
         {| nextPtr := 0; live := [] |})
  = Threw (Error "OpenCV resizing failed, please check console for details") /\
  live (snd (resizeImageForAnalysis
               (fun _ : unit => Returned tt)
               (fun _ : unit => Returned (4032, 3024))
               (Returned tt)
               (fun _ _ => Threw (Foreign 1))
               (fun _ _ _ => Returned "data:image/jpeg;base64,QUJD")
               (Returned true) (fun _ => Some tt)
               "data:image/png;base64,QUJD" BALANCED
               {| nextPtr := 0; live := [] |})) = [].
Proof.
  split; [reflexivity|].
  apply (resizeImageForAnalysis_outcomes unit unit).
  intros p [].
Defined.

(** ** The state of the camera component *)

Lemma run_snoc events e : run (events ++ [e]) = step (run events) e.
Proof. unfold run. now rewrite fold_left_app. Qed.

Lemma step_consistent s e : consistent s -> consistent (step s e).
Proof.
  unfold consistent. intros (M & V & L & A).
  destruct s as [lp siv cp sm sam ia ar]. cbn in M, V, L, A.
  destruct e as [[d|]| | | | |[d|]|r| | |[d|]];
    unfold step, takePhotoFromAnalysis, takePicture, savePhoto, discardPhoto,
      galleryClick, viewerClose, analyzeCurrentFrame_begin,
      analyzeCurrentFrame_resolved, analyzeCurrentFrame_rejected,
      closeAnalysisModal, discardPhoto, setLastPhoto, setShowImageViewer,
      setCapturedPhoto, setShowMagic, setShowAnalysisModal, setIsAnalyzing,
      setAnalysisResult;
    cbn [lastPhoto showImageViewer capturedPhoto showMagic showAnalysisModal
         isAnalyzing analysisResult].
  all: repeat match goal with
              | |- context [if ?c then _ else _] => destruct c eqn:?
              end;
    cbn [lastPhoto showImageViewer capturedPhoto showMagic showAnalysisModal
         isAnalyzing analysisResult];
    repeat split; intros; try discriminate; try assumption; auto;
    try (left; discriminate); try (right; assumption);
    try solve [intuition (discriminate || congruence)].
Qed.

Lemma run_consistent events : consistent (run events).
Proof.
  induction events as [|e events IH] using rev_ind.
  - unfold consistent, run. cbn. repeat split; auto; discriminate.
  - rewrite run_snoc. now apply step_consistent.
Qed.

(** The photos of the state are frames that were captured. *)
Lemma step_photos s e d :
  capturedPhoto (step s e) = Some d \/ lastPhoto (step s e) = Some d ->
  capturedFrame e = Some d \/ capturedPhoto s = Some d \/ lastPhoto s = Some d.
Proof.
  destruct s as [lp siv cp sm sam ia ar].
  destruct e as [[x|]| | | | |[x|]|r| | |[x|]];
    unfold step, takePhotoFromAnalysis, takePicture, savePhoto, discardPhoto,
      galleryClick, viewerClose, analyzeCurrentFrame_begin,
      analyzeCurrentFrame_resolved, analyzeCurrentFrame_rejected,
      closeAnalysisModal, discardPhoto, setLastPhoto, setShowImageViewer,
      setCapturedPhoto, setShowMagic, setShowAnalysisModal, setIsAnalyzing,
      setAnalysisResult, capturedFrame;
    cbn [lastPhoto showImageViewer capturedPhoto showMagic showAnalysisModal
         isAnalyzing analysisResult]; try tauto.
  - destruct (truthy cp); cbn; tauto.
  - destruct (truthy lp); cbn; tauto.
  - destruct (truthy cp); cbn; tauto.
  - destruct (String.length x <? 1000)%nat; cbn; tauto.
Qed.

Lemma run_photos events d :
  capturedPhoto (run events) = Some d \/ lastPhoto (run events) = Some d ->
  exists e, In e events /\ capturedFrame e = Some d.
Proof.
  induction events as [|e events IH] using rev_ind.
  - unfold run. cbn. intros [H|H]; discriminate.
  - rewrite run_snoc. intros H.
    destruct (step_photos _ _ _ H) as [F|P].
    + exists e. split; [apply in_or_app; right; now left | assumption].
    + destruct (IH P) as (e' & I & F). exists e'.
      split; [apply in_or_app; now left | assumption].
Qed.

(** X16. In every state the camera component can reach, whatever the
    order of the clicks and of the answers to the analyses: the analysis
    modal is up only with a result to show, the loading overlay goes with
    the analysing flag (which equals the magic flag), the photos of the
    state are frames that were captured, and the image viewer is up only
    with a photo to show as long as no captured frame is the empty
    string.  The second operand of each rendering condition adds
    nothing. *)
Theorem camera_flags_agree_with_data :
  forall events : list event,
    let s := run events in
    modalRendered s = showAnalysisModal s /\
    loadingRendered s = isAnalyzing s /\
    isAnalyzing s = showMagic s /\
    (forall d, capturedPhoto s = Some d \/ lastPhoto s = Some d ->
               exists e, In e events /\ capturedFrame e = Some d) /\
    ((forall e, In e events -> capturedFrame e <> Some EmptyString) ->
     viewerRendered s = showImageViewer s).
Proof.
  intros events s.
  destruct (run_consistent events) as (M & V & L & A). fold s in M, V, L, A.
  pose proof (run_photos events) as P. fold s in P.
  split; [|split; [|split; [|split]]].
  - unfold modalRendered. destruct (showAnalysisModal s); [|reflexivity].
    destruct (analysisResult s); [reflexivity|]. now destruct (M eq_refl).
  - unfold loadingRendered. rewrite A. now destruct (showMagic s).
  - exact A.
  - exact P.
  - intros NE. unfold viewerRendered.
    destruct (showImageViewer s); [|reflexivity]. cbn [andb].
    destruct (V eq_refl) as [C|T]; [|rewrite T; apply orb_true_r].
    destruct (capturedPhoto s) as [[|c d]|] eqn:E; [|reflexivity|contradiction].
    exfalso. destruct (P EmptyString (or_introl eq_refl)) as (e & I & F).
    exact (NE e I F).
Qed.

Lemma camera_flags_agree_with_data_witness :
  viewerRendered
    (run [TakePicture (Some "data:image/png;base64,QUJD"); SavePhoto;
          GalleryClick])
  = showImageViewer
      (run [TakePicture (Some "data:image/png;base64,QUJD"); SavePhoto;
            GalleryClick]).
Proof.
  apply (camera_flags_agree_with_data
           [TakePicture (Some "data:image/png;base64,QUJD"); SavePhoto;
            GalleryClick]).
  intros e [<-|[<-|[<-|[]]]]; discriminate.
Defined.

(** ** The analysis modal on the answers of the backend *)

Lemma modal_by_score z now a :
  Score a = z -> 1 <= z <= 10 ->
  scoreDescription (toAnalysisResult a now)
  = (if 8 <=? z then ExcellentShot else if 7 <=? z then GoodPhoto else MakeBetter) /\
  actionButtons (toAnalysisResult a now)
  = (if 7 <=? z then TakePhotoReanalyze else AdjustShotTakeAnyway).
Proof.
  intros E R. unfold scoreDescription, actionButtons, toAnalysisResult.
  cbn [overallScore]. rewrite E.
  assert (C : z = 1 \/ z = 2 \/ z = 3 \/ z = 4 \/ z = 5 \/ z = 6 \/ z = 7 \/
              z = 8 \/ z = 9 \/ z = 10) by lia.
  destruct C as [->|[->|[->|[->|[->|[->|[->|[->|[->| ->]]]]]]]]];
    split; vm_compute; reflexivity.
Qed.

(** X17. On every score the backend can answer with (the validated score
    is an integer from 1 to 10) the modal is coherent although its
    thresholds differ (8, 6.5 and 7): it says "Excellent shot!" from 8
    on, "Good photo with room for improvement" at 7 only, and "Let's
    make this photo even better!" up to 6; and it offers "Adjust Shot"
    and "Take Anyway" exactly when it says the latter, "Take Photo" and
    "Re-analyze" otherwise. *)
Theorem modal_coherent_on_backend_scores :
  forall (analysis : AnalysisResponse) (now : string),
    let r := toAnalysisResult (validateScore analysis) now in
    let score := Score (validateScore analysis) in
    (scoreDescription r = ExcellentShot <-> 8 <= score) /\
    (scoreDescription r = GoodPhoto <-> score = 7) /\
    (scoreDescription r = MakeBetter <-> score <= 6) /\
    (actionButtons r = TakePhotoReanalyze <-> 7 <= score) /\
    (actionButtons r = AdjustShotTakeAnyway <-> scoreDescription r = MakeBetter).
Proof.
  intros analysis now r score.
  pose proof (validateScore_range analysis) as R. fold score in R.
  destruct (modal_by_score score now (validateScore analysis) eq_refl R)
    as [D B]. fold r in D, B. rewrite D, B.
  destruct (Z.leb_spec 8 score); destruct (Z.leb_spec 7 score);
    repeat split; intros; try discriminate; try reflexivity; try lia.
Qed.

(** X18. The modal cannot be rendered for an answer whose strengths or
    suggestions are missing: when the payload of the model is accepted
    but names no strengths, or no suggestions, the response holds a nil
    slice, the frontend reads [null], and rendering throws a TypeError.
    It renders when both lists are there. *)
Theorem modal_throws_on_missing_lists :
  forall (members : list (string * json)) (a : AnalysisResponse) (now : string),
    analysisOfPayload (JObject members) = Ok a ->
    ((fieldMissing "strengths" members \/ fieldMissing "suggestions" members) ->
     AnalysisModal (toAnalysisResult a now) = Err TypeError) /\
    (Strengths a <> None -> Suggestions a <> None ->
     exists view, AnalysisModal (toAnalysisResult a now) = Ok view /\
                  description view = scoreDescription (toAnalysisResult a now) /\
                  suggestionItems view = jsondec.elements (Suggestions a)).
Proof.
  intros members a now E.
  destruct (missing_fields_are_zero members a E) as (_ & _ & _ & S1 & S2).
  unfold AnalysisModal, toAnalysisResult.
  cbn [strengths feedback suggestions]. split.
  - intros [M|M].
    + now rewrite (S1 M).
    + rewrite (S2 M). cbn [readStrings]. now destruct (readStrings (Strengths a)).
  - intros N1 N2.
    destruct (Strengths a) as [st|]; [|contradiction].
    destruct (Suggestions a) as [su|]; [|contradiction].
    cbn [readStrings]. eexists. split; [reflexivity|]. split; reflexivity.
Qed.

Lemma modal_throws_on_missing_lists_witness :
  AnalysisModal
    (toAnalysisResult
       (validateScore
          {| Score := 7; Composition := "Well framed.";
             Lighting := EmptyString; Subject := EmptyString;
             Strengths := None; Suggestions := None |})
       "2025-01-01T00:00:00.000Z")
  = Err TypeError.
Proof.
  apply (proj1 (modal_throws_on_missing_lists
                  [("score", intLiteral 7);
                   ("composition", JString "Well framed.")]
                  _ "2025-01-01T00:00:00.000Z" eq_refl)).
  left. intros k v [E|[E|[]]]; inversion E; reflexivity.
Defined.

(** X19. Resizing is idempotent: the target size computed for an image
    that has the target size of another (with no dimension lost to
    rounding) is that size again; an image that was resized to fit the
    bounds is left alone. *)
Theorem target_size_idempotent :
  forall cols rows mw mh W H : Z,
    0 < cols < 2 ^ 31 -> 0 < rows < 2 ^ 31 ->
    0 < mw < 2 ^ 31 -> 0 < mh < 2 ^ 31 ->
    JS.toZ (width (calculateTargetSize (JS.ofZ cols) (JS.ofZ rows)
                     (JS.ofZ mw) (JS.ofZ mh))) = Some W ->
    JS.toZ (height (calculateTargetSize (JS.ofZ cols) (JS.ofZ rows)
                      (JS.ofZ mw) (JS.ofZ mh))) = Some H ->
    1 <= W -> 1 <= H ->
    JS.toZ (width (calculateTargetSize (JS.ofZ W) (JS.ofZ H)
                     (JS.ofZ mw) (JS.ofZ mh))) = Some W /\
    JS.toZ (height (calculateTargetSize (JS.ofZ W) (JS.ofZ H)
                      (JS.ofZ mw) (JS.ofZ mh))) = Some H.
Proof.
  intros cols rows mw mh W H Hc Hr Hw Hh TW TH PW PH.
  destruct (calculateTargetSize_best_fit cols rows mw mh Hc Hr Hw Hh)
    as (W1 & H1 & ws & hs & TW1 & TH1 & B & RW & RH & _).
  rewrite TW in TW1. rewrite TH in TH1.
  inversion TW1; inversion TH1; subst W1 H1. clear TW1 TH1.
  destruct B as (R & Pw & Ph & Bw & Bc & Bh & Br & T).
  pose proof (roundingOf_le W mw ws RW Bw) as L1.
  pose proof (roundingOf_le H mh hs RH Bh) as L2.
  assert (HW : 0 < W < 2 ^ 31) by lia.
  assert (HH : 0 < H < 2 ^ 31) by lia.
  destruct (calculateTargetSize_best_fit W H mw mh HW HH Hw Hh)
    as (W2 & H2 & ws2 & hs2 & TW2 & TH2 & B2 & RW2 & RH2 & _).
  assert (B0 : bestFit W H mw mh (inject_Z W) (inject_Z H)).
  { unfold bestFit.
    split; [ring|]. split; [rewrite <- (Zlt_Qlt 0); lia|].
    split; [rewrite <- (Zlt_Qlt 0); lia|].
    split; [rewrite <- Zle_Qle; lia|]. split; [apply Qle_refl|].
    split; [rewrite <- Zle_Qle; lia|]. split; [apply Qle_refl|].
    right; right. split; reflexivity. }
  destruct (bestFit_unique W H mw mh ws2 hs2 _ _ ltac:(lia) ltac:(lia) B2 B0)
    as [E1 E2].
  rewrite TW2, TH2.
  now rewrite (roundingOf_integer W2 W ws2 RW2 E1),
              (roundingOf_integer H2 H hs2 RH2 E2).
Qed.

Lemma target_size_idempotent_witness :
  JS.toZ (width (calculateTargetSize (JS.ofZ 800) (JS.ofZ 450)
                   (JS.ofZ 800) (JS.ofZ 600))) = Some 800 /\
  JS.toZ (height (calculateTargetSize (JS.ofZ 800) (JS.ofZ 450)
                    (JS.ofZ 800) (JS.ofZ 600))) = Some 450.
Proof.
  apply (target_size_idempotent 1920 1080 800 600 800 450);
    try (split; reflexivity); try reflexivity; lia.
Defined.

(** * The fields of the response, for every payload *)

(** A key names at most one field. *)
Lemma field_keys_exclusive k :
  (isScoreKey k = true ->
   jsondec.matchesField "composition" k = false /\
   jsondec.matchesField "lighting" k = false /\
   jsondec.matchesField "subject" k = false /\
   jsondec.matchesField "strengths" k = false /\
   jsondec.matchesField "suggestions" k = false) /\
  (jsondec.matchesField "composition" k = true ->
   isScoreKey k = false /\
   jsondec.matchesField "lighting" k = false /\
   jsondec.matchesField "subject" k = false /\
   jsondec.matchesField "strengths" k = false /\
   jsondec.matchesField "suggestions" k = false) /\
  (jsondec.matchesField "lighting" k = true ->
   isScoreKey k = false /\
   jsondec.matchesField "composition" k = false /\
   jsondec.matchesField "subject" k = false /\
   jsondec.matchesField "strengths" k = false /\
   jsondec.matchesField "suggestions" k = false) /\
  (jsondec.matchesField "subject" k = true ->
   isScoreKey k = false /\
   jsondec.matchesField "composition" k = false /\
   jsondec.matchesField "lighting" k = false /\
   jsondec.matchesField "strengths" k = false /\
   jsondec.matchesField "suggestions" k = false) /\
  (jsondec.matchesField "strengths" k = true ->
   isScoreKey k = false /\
   jsondec.matchesField "composition" k = false /\
   jsondec.matchesField "lighting" k = false /\
   jsondec.matchesField "subject" k = false /\
   jsondec.matchesField "suggestions" k = false) /\
  (jsondec.matchesField "suggestions" k = true ->
   isScoreKey k = false /\
   jsondec.matchesField "composition" k = false /\
   jsondec.matchesField "lighting" k = false /\
   jsondec.matchesField "subject" k = false /\
   jsondec.matchesField "strengths" k = false).
Proof.
  unfold isScoreKey, jsondec.matchesField.
  repeat split; apply String.eqb_eq in H; rewrite H; reflexivity.
Qed.

(** A member leaves a field as it is unless it names the field; a [null]
    member also leaves the score and the text fields as they are. *)
Lemma store_member_keeps a k v a' :
  storeAnalysisMember a (k, v) = Some a' ->
  ((isScoreKey k = true -> v = JNull) -> Score a' = Score a) /\
  ((jsondec.matchesField "composition" k = true -> v = JNull) ->
   Composition a' = Composition a) /\
  ((jsondec.matchesField "lighting" k = true -> v = JNull) ->
   Lighting a' = Lighting a) /\
  ((jsondec.matchesField "subject" k = true -> v = JNull) ->
   Subject a' = Subject a) /\
  (jsondec.matchesField "strengths" k = false -> Strengths a' = Strengths a) /\
  (jsondec.matchesField "suggestions" k = false ->
   Suggestions a' = Suggestions a).
Proof.
  pose proof (field_keys_exclusive k) as (X1 & X2 & X3 & X4 & X5 & X6).
  unfold isScoreKey in *. unfold storeAnalysisMember.
  destruct (jsondec.matchesField "score" k) eqn:K0.
  { destruct (X1 eq_refl) as (-> & -> & -> & -> & ->).
    destruct (jsondec.storeInt (Score a) v) as [x|] eqn:S; [|discriminate].
    cbn [option_map]. intros E; inversion E; subst a'; clear E.
    cbn [Score Composition Lighting Subject Strengths Suggestions].
    repeat split; try reflexivity.
    intros N. rewrite (N eq_refl) in S. cbn in S. now inversion S. }
  destruct (jsondec.matchesField "composition" k) eqn:K1.
  { destruct (X2 eq_refl) as (_ & -> & -> & -> & ->).
    destruct (jsondec.storeString (Composition a) v) as [x|] eqn:S; [|discriminate].
    cbn [option_map]. intros E; inversion E; subst a'; clear E.
    cbn [Score Composition Lighting Subject Strengths Suggestions].
    repeat split; try reflexivity.
    intros N. rewrite (N eq_refl) in S. cbn in S. now inversion S. }
  destruct (jsondec.matchesField "lighting" k) eqn:K2.
  { destruct (X3 eq_refl) as (_ & _ & -> & -> & ->).
    destruct (jsondec.storeString (Lighting a) v) as [x|] eqn:S; [|discriminate].
    cbn [option_map]. intros E; inversion E; subst a'; clear E.
    cbn [Score Composition Lighting Subject Strengths Suggestions].
    repeat split; try reflexivity.
    intros N. rewrite (N eq_refl) in S. cbn in S. now inversion S. }
  destruct (jsondec.matchesField "subject" k) eqn:K3.
  { destruct (X4 eq_refl) as (_ & _ & _ & -> & ->).
    destruct (jsondec.storeString (Subject a) v) as [x|] eqn:S; [|discriminate].
    cbn [option_map]. intros E; inversion E; subst a'; clear E.
    cbn [Score Composition Lighting Subject Strengths Suggestions].
    repeat split; try reflexivity.
    intros N. rewrite (N eq_refl) in S. cbn in S. now inversion S. }
  destruct (jsondec.matchesField "strengths" k) eqn:K4.
  { destruct (X5 eq_refl) as (_ & _ & _ & _ & ->).
    destruct (jsondec.storeStrings (Strengths a) v) as [x|] eqn:S; [|discriminate].
    cbn [option_map]. intros E; inversion E; subst a'; clear E.
    cbn [Score Composition Lighting Subject Strengths Suggestions].
    repeat split; try reflexivity. discriminate. }
  destruct (jsondec.matchesField "suggestions" k) eqn:K5.
  { destruct (jsondec.storeStrings (Suggestions a) v) as [x|] eqn:S; [|discriminate].
    cbn [option_map]. intros E; inversion E; subst a'; clear E.
    cbn [Score Composition Lighting Subject Strengths Suggestions].
    repeat split; try reflexivity. discriminate. }
  intros E; inversion E; subst a'. repeat split; reflexivity.
Qed.

Lemma store_members_keep ms :
  forall a a',
    storeMembers storeAnalysisMember a ms = Some a' ->
    ((forall k v, In (k, v) ms -> isScoreKey k = true -> v = JNull) ->
     Score a' = Score a) /\
    ((forall k v, In (k, v) ms ->
                  jsondec.matchesField "composition" k = true -> v = JNull) ->
     Composition a' = Composition a) /\
    ((forall k v, In (k, v) ms ->
                  jsondec.matchesField "lighting" k = true -> v = JNull) ->
     Lighting a' = Lighting a) /\
    ((forall k v, In (k, v) ms ->
                  jsondec.matchesField "subject" k = true -> v = JNull) ->
     Subject a' = Subject a) /\
    (fieldMissing "strengths" ms -> Strengths a' = Strengths a) /\
    (fieldMissing "suggestions" ms -> Suggestions a' = Suggestions a).
Proof.
  induction ms as [|[k v] ms IH]; intros a a'; cbn [storeMembers].
  - intros E; inversion E; repeat split; reflexivity.
  - destruct (storeAnalysisMember a (k, v)) as [a1|] eqn:E1; [|discriminate].
    intros E. destruct (IH _ _ E) as (I1 & I2 & I3 & I4 & I5 & I6).
    destruct (store_member_keeps _ _ _ _ E1) as (S1 & S2 & S3 & S4 & S5 & S6).
    repeat split; intros M.
    + rewrite I1, S1; [reflexivity | |].
      * apply (M k v). now left.
      * intros k' v' I. apply M. now right.
    + rewrite I2, S2; [reflexivity | |].
      * apply (M k v). now left.
      * intros k' v' I. apply M. now right.
    + rewrite I3, S3; [reflexivity | |].
      * apply (M k v). now left.
      * intros k' v' I. apply M. now right.
    + rewrite I4, S4; [reflexivity | |].
      * apply (M k v). now left.
      * intros k' v' I. apply M. now right.
    + apply fieldMissing_cons in M. destruct M as [M1 M2].
      now rewrite (I5 M2), (S5 M1).
    + apply fieldMissing_cons in M. destruct M as [M1 M2].
      now rewrite (I6 M2), (S6 M1).
Qed.

(** What an array stores into a list field: as many elements as the
    array has, and at the place of each string that string. *)
Lemma storeElements_places elems :
  forall old b,
    jsondec.storeElements old elems = Some b ->
    (List.length elems <= List.length b)%nat /\
    forall i s, nth_error elems i = Some (JString s) -> nth_error b i = Some s.
Proof.
  induction elems as [|e es IH]; intros old b; cbn [jsondec.storeElements].
  - intros _. split; [cbn; lia|]. intros [|i] s; discriminate.
  - destruct (jsondec.storeString (hd EmptyString old) e) as [x|] eqn:S;
      [|discriminate].
    destruct (jsondec.storeElements (tl old) es) as [xs|] eqn:R; [|discriminate].
    intros E; inversion E; subst b; clear E.
    destruct (IH _ _ R) as [L P]. split; [cbn; lia|].
    intros [|i] s; cbn [nth_error].
    + intros N; inversion N; subst e. cbn in S. now inversion S.
    + apply P.
Qed.

Lemma storeStrings_array old elems x :
  jsondec.storeStrings old (JArray elems) = Some x ->
  List.length (jsondec.elements x) = List.length elems /\
  forall i s, nth_error elems i = Some (JString s) ->
              nth_error (jsondec.elements x) i = Some s.
Proof.
  destruct elems as [|e es]; cbn [jsondec.storeStrings].
  - intros E; inversion E. split; [reflexivity|]. intros [|i] s; discriminate.
  - destruct (jsondec.storeElements
                (match old with None => [] | Some o => jsondec.backing o end)
                (e :: es)) as [b|] eqn:S; [|discriminate].
    intros E; inversion E; subst x; clear E.
    destruct (storeElements_places _ _ _ S) as [L P].
    cbn [jsondec.elements jsondec.len jsondec.backing].
    split; [apply firstn_length_le; assumption|].
    intros i s N. 
    assert (I : (i < List.length (e :: es))%nat)
      by (apply nth_error_Some; rewrite N; discriminate).
    rewrite nth_error_firstn.
    apply Nat.ltb_lt in I. cbn [List.length] in I |- *. rewrite I.
    now apply P.
Qed.

(** The member that names a field, stored. *)
Lemma store_named_member a k v a' :
  storeAnalysisMember a (k, v) = Some a' ->
  (isScoreKey k = true -> jsondec.storeInt (Score a) v = Some (Score a')) /\
  (jsondec.matchesField "composition" k = true ->
   jsondec.storeString (Composition a) v = Some (Composition a')) /\
  (jsondec.matchesField "lighting" k = true ->
   jsondec.storeString (Lighting a) v = Some (Lighting a')) /\
  (jsondec.matchesField "subject" k = true ->
   jsondec.storeString (Subject a) v = Some (Subject a')) /\
  (jsondec.matchesField "strengths" k = true ->
   jsondec.storeStrings (Strengths a) v = Some (Strengths a')) /\
  (jsondec.matchesField "suggestions" k = true ->
   jsondec.storeStrings (Suggestions a) v = Some (Suggestions a')).
Proof.
  pose proof (field_keys_exclusive k) as (X1 & X2 & X3 & X4 & X5 & X6).
  unfold isScoreKey in *. unfold storeAnalysisMember.
  destruct (jsondec.matchesField "score" k) eqn:K0.
  { destruct (X1 eq_refl) as (-> & -> & -> & -> & ->).
    destruct (jsondec.storeInt (Score a) v) as [x|]; [|discriminate].
    cbn [option_map]. intros E; inversion E; subst a'.
    repeat split; intros; try discriminate; reflexivity. }
  destruct (jsondec.matchesField "composition" k) eqn:K1.
  { destruct (X2 eq_refl) as (_ & -> & -> & -> & ->).
    destruct (jsondec.storeString (Composition a) v) as [x|]; [|discriminate].
    cbn [option_map]. intros E; inversion E; subst a'.
    repeat split; intros; try discriminate; reflexivity. }
  destruct (jsondec.matchesField "lighting" k) eqn:K2.
  { destruct (X3 eq_refl) as (_ & _ & -> & -> & ->).
    destruct (jsondec.storeString (Lighting a) v) as [x|]; [|discriminate].
    cbn [option_map]. intros E; inversion E; subst a'.
    repeat split; intros; try discriminate; reflexivity. }
  destruct (jsondec.matchesField "subject" k) eqn:K3.
  { destruct (X4 eq_refl) as (_ & _ & _ & -> & ->).
    destruct (jsondec.storeString (Subject a) v) as [x|]; [|discriminate].
    cbn [option_map]. intros E; inversion E; subst a'.
    repeat split; intros; try discriminate; reflexivity. }
  destruct (jsondec.matchesField "strengths" k) eqn:K4.
  { destruct (X5 eq_refl) as (_ & _ & _ & _ & ->).
    destruct (jsondec.storeStrings (Strengths a) v) as [x|]; [|discriminate].
    cbn [option_map]. intros E; inversion E; subst a'.
    repeat split; intros; try discriminate; reflexivity. }
  destruct (jsondec.matchesField "suggestions" k) eqn:K5.
  { destruct (jsondec.storeStrings (Suggestions a) v) as [x|]; [|discriminate].
    cbn [option_map]. intros E; inversion E; subst a'.
    repeat split; intros; try discriminate; reflexivity. }
  intros _. repeat split; intros; discriminate.
Qed.

(** Decoding [pre ++ m :: post]: the struct before and after [m]. *)
Lemma storeMembers_split pre m post a0 a :
  storeMembers storeAnalysisMember a0 (pre ++ m :: post) = Some a ->
  exists a1 a2,
    storeMembers storeAnalysisMember a0 pre = Some a1 /\
    storeAnalysisMember a1 m = Some a2 /\
    storeMembers storeAnalysisMember a2 post = Some a.
Proof.
  rewrite storeMembers_app.
  destruct (storeMembers storeAnalysisMember a0 pre) as [a1|]; [|discriminate].
  cbn [option_bind storeMembers].
  destruct (storeAnalysisMember a1 m) as [a2|] eqn:E; [|discriminate].
  intros R. now exists a1, a2.
Qed.

(** C3, amended. The response holds the score (validated), composition,
    lighting, subject, strengths and suggestions of the payload, and
    nothing else.  For every payload that is decoded, whatever its
    members, their order and the spelling of their keys: the score is
    the clamped integer of the last number naming it (later [null]s
    aside), a text field is the last string naming it (later [null]s
    aside), a list field has the length of the last array naming it and
    at the place of each string of the array that string, and is nil
    when the last member naming it is [null]; a field that only [null]s
    name, or no member at all, has its zero value (the score is then
    validated to 1).  A payload in the format of the prompt is decoded
    into exactly its values.  A member that names none of the six
    fields, the intent among them, is dropped. *)
Theorem analysis_fields_from_payload :
  (forall (members : list (string * json)) (a : AnalysisResponse),
      analysisOfPayload (JObject members) = Ok a ->
      (forall pre k d post,
          members = (pre ++ (k, JNumber d) :: post)%list ->
          isScoreKey k = true ->
          (forall k' v', In (k', v') post -> isScoreKey k' = true -> v' = JNull) ->
          exists z, jsondec.ParseInt64 d = Some z /\ Score a = clamp z) /\
      (forall pre k s post,
          members = (pre ++ (k, JString s) :: post)%list ->
          jsondec.matchesField "composition" k = true ->
          (forall k' v', In (k', v') post ->
                         jsondec.matchesField "composition" k' = true ->
                         v' = JNull) ->
          Composition a = s) /\
      (forall pre k s post,
          members = (pre ++ (k, JString s) :: post)%list ->
          jsondec.matchesField "lighting" k = true ->
          (forall k' v', In (k', v') post ->
                         jsondec.matchesField "lighting" k' = true ->
                         v' = JNull) ->
          Lighting a = s) /\
      (forall pre k s post,
          members = (pre ++ (k, JString s) :: post)%list ->
          jsondec.matchesField "subject" k = true ->
          (forall k' v', In (k', v') post ->
                         jsondec.matchesField "subject" k' = true ->
                         v' = JNull) ->
          Subject a = s) /\
      (forall pre k elems post,
          members = (pre ++ (k, JArray elems) :: post)%list ->
          jsondec.matchesField "strengths" k = true ->
          fieldMissing "strengths" post ->
          List.length (jsondec.elements (Strengths a)) = List.length elems /\
          forall i s, nth_error elems i = Some (JString s) ->
                      nth_error (jsondec.elements (Strengths a)) i = Some s) /\
      (forall pre k elems post,
          members = (pre ++ (k, JArray elems) :: post)%list ->
          jsondec.matchesField "suggestions" k = true ->
          fieldMissing "suggestions" post ->
          List.length (jsondec.elements (Suggestions a)) = List.length elems /\
          forall i s, nth_error elems i = Some (JString s) ->
                      nth_error (jsondec.elements (Suggestions a)) i = Some s) /\
      (forall pre k post,
          members = (pre ++ (k, JNull) :: post)%list ->
          jsondec.matchesField "strengths" k = true ->
          fieldMissing "strengths" post ->
          Strengths a = None) /\
      (forall pre k post,
          members = (pre ++ (k, JNull) :: post)%list ->
          jsondec.matchesField "suggestions" k = true ->
          fieldMissing "suggestions" post ->
          Suggestions a = None) /\
      ((forall k v, In (k, v) members -> isScoreKey k = true -> v = JNull) ->
       Score a = 1) /\
      ((forall k v, In (k, v) members ->
                    jsondec.matchesField "composition" k = true -> v = JNull) ->
       Composition a = EmptyString) /\
      ((forall k v, In (k, v) members ->
                    jsondec.matchesField "lighting" k = true -> v = JNull) ->
       Lighting a = EmptyString) /\
      ((forall k v, In (k, v) members ->
                    jsondec.matchesField "subject" k = true -> v = JNull) ->
       Subject a = EmptyString) /\
      (fieldMissing "strengths" members -> Strengths a = None) /\
      (fieldMissing "suggestions" members -> Suggestions a = None))
  /\
  (forall (z : Z) (intent : json) (c l sj : string) (st su : list string),
      - 2 ^ 63 <= z <= 2 ^ 63 - 1 ->
      exists a,
        analysisOfPayload
          (JObject [("score", intLiteral z); ("intent", intent);
                    ("composition", JString c); ("lighting", JString l);
                    ("subject", JString sj);
                    ("strengths", JArray (map JString st));
                    ("suggestions", JArray (map JString su))]) = Ok a /\
        Score a = clamp z /\ Composition a = c /\ Lighting a = l /\
        Subject a = sj /\ jsondec.elements (Strengths a) = st /\
        jsondec.elements (Suggestions a) = su)
  /\
  (forall pre k v post,
      isFieldKey k = false ->
      analysisOfPayload (JObject (pre ++ (k, v) :: post)) =
      analysisOfPayload (JObject (pre ++ post)))
  /\
  (forall pre k v post,
      jsondec.matchesField "intent" k = true ->
      analysisOfPayload (JObject (pre ++ (k, v) :: post)) =
      analysisOfPayload (JObject (pre ++ post))).
Proof.
  assert (Drop : forall pre k v post,
             isFieldKey k = false ->
             analysisOfPayload (JObject (pre ++ (k, v) :: post)) =
             analysisOfPayload (JObject (pre ++ post))).
  { intros pre k v post K.
    unfold analysisOfPayload, decodeAnalysis, decodeStruct.
    rewrite !storeMembers_app.
    destruct (storeMembers storeAnalysisMember zeroAnalysis pre) as [a|];
      [|reflexivity].
    cbn [option_bind storeMembers].
    now rewrite (store_unknown_member a k v K). }
  split; [|split; [|split]].
  - intros members a E.
    destruct (analysisOfPayload_ok _ _ E) as (a0 & D & ->).
    unfold decodeAnalysis, decodeStruct in D.
    cbn [validateScore Composition Lighting Subject Strengths Suggestions].
    rewrite validateScore_clamp.
    destruct (store_members_keep _ _ _ D) as (Z1 & Z2 & Z3 & Z4 & Z5 & Z6).
    cbn [zeroAnalysis Score Composition Lighting Subject Strengths Suggestions]
      in Z1, Z2, Z3, Z4, Z5, Z6.
    split; [|split; [|split; [|split; [|split; [|split; [|split; [|split]]]]]]].
    + intros pre k d post -> K P.
      destruct (storeMembers_split _ _ _ _ _ D) as (a1 & a2 & _ & S & R).
      destruct (store_named_member _ _ _ _ S) as (N & _).
      specialize (N K). cbn [jsondec.storeInt] in N.
      destruct (store_members_keep _ _ _ R) as (Kp & _).
      exists (Score a2). now rewrite (Kp P).
    + intros pre k s post -> K P.
      destruct (storeMembers_split _ _ _ _ _ D) as (a1 & a2 & _ & S & R).
      destruct (store_named_member _ _ _ _ S) as (_ & N & _).
      specialize (N K). cbn [jsondec.storeString] in N. inversion N as [N'].
      destruct (store_members_keep _ _ _ R) as (_ & Kp & _).
      now rewrite (Kp P).
    + intros pre k s post -> K P.
      destruct (storeMembers_split _ _ _ _ _ D) as (a1 & a2 & _ & S & R).
      destruct (store_named_member _ _ _ _ S) as (_ & _ & N & _).
      specialize (N K). cbn [jsondec.storeString] in N. inversion N as [N'].
      destruct (store_members_keep _ _ _ R) as (_ & _ & Kp & _).
      now rewrite (Kp P).
    + intros pre k s post -> K P.
      destruct (storeMembers_split _ _ _ _ _ D) as (a1 & a2 & _ & S & R).
      destruct (store_named_member _ _ _ _ S) as (_ & _ & _ & N & _).
      specialize (N K). cbn [jsondec.storeString] in N. inversion N as [N'].
      destruct (store_members_keep _ _ _ R) as (_ & _ & _ & Kp & _).
      now rewrite (Kp P).
    + intros pre k elems post -> K P.
      destruct (storeMembers_split _ _ _ _ _ D) as (a1 & a2 & _ & S & R).
      destruct (store_named_member _ _ _ _ S) as (_ & _ & _ & _ & N & _).
      specialize (N K).
      destruct (store_members_keep _ _ _ R) as (_ & _ & _ & _ & Kp & _).
      rewrite (Kp P). exact (storeStrings_array _ _ _ N).
    + intros pre k elems post -> K P.
      destruct (storeMembers_split _ _ _ _ _ D) as (a1 & a2 & _ & S & R).
      destruct (store_named_member _ _ _ _ S) as (_ & _ & _ & _ & _ & N).
      specialize (N K).
      destruct (store_members_keep _ _ _ R) as (_ & _ & _ & _ & _ & Kp).
      rewrite (Kp P). exact (storeStrings_array _ _ _ N).
    + intros pre k post -> K P.
      destruct (storeMembers_split _ _ _ _ _ D) as (a1 & a2 & _ & S & R).
      destruct (store_named_member _ _ _ _ S) as (_ & _ & _ & _ & N & _).
      specialize (N K). cbn [jsondec.storeStrings] in N. inversion N as [N'].
      destruct (store_members_keep _ _ _ R) as (_ & _ & _ & _ & Kp & _).
      now rewrite (Kp P).
    + intros pre k post -> K P.
      destruct (storeMembers_split _ _ _ _ _ D) as (a1 & a2 & _ & S & R).
      destruct (store_named_member _ _ _ _ S) as (_ & _ & _ & _ & _ & N).
      specialize (N K). cbn [jsondec.storeStrings] in N. inversion N as [N'].
      destruct (store_members_keep _ _ _ R) as (_ & _ & _ & _ & _ & Kp).
      now rewrite (Kp P).
    + repeat split; intros M.
      * now rewrite (Z1 M).
      * exact (Z2 M).
      * exact (Z3 M).
      * exact (Z4 M).
      * exact (Z5 M).
      * exact (Z6 M).
  - intros z intent c l sj st su R.
    destruct (storeStrings_fresh st) as [s1 [E1 L1]].
    destruct (storeStrings_fresh su) as [s2 [E2 L2]].
    exists (validateScore
              {| Score := z; Composition := c; Lighting := l; Subject := sj;
                 Strengths := s1; Suggestions := s2 |}).
    split; [|repeat split; assumption].
    unfold analysisOfPayload, decodeAnalysis, decodeStruct, intLiteral.
    rewrite storeMembers_cons.
    change (storeAnalysisMember zeroAnalysis
              ("score", JNumber (Decimal.Decimal (Z.to_int z) Decimal.Nil)))
      with (option_map
              (fun x => {| Score := x; Composition := EmptyString;
                           Lighting := EmptyString; Subject := EmptyString;
                           Strengths := None; Suggestions := None |})
              (jsondec.ParseInt64 (Decimal.Decimal (Z.to_int z) Decimal.Nil))).
    rewrite (ParseInt64_intLiteral z R). cbn [option_map option_bind].
    rewrite storeMembers_cons, (store_unknown_member _ "intent" intent eq_refl).
    cbn [option_bind].
    assert (Sc : forall a x,
               storeAnalysisMember a ("composition", JString x) =
               Some {| Score := Score a; Composition := x;
                       Lighting := Lighting a; Subject := Subject a;
                       Strengths := Strengths a;
                       Suggestions := Suggestions a |}) by reflexivity.
    assert (Sl : forall a x,
               storeAnalysisMember a ("lighting", JString x) =
               Some {| Score := Score a; Composition := Composition a;
                       Lighting := x; Subject := Subject a;
                       Strengths := Strengths a;
                       Suggestions := Suggestions a |}) by reflexivity.
    assert (Ss : forall a x,
               storeAnalysisMember a ("subject", JString x) =
               Some {| Score := Score a; Composition := Composition a;
                       Lighting := Lighting a; Subject := x;
                       Strengths := Strengths a;
                       Suggestions := Suggestions a |}) by reflexivity.
    assert (St : forall a v,
               storeAnalysisMember a ("strengths", v) =
               option_map
                 (fun x => {| Score := Score a; Composition := Composition a;
                              Lighting := Lighting a; Subject := Subject a;
                              Strengths := x;
                              Suggestions := Suggestions a |})
                 (jsondec.storeStrings (Strengths a) v)) by reflexivity.
    assert (Su : forall a v,
               storeAnalysisMember a ("suggestions", v) =
               option_map
                 (fun x => {| Score := Score a; Composition := Composition a;
                              Lighting := Lighting a; Subject := Subject a;
                              Strengths := Strengths a;
                              Suggestions := x |})
                 (jsondec.storeStrings (Suggestions a) v)) by reflexivity.
    rewrite storeMembers_cons, Sc. cbn [option_bind].
    rewrite storeMembers_cons, Sl. cbn [option_bind].
    rewrite storeMembers_cons, Ss. cbn [option_bind].
    rewrite storeMembers_cons, St.
    cbn [Score Composition Lighting Subject Strengths Suggestions].
    rewrite E1. cbn [option_map option_bind].
    rewrite storeMembers_cons, Su.
    cbn [Score Composition Lighting Subject Strengths Suggestions].
    rewrite E2. reflexivity.
  - exact Drop.
  - intros pre k v post K. apply Drop. now apply intent_is_no_field.
Qed.

Lemma analysis_fields_from_payload_witness :
  Composition
    (validateScore
       {| Score := 12; Composition := "Well framed."; Lighting := EmptyString;
          Subject := EmptyString; Strengths := None; Suggestions := None |})
  = "Well framed." /\
  exists a,
    analysisOfPayload
      (JObject [("score", intLiteral 9); ("intent", JString "a quiet street");
                ("composition", JString "Well framed.");
                ("lighting", JString "Soft."); ("subject", JString "Clear.");
                ("strengths", JArray (map JString ["Good framing"]));
                ("suggestions",
                 JArray (map JString ["Try closer"; "Use daylight"]))]) = Ok a /\
    Score a = clamp 9 /\ Composition a = "Well framed." /\
    Lighting a = "Soft." /\ Subject a = "Clear." /\
    jsondec.elements (Strengths a) = ["Good framing"] /\
    jsondec.elements (Suggestions a) = ["Try closer"; "Use daylight"].
Proof.
  split.
  - apply (proj1 (proj2 (proj1 analysis_fields_from_payload
                           [("composition", JString "Well framed.");
                            ("score", intLiteral 12); ("Composition", JNull)]
                           _ eq_refl))
             [] "composition" "Well framed."
             [("score", intLiteral 12); ("Composition", JNull)]);
      [reflexivity | reflexivity |].
    intros k v [E|[E|[]]]; inversion E; [discriminate | reflexivity].
  - apply (proj1 (proj2 analysis_fields_from_payload) 9). lia.
Defined.

(** * The score of the pipeline's analysis *)

Lemma clamp_cases z :
  (z < 1 -> clamp z = 1) /\ (10 < z -> clamp z = 10) /\
  (1 <= z <= 10 -> clamp z = z).
Proof.
  unfold clamp. destruct (Z.ltb_spec z 1); destruct (Z.gtb_spec z 10);
    repeat split; intros; lia.
Qed.

(** The pipeline from the reply on is the decoding of the parsed text. *)
Lemma pipeline_of_parsed_reply parseJSON Converse imageData imageBytes
      responseText blocks jsonText :
  base64.DecodeString imageData = Some imageBytes ->
  Converse imageBytes
  = Ok (Some (ConverseOutputMemberMessage
                (ContentBlockMemberText responseText :: blocks))) ->
  extractJSON responseText = Ok jsonText ->
  analyzeImageWithBedrock parseJSON Converse imageData
  = (analysisOfJSONText parseJSON jsonText, [imageBytes]).
Proof.
  intros D C X. unfold analyzeImageWithBedrock. rewrite D.
  unfold analysisOfReply. rewrite C. cbn [responseTextOf].
  destruct responseText as [|c r]; [discriminate|].
  cbn [String.eqb]. unfold analysisOfText. now rewrite X.
Qed.

(** C4. An analysis the pipeline returns has its score in [1,10], and the
    score is the clamped score of the parsed payload.  Whenever the text
    extracted from the reply parses to a payload whose last score number
    is [d] (later [null]s aside), the analysis made of that text has the
    score 1 if [d] is below 1, 10 if it is above 10, and [d] itself
    otherwise; and when no member of the payload is rejected the
    pipeline does return an analysis, after one Converse call, and its
    score is the clamped integer of [d]: a parsed -3 gives 1, a parsed 42
    gives 10, a parsed 7 gives 7. *)
Theorem score_clamped_to_range :
  (forall parseJSON Converse imageData a calls,
      analyzeImageWithBedrock parseJSON Converse imageData = (Ok a, calls) ->
      1 <= Score a <= 10)
  /\
  (forall parseJSON jsonText pre k d post a,
      parseJSON jsonText = Some (JObject (pre ++ (k, JNumber d) :: post)) ->
      isScoreKey k = true ->
      (forall k' v', In (k', v') post -> isScoreKey k' = true -> v' = JNull) ->
      analysisOfJSONText parseJSON jsonText = Ok a ->
      ((jsondec.numberValue d < 1)%Q -> Score a = 1) /\
      ((10 < jsondec.numberValue d)%Q -> Score a = 10) /\
      ((1 <= jsondec.numberValue d <= 10)%Q ->
       (inject_Z (Score a) == jsondec.numberValue d)%Q))
  /\
  (forall parseJSON Converse imageData imageBytes responseText blocks jsonText
          pre k d post,
      base64.DecodeString imageData = Some imageBytes ->
      Converse imageBytes
      = Ok (Some (ConverseOutputMemberMessage
                    (ContentBlockMemberText responseText :: blocks))) ->
      extractJSON responseText = Ok jsonText ->
      parseJSON jsonText = Some (JObject (pre ++ (k, JNumber d) :: post)) ->
      isScoreKey k = true ->
      (forall k' v', In (k', v') post -> isScoreKey k' = true -> v' = JNull) ->
      (forall m, In m (pre ++ (k, JNumber d) :: post) ->
                 rejectedByField m = false) ->
      exists a z,
        analyzeImageWithBedrock parseJSON Converse imageData
        = (Ok a, [imageBytes]) /\
        jsondec.ParseInt64 d = Some z /\
        (inject_Z z == jsondec.numberValue d)%Q /\
        Score a = clamp z /\
        (z < 1 -> Score a = 1) /\ (10 < z -> Score a = 10) /\
        (1 <= z <= 10 -> Score a = z))
  /\
  (forall parseJSON jsonText z,
      parseJSON jsonText = Some (JObject [("score", intLiteral z)]) ->
      - 2 ^ 63 <= z <= 2 ^ 63 - 1 ->
      exists a, analysisOfJSONText parseJSON jsonText = Ok a /\
                Score a = clamp z)
  /\ clamp (-3) = 1 /\ clamp 42 = 10 /\ clamp 7 = 7.
Proof.
  assert (Last : forall pre k d post a0,
             isScoreKey k = true ->
             (forall k' v', In (k', v') post -> isScoreKey k' = true ->
                            v' = JNull) ->
             storeMembers storeAnalysisMember zeroAnalysis
               (pre ++ (k, JNumber d) :: post) = Some a0 ->
             jsondec.ParseInt64 d = Some (Score a0)).
  { intros pre k d post a0 K P D.
    destruct (storeMembers_split _ _ _ _ _ D) as (a1 & a2 & _ & S & R).
    destruct (store_named_member _ _ _ _ S) as (N & _).
    specialize (N K). cbn [jsondec.storeInt] in N.
    destruct (store_members_keep _ _ _ R) as (Kp & _).
    now rewrite (Kp P). }
  split; [|split; [|split; [|split; [|repeat split]]]].
  - intros parseJSON Converse imageData a calls.
    unfold analyzeImageWithBedrock.
    destruct (base64.DecodeString imageData); [|discriminate].
    intros E; inversion E as [[R C]]; clear E C.
    exact (analysisOfReply_range _ _ _ R).
  - intros parseJSON jsonText pre k d post a PJ K P E.
    unfold analysisOfJSONText in E. rewrite PJ in E.
    destruct (analysisOfPayload_ok _ _ E) as [a0 [D ->]].
    unfold decodeAnalysis, decodeStruct in D.
    pose proof (Last _ _ _ _ _ K P D) as L.
    destruct (ParseInt64_integer _ _ L) as [i [-> [Z0 R]]].
    rewrite validateScore_clamp.
    destruct (clamp_cases (Score a0)) as (C1 & C2 & C3).
    repeat split; rewrite numberValue_integer, <- Z0.
    + rewrite <- (Zlt_Qlt _ 1). exact C1.
    + rewrite <- (Zlt_Qlt 10 _). exact C2.
    + rewrite <- (Zle_Qle 1 _), <- (Zle_Qle _ 10). intros B.
      now rewrite (C3 B).
  - intros parseJSON Converse imageData imageBytes responseText blocks jsonText
           pre k d post DI CV X PJ K P A.
    rewrite (pipeline_of_parsed_reply parseJSON Converse imageData imageBytes
               responseText blocks jsonText DI CV X).
    unfold analysisOfJSONText. rewrite PJ.
    unfold analysisOfPayload, decodeAnalysis, decodeStruct.
    destruct (storeMembers storeAnalysisMember zeroAnalysis
                (pre ++ (k, JNumber d) :: post)) as [a0|] eqn:D.
    2: { exfalso. apply storeMembers_accepts in D.
         apply existsb_exists in D. destruct D as (m & I & R).
         rewrite (A m I) in R. discriminate. }
    pose proof (Last _ _ _ _ _ K P D) as L.
    destruct (ParseInt64_integer _ _ L) as [i [Ed [Z0 R]]].
    exists (validateScore a0), (Score a0).
    rewrite validateScore_clamp.
    destruct (clamp_cases (Score a0)) as (C1 & C2 & C3).
    repeat split; try assumption.
    rewrite Ed, numberValue_integer, <- Z0. reflexivity.
  - intros parseJSON jsonText z PJ R.
    unfold analysisOfJSONText. rewrite PJ.
    unfold analysisOfPayload, decodeAnalysis, decodeStruct, intLiteral.
    cbn [storeMembers].
    change (storeAnalysisMember zeroAnalysis
              ("score", JNumber (Decimal.Decimal (Z.to_int z) Decimal.Nil)))
      with (option_map
              (fun x => {| Score := x; Composition := EmptyString;
                           Lighting := EmptyString; Subject := EmptyString;
                           Strengths := None; Suggestions := None |})
              (jsondec.ParseInt64 (Decimal.Decimal (Z.to_int z) Decimal.Nil))).
    rewrite (ParseInt64_intLiteral z R). cbn [option_map].
    eexists. split; [reflexivity|]. now rewrite validateScore_clamp.
Qed.

Lemma score_clamped_to_range_witness :
  exists a z,
    analyzeImageWithBedrock
      (fun _ => Some (JObject [("score", intLiteral 12)]))
      (fun _ => Ok (Some (ConverseOutputMemberMessage
                            [ContentBlockMemberText sampleReply])))
      "QUJD"
    = (Ok a, [[Byte.x41; Byte.x42; Byte.x43]]) /\
    jsondec.ParseInt64 (Decimal.Decimal (Z.to_int 12) Decimal.Nil) = Some z /\
    (inject_Z z
     == jsondec.numberValue (Decimal.Decimal (Z.to_int 12) Decimal.Nil))%Q /\
    Score a = clamp z /\
    (z < 1 -> Score a = 1) /\ (10 < z -> Score a = 10) /\
    (1 <= z <= 10 -> Score a = z).
Proof.
  apply (proj1 (proj2 (proj2 score_clamped_to_range))
           (fun _ => Some (JObject [("score", intLiteral 12)]))
           (fun _ => Ok (Some (ConverseOutputMemberMessage
                                 [ContentBlockMemberText sampleReply])))
           "QUJD" [Byte.x41; Byte.x42; Byte.x43] sampleReply []
           samplePayloadText [] "score" _ []);
    try reflexivity.
  - intros k' v' [].
  - intros m [<-|[]]. reflexivity.
Defined.

(** * Image data with a second separator *)

Lemma get_separator meta c r :
  get (String.length meta) (meta ++ String c r) = Some c.
Proof. induction meta; simpl; [reflexivity | assumption]. Qed.

Lemma payloadAfterFirstSeparator_first meta r :
  absent "," meta ->
  payloadAfterFirstSeparator (meta ++ String "," r) = r.
Proof.
  unfold payloadAfterFirstSeparator. intros A.
  assert (E : afterFirst "," (meta ++ String "," r) = Some r).
  { induction meta as [|a m IH]; [reflexivity|].
    destruct (absent_cons _ _ _ A) as [N A']. cbn [append afterFirst].
    destruct (Ascii.eqb_spec a ","); [contradiction | now apply IH]. }
  now rewrite E.
Qed.

(** C8, at image data with two separators.  When the image data is a
    comma-free prefix, a separator, well-formed base64, a second
    separator and any text, the payload that follows the prefix holds a
    separator and is not well-formed base64; yet the handler keeps the
    text up to the second separator, both of its checks pass, it calls
    Converse with the bytes of that text, and its answer is not the
    status 400. *)
Theorem malformed_payload_reaches_inference :
  forall parseJSON readBody Converse requestBody
         (meta first rest : string) (imageBytes : list Byte.byte),
    absent "," meta ->
    base64.DecodeString first = Some imageBytes ->
    readBody requestBody
    = Some (JObject [("image", JString (meta ++ "," ++ first ++ "," ++ rest))]) ->
    payloadAfterFirstSeparator (meta ++ "," ++ first ++ "," ++ rest)
    = (first ++ "," ++ rest)%string /\
    base64.DecodeString
      (payloadAfterFirstSeparator (meta ++ "," ++ first ++ "," ++ rest)) = None /\
    cleanImageData (meta ++ "," ++ first ++ "," ++ rest) = first /\
    snd (analyzeImageHandler parseJSON readBody Converse requestBody)
    = [imageBytes] /\
    status (fst (analyzeImageHandler parseJSON readBody Converse requestBody))
    <> StatusBadRequest.
Proof.
  intros parseJSON readBody Converse requestBody meta first rest imageBytes
         Am D E.
  change (meta ++ "," ++ first ++ "," ++ rest)%string
    with (meta ++ String "," (first ++ String "," rest))%string in *.
  change ("," ++ rest)%string with (String "," rest).
  pose proof (decode_absent _ _ _ D) as Af.
  assert (P : payloadAfterFirstSeparator
                (meta ++ String "," (first ++ String "," rest))
              = (first ++ String "," rest)%string)
    by (now apply payloadAfterFirstSeparator_first).
  assert (C : cleanImageData (meta ++ String "," (first ++ String "," rest))
              = first).
  { unfold cleanImageData.
    rewrite Contains_present, (Split_first _ _ _ Am), (Split_first _ _ _ Af).
    cbn [List.length nth].
    destruct (Z.ltb_spec 1 (Z.of_nat
                (S (S (List.length (strings.Split rest ","))))));
      [reflexivity | lia]. }
  assert (N : String.eqb (meta ++ String "," (first ++ String "," rest))
                EmptyString = false) by (destruct meta; reflexivity).
  split; [assumption|]. rewrite P, C.
  split.
  { destruct (base64.DecodeString (first ++ String "," rest)) as [b|] eqn:B;
      [|reflexivity].
    exfalso. apply (decode_absent _ _ _ B (String.length first)).
    apply get_separator. }
  split; [reflexivity|].
  unfold analyzeImageHandler. rewrite E. cbn [option_bind].
  change (decodeRequest
            (JObject [("image",
                       JString (meta ++ String "," (first ++ String "," rest)))]))
    with (Some {| Image := (meta ++ String "," (first ++ String "," rest))%string |}).
  cbn [Image]. rewrite N, C, D. unfold analyzeImageWithBedrock. rewrite D.
  destruct (analysisOfReply parseJSON (Converse imageBytes)); split;
    try reflexivity; discriminate.
Qed.

Lemma malformed_payload_reaches_inference_witness :
  payloadAfterFirstSeparator "meta,QUJD,REVG" = "QUJD,REVG" /\
  base64.DecodeString (payloadAfterFirstSeparator "meta,QUJD,REVG") = None /\
  cleanImageData "meta,QUJD,REVG" = "QUJD" /\
  snd (analyzeImageHandler
         (fun _ => None)
         (fun _ => Some (JObject [("image", JString "meta,QUJD,REVG")]))
         (fun _ => Err tt) "request")
  = [[Byte.x41; Byte.x42; Byte.x43]] /\
  status (fst (analyzeImageHandler
                 (fun _ => None)
                 (fun _ => Some (JObject [("image", JString "meta,QUJD,REVG")]))
                 (fun _ => Err tt) "request"))
  <> StatusBadRequest.
Proof.
  apply (malformed_payload_reaches_inference
           (fun _ => None)
           (fun _ => Some (JObject [("image", JString "meta,QUJD,REVG")]))
           (fun _ => Err tt) "request" "meta" "QUJD" "REVG"
           [Byte.x41; Byte.x42; Byte.x43]).
  - intros j. do 4 (destruct j as [|j]; [discriminate|]). destruct j; discriminate.
  - reflexivity.
  - reflexivity.
Defined.
